(** * CollectionView: a filtered, sorted and paged view over an array

    Shallow embedding of [CollectionView<T>] and its collaborators
    ([CollectionViewFilter], [CollectionViewFilterCollection],
    [CollectionViewSortingDescriptor],
    [CollectionViewSortingDescriptorCollection], [Event]) together with
    the properties that the design document states about them.

    Conventions of the embedding.
    - A TypeScript field that has no initialiser ([_filteredView],
      [_sortedView], [_pagedView], [selector], [comparer]) holds
      [undefined] until it is assigned: it is an [option], and reading a
      property of it while it is [None] throws a [TypeError].
    - JavaScript numbers used as page size and page index are integers,
      modelled in [Z].
    - A method is a function from the object state to an [Outcome]: it
      either returns a value or throws, and in both cases hands back the
      state as the method left it (an exception does not roll back the
      assignments made before it).
    - The view contains its two collections. A filter object is in the
      filter collection at most once, since [add] refuses a name that is
      there already and a name cannot be reassigned; the collection's
      array holds the filter objects themselves, and a caller designates
      one it holds by a [Ref].
    - [sorting.add] accepts the same descriptor object any number of
      times, so the places of the sorting collection's array can share an
      object. The descriptor objects live in a store, the field [heap] of
      the state, which is no field of the class; the array holds
      references into it, and so does a caller. A caller holds no
      reference to an object that was never made: a call on a reference
      that names no object of the store does nothing.
    - Two function objects are the same object when their identities
      agree. What is given as a sort expression is told apart the way
      the code does it, by [typeof] and by the function's [length].
    - Listeners registered from outside are opaque and do not touch the
      view; the listeners that the classes install themselves (the
      collections' forwarding handler, the view's recompute handlers) are
      run as the code runs them.
    - An observable source delivers nothing while the constructor runs;
      each later delivery is a call of [setData].
    - Every [raiseChanged] leaves an entry in the ghost field [trace]. *)

From Stdlib Require Import String Ascii DecimalString.
From Stdlib Require Import List ZArith Lia Bool Permutation Sorted.
Import ListNotations.
Local Open Scope string_scope.
Local Open Scope list_scope.
Local Open Scope Z_scope.

Set Implicit Arguments.

(** ** JavaScript array primitives *)

Module JsArray.

(** [Array.prototype.slice(start, end)]: negative arguments count from
    the end, both are clamped into [0, length]. *)
Definition relative_index (len i : Z) : Z :=
  if i <? 0 then Z.max (len + i) 0 else Z.min i len.

Definition slice {A : Type} (l : list A) (start finish : Z) : list A :=
  let len := Z.of_nat (length l) in
  let k := relative_index len start in
  let final := relative_index len finish in
  firstn (Z.to_nat (final - k)) (skipn (Z.to_nat k) l).

(** [Array.prototype.splice(index, 1)], result array only. A negative
    index counts from the end, so [splice(-1, 1)] drops the last
    element. *)
Fixpoint remove_at {A : Type} (n : nat) (l : list A) : list A :=
  match l, n with
  | [], _ => []
  | _ :: t, O => t
  | x :: t, S n' => x :: remove_at n' t
  end.

Definition splice1 {A : Type} (index : Z) (l : list A) : list A :=
  let len := Z.of_nat (length l) in
  remove_at (Z.to_nat (relative_index len index)) l.

(** [Array.prototype.indexOf] with the equality test made explicit;
    [-1] when nothing matches. *)
Fixpoint index_from {A : Type} (same : A -> bool) (l : list A) (i : Z) : Z :=
  match l with
  | [] => -1
  | x :: t => if same x then i else index_from same t (i + 1)
  end.

Definition indexOf {A : Type} (same : A -> bool) (l : list A) : Z :=
  index_from same l 0.

(** [Array.prototype.sort(comparefn)] is a stable sort. On a consistent
    comparison function (see [consistent] below) its result is the one
    ordered, stable rearrangement, computed here by insertion. On any
    other function the language leaves the order to the implementation,
    and [sort] stands for the real method only up to a rearrangement;
    whatever is proved about an order carries the hypothesis that the
    functions are consistent. *)
Section Sort.
Variable A : Type.
Variable comparefn : A -> A -> Z.

Fixpoint insert (x : A) (l : list A) : list A :=
  match l with
  | [] => [x]
  | y :: t => if comparefn x y <=? 0 then x :: y :: t else y :: insert x t
  end.

Fixpoint sort (l : list A) : list A :=
  match l with
  | [] => []
  | x :: t => insert x (sort t)
  end.
End Sort.

(** The comparison used when [comparefn] is [undefined]: the string
    forms of the two elements, by code unit. *)
Definition string_order (a b : string) : Z :=
  match String.compare a b with
  | Lt => -1
  | Eq => 0
  | Gt => 1
  end.

End JsArray.

(** ** Comparison functions *)

Section Ordering.
Variable A : Type.

(** A consistent comparison function, as [Array.prototype.sort]
    requires of its argument: [c a b < 0], [= 0] and [> 0] stand for
    before, tied and after. *)
Record consistent (c : A -> A -> Z) : Prop := {
  cf_refl : forall a, c a a = 0;
  cf_sym : forall a b, c a b = 0 -> c b a = 0;
  cf_trans_eq : forall a b d, c a b = 0 -> c b d = 0 -> c a d = 0;
  cf_trans_lt : forall a b d, c a b < 0 -> c b d < 0 -> c a d < 0;
  cf_trans_gt : forall a b d, c a b > 0 -> c b d > 0 -> c a d > 0
}.

(** [for (const c of cs) array = array.sort(c)]. *)
Definition sort_all (cs : list (A -> A -> Z)) (l : list A) : list A :=
  fold_left (fun acc c => JsArray.sort c acc) cs l.

(** The order that successive sorts produce: the comparison applied
    last decides, an earlier one only among the elements that all later
    ones tie. The list is in order of application. *)
Fixpoint lexicographic (cs : list (A -> A -> Z)) (x y : A) : Z :=
  match cs with
  | [] => 0
  | c :: rest =>
      let r := lexicographic rest x y in
      if r =? 0 then c x y else r
  end.

Definition precedes (c : A -> A -> Z) (x y : A) : Prop := c x y <= 0.
Definition tied (c : A -> A -> Z) (x y : A) : bool := c x y =? 0.

(** A class of elements no two of which the comparison separates. *)
Definition clique (c : A -> A -> Z) (p : A -> bool) : Prop :=
  forall x y, p x = true -> p y = true -> c x y <= 0.

(** What is needed of a comparison for ordered lists to be unique. *)
Record ordering (e : A -> A -> Z) : Prop := {
  ord_refl : forall a, e a a = 0;
  ord_sym : forall a b, e a b = 0 -> e b a = 0;
  ord_flip : forall a b, e a b < 0 -> e b a > 0
}.
End Ordering.

(** ** Exceptions and outcomes *)

Inductive Exn : Type :=
| JsError (message : string)
| TypeError.

Inductive Outcome (S A : Type) : Type :=
| Returned (value : A) (state : S)
| Threw (exn : Exn) (state : S).

Arguments Returned {S A} value state.
Arguments Threw {S A} exn state.

Definition state_after {S A : Type} (o : Outcome S A) : S :=
  match o with
  | Returned _ s => s
  | Threw _ s => s
  end.

Definition thrown {S A : Type} (o : Outcome S A) : option Exn :=
  match o with
  | Returned _ _ => None
  | Threw e _ => Some e
  end.

Definition Method (S A : Type) : Type := S -> Outcome S A.

Definition ret {S A : Type} (a : A) : Method S A := fun s => Returned a s.

Definition throw {S A : Type} (e : Exn) : Method S A := fun s => Threw e s.

Definition bind {S A B : Type} (m : Method S A) (k : A -> Method S B) : Method S B :=
  fun s =>
    match m s with
    | Returned a s' => k a s'
    | Threw e s' => Threw e s'
    end.

Definition get {S : Type} : Method S S := fun s => Returned s s.

Definition modify {S : Type} (f : S -> S) : Method S unit := fun s => Returned tt (f s).

Declare Scope method_scope.
Delimit Scope method_scope with method.
Notation "x <- m ;; k" := (bind m (fun x => k))
  (at level 61, m at next level, right associativity) : method_scope.
Notation "m ;; k" := (bind m (fun _ => k))
  (at level 61, right associativity) : method_scope.
Local Open Scope method_scope.

(** [for (const x of xs) body(x)] and [xs.forEach(body)]. *)
Fixpoint forEach {S A : Type} (xs : list A) (body : A -> Method S unit) : Method S unit :=
  match xs with
  | [] => ret tt
  | x :: t => body x ;; forEach t body
  end.

(** The messages of the [Error]s that the code throws, under the names the
    design document gives to the failure classes. *)
Definition ValidationError_pageSize : Exn :=
  JsError "'pageSize' must be greater than or equal one.".
Definition ValidationError_pageIndex : Exn :=
  JsError "'pageIndex' must be greater than or equal zero.".
Definition IllegalStateError_previous : Exn :=
  JsError "Can't navigate to previous page.".
Definition IllegalStateError_next : Exn :=
  JsError "Can't navigate to next page.".
Definition DuplicateNameError (name : string) : Exn :=
  JsError (String.append "Filter with name '" (String.append name "' already exists.")).
Definition NotFoundError_descriptor : Exn :=
  JsError "Filter does not exists.".
Definition NotFoundError_sort : Exn :=
  JsError "Could not find sort descriptor.".
Definition NotFoundError_handler : Exn :=
  JsError "Handler could not be found.".

(** ** [Event<TDelegate>] *)

Module Event.

(** [addEventListener]: [handlers.push(handler)]. *)
Definition addEventListener {H : Type} (handler : H) (handlers : list H) : list H :=
  handlers ++ [handler].

(** [removeEventListener]: [None] stands for the thrown
    "Handler could not be found."; otherwise the first occurrence is
    spliced out. [same] is [===] against the handler to remove. *)
Definition removeEventListener {H : Type} (same : H -> bool) (handlers : list H)
  : option (list H) :=
  let index := JsArray.indexOf same handlers in
  if index =? -1 then None else Some (JsArray.splice1 index handlers).

End Event.

(** ** Data model *)

Inductive SortDirection : Type := Ascending | Descending.

(** [type Comparable = string | number | boolean | Date]. *)
Inductive Comparable : Type :=
| CString (s : string)
| CNumber (n : Z)
| CBoolean (b : bool)
| CDate (time : Z).

(** A function object: what it computes and which object it is ([===] on
    functions compares identities). *)
Record Fun (X : Type) : Type := { fun_ident : nat; call : X }.

(** Handlers found in a descriptor's [changed] event: the forwarding
    closure [raiseChangedHandler] of the owning collection, or a listener
    registered from outside. *)
Inductive DescriptorChangedEventHandler : Type :=
| raiseChangedHandler
| descriptorListener (ident : nat).

(** Handlers found in a collection's [changed] event: the arrow function
    that the [CollectionView] constructor installs ([applyFilters] on the
    filter collection, [applySorting] on the sorting collection), or a
    listener registered from outside. *)
Inductive CollectionChangedEventHandler : Type :=
| viewRecompute
| collectionListener (ident : nat).

Definition is_raiseChangedHandler (h : DescriptorChangedEventHandler) : bool :=
  match h with
  | raiseChangedHandler => true
  | descriptorListener _ => false
  end.

(** How a caller designates a filter object it holds a reference to: the
    object stored at an index of the collection's array, or an object
    that is not in the collection, given by its current contents. An index
    outside the array designates nothing. *)
Inductive Ref (D : Type) : Type :=
| Member (index : nat)
| Detached (object : D).

Arguments Member {D} index.
Arguments Detached {D} object.

Section Model.

(** The record type [T] and the string form [String(x)] of a record,
    which the default array sort compares. *)
Variable T : Type.
Variable toStr : T -> string.

Definition Predicate : Type := T -> bool.
Definition Comparer : Type := T -> T -> Z.

Record CollectionViewFilter : Type := {
  name : string;
  _predicate : Predicate;
  filter_handlers : list DescriptorChangedEventHandler
}.

Record CollectionViewFilterCollection : Type := {
  filter_items : list CollectionViewFilter;
  filters_handlers : list CollectionChangedEventHandler
}.

(** [selector: ((m: T) => Comparable) | keyof T]. *)
Inductive Selector : Type :=
| PropertyName (property : string)
| KeySelector (f : Fun (T -> Comparable)).

Record CollectionViewSortingDescriptor : Type := {
  selector : option Selector;
  propertyComparer : option (Fun (Comparable -> Comparable -> Z));
  _direction : SortDirection;
  comparer : option (Fun Comparer);
  descriptor_handlers : list DescriptorChangedEventHandler
}.

(** The array [descriptors] holds references to descriptor objects. *)
Record CollectionViewSortingDescriptorCollection : Type := {
  descriptors : list nat;
  sorting_handlers : list CollectionChangedEventHandler
}.

(** One entry per [raiseChanged] call; for the view only when there is a
    listener, since only then is a [CollectionViewChangedEventArgs]
    built, carrying the paged view. *)
Inductive Signal : Type :=
| FilterChanged (filter_name : string)
| FiltersChanged
| DescriptorChanged
| SortingChanged
| ViewChanged (newView : list T).

Record CollectionView : Type := {
  _data : list T;
  suppressFiltering : bool;
  _filteredView : option (list T);
  filters : CollectionViewFilterCollection;
  suppressSorting : bool;
  _sortedView : option (list T);
  sorting : CollectionViewSortingDescriptorCollection;
  suppressPaging : bool;
  _pagedView : option (list T);
  _pageSize : Z;
  _pageIndex : Z;
  _handlers : list nat;
  trace : list Signal;
  heap : list CollectionViewSortingDescriptor
}.

(** Field assignments. *)
Definition set_data v s :=
  {| _data := v; suppressFiltering := suppressFiltering s;
     _filteredView := _filteredView s; filters := filters s;
     suppressSorting := suppressSorting s; _sortedView := _sortedView s;
     sorting := sorting s; suppressPaging := suppressPaging s;
     _pagedView := _pagedView s; _pageSize := _pageSize s;
     _pageIndex := _pageIndex s; _handlers := _handlers s; trace := trace s;
     heap := heap s |}.
Definition set_suppressFiltering v s :=
  {| _data := _data s; suppressFiltering := v;
     _filteredView := _filteredView s; filters := filters s;
     suppressSorting := suppressSorting s; _sortedView := _sortedView s;
     sorting := sorting s; suppressPaging := suppressPaging s;
     _pagedView := _pagedView s; _pageSize := _pageSize s;
     _pageIndex := _pageIndex s; _handlers := _handlers s; trace := trace s;
     heap := heap s |}.
Definition set_filteredView v s :=
  {| _data := _data s; suppressFiltering := suppressFiltering s;
     _filteredView := v; filters := filters s;
     suppressSorting := suppressSorting s; _sortedView := _sortedView s;
     sorting := sorting s; suppressPaging := suppressPaging s;
     _pagedView := _pagedView s; _pageSize := _pageSize s;
     _pageIndex := _pageIndex s; _handlers := _handlers s; trace := trace s;
     heap := heap s |}.
Definition set_filters v s :=
  {| _data := _data s; suppressFiltering := suppressFiltering s;
     _filteredView := _filteredView s; filters := v;
     suppressSorting := suppressSorting s; _sortedView := _sortedView s;
     sorting := sorting s; suppressPaging := suppressPaging s;
     _pagedView := _pagedView s; _pageSize := _pageSize s;
     _pageIndex := _pageIndex s; _handlers := _handlers s; trace := trace s;
     heap := heap s |}.
Definition set_suppressSorting v s :=
  {| _data := _data s; suppressFiltering := suppressFiltering s;
     _filteredView := _filteredView s; filters := filters s;
     suppressSorting := v; _sortedView := _sortedView s;
     sorting := sorting s; suppressPaging := suppressPaging s;
     _pagedView := _pagedView s; _pageSize := _pageSize s;
     _pageIndex := _pageIndex s; _handlers := _handlers s; trace := trace s;
     heap := heap s |}.
Definition set_sortedView v s :=
  {| _data := _data s; suppressFiltering := suppressFiltering s;
     _filteredView := _filteredView s; filters := filters s;
     suppressSorting := suppressSorting s; _sortedView := v;
     sorting := sorting s; suppressPaging := suppressPaging s;
     _pagedView := _pagedView s; _pageSize := _pageSize s;
     _pageIndex := _pageIndex s; _handlers := _handlers s; trace := trace s;
     heap := heap s |}.
Definition set_sorting v s :=
  {| _data := _data s; suppressFiltering := suppressFiltering s;
     _filteredView := _filteredView s; filters := filters s;
     suppressSorting := suppressSorting s; _sortedView := _sortedView s;
     sorting := v; suppressPaging := suppressPaging s;
     _pagedView := _pagedView s; _pageSize := _pageSize s;
     _pageIndex := _pageIndex s; _handlers := _handlers s; trace := trace s;
     heap := heap s |}.
Definition set_pagedView v s :=
  {| _data := _data s; suppressFiltering := suppressFiltering s;
     _filteredView := _filteredView s; filters := filters s;
     suppressSorting := suppressSorting s; _sortedView := _sortedView s;
     sorting := sorting s; suppressPaging := suppressPaging s;
     _pagedView := v; _pageSize := _pageSize s;
     _pageIndex := _pageIndex s; _handlers := _handlers s; trace := trace s;
     heap := heap s |}.
Definition set_pageSize v s :=
  {| _data := _data s; suppressFiltering := suppressFiltering s;
     _filteredView := _filteredView s; filters := filters s;
     suppressSorting := suppressSorting s; _sortedView := _sortedView s;
     sorting := sorting s; suppressPaging := suppressPaging s;
     _pagedView := _pagedView s; _pageSize := v;
     _pageIndex := _pageIndex s; _handlers := _handlers s; trace := trace s;
     heap := heap s |}.
Definition set_pageIndex v s :=
  {| _data := _data s; suppressFiltering := suppressFiltering s;
     _filteredView := _filteredView s; filters := filters s;
     suppressSorting := suppressSorting s; _sortedView := _sortedView s;
     sorting := sorting s; suppressPaging := suppressPaging s;
     _pagedView := _pagedView s; _pageSize := _pageSize s;
     _pageIndex := v; _handlers := _handlers s; trace := trace s;
     heap := heap s |}.
Definition set_handlers v s :=
  {| _data := _data s; suppressFiltering := suppressFiltering s;
     _filteredView := _filteredView s; filters := filters s;
     suppressSorting := suppressSorting s; _sortedView := _sortedView s;
     sorting := sorting s; suppressPaging := suppressPaging s;
     _pagedView := _pagedView s; _pageSize := _pageSize s;
     _pageIndex := _pageIndex s; _handlers := v; trace := trace s;
     heap := heap s |}.
Definition set_trace v s :=
  {| _data := _data s; suppressFiltering := suppressFiltering s;
     _filteredView := _filteredView s; filters := filters s;
     suppressSorting := suppressSorting s; _sortedView := _sortedView s;
     sorting := sorting s; suppressPaging := suppressPaging s;
     _pagedView := _pagedView s; _pageSize := _pageSize s;
     _pageIndex := _pageIndex s; _handlers := _handlers s; trace := v;
     heap := heap s |}.
Definition set_heap v s :=
  {| _data := _data s; suppressFiltering := suppressFiltering s;
     _filteredView := _filteredView s; filters := filters s;
     suppressSorting := suppressSorting s; _sortedView := _sortedView s;
     sorting := sorting s; suppressPaging := suppressPaging s;
     _pagedView := _pagedView s; _pageSize := _pageSize s;
     _pageIndex := _pageIndex s; _handlers := _handlers s; trace := trace s;
     heap := v |}.
Definition emit (e : Signal) s :=
  {| _data := _data s; suppressFiltering := suppressFiltering s;
     _filteredView := _filteredView s; filters := filters s;
     suppressSorting := suppressSorting s; _sortedView := _sortedView s;
     sorting := sorting s; suppressPaging := suppressPaging s;
     _pagedView := _pagedView s; _pageSize := _pageSize s;
     _pageIndex := _pageIndex s; _handlers := _handlers s;
     trace := trace s ++ [e]; heap := heap s |}.

Definition set_filter_items v s :=
  set_filters {| filter_items := v; filters_handlers := filters_handlers (filters s) |} s.
Definition set_descriptors v s :=
  set_sorting {| descriptors := v; sorting_handlers := sorting_handlers (sorting s) |} s.

Definition Call (A : Type) : Type := Method CollectionView A.

(** *** Paging stage *)

(** [CollectionView.raiseChanged]. The event argument is built from
    [this.view], that is from [_pagedView.values()]. *)
Definition raiseChanged : Call unit :=
  s <- get ;;
  match _handlers s with
  | [] => ret tt
  | _ :: _ =>
      match _pagedView s with
      | None => throw TypeError
      | Some page => modify (emit (ViewChanged page))
      end
  end.

Definition applyPaging : Call unit :=
  s <- get ;;
  if suppressPaging s then ret tt
  else
    match _sortedView s with
    | None => throw TypeError
    | Some sorted =>
        modify (set_pagedView
                  (Some (JsArray.slice sorted
                           (_pageIndex s * _pageSize s)
                           ((_pageIndex s + 1) * _pageSize s)))) ;;
        raiseChanged
    end.

(** *** Sorting stage *)

(** The object a reference leads to; a reference that no object was
    created for leads nowhere. *)
Definition deref (s : CollectionView) (r : nat) : option CollectionViewSortingDescriptor :=
  nth_error (heap s) r.

Fixpoint objects_of (h : list CollectionViewSortingDescriptor) (refs : list nat)
  : list CollectionViewSortingDescriptor :=
  match refs with
  | [] => []
  | r :: rest =>
      match nth_error h r with
      | Some d => d :: objects_of h rest
      | None => objects_of h rest
      end
  end.

(** [sorting.getAll()]: the descriptor objects in the order of the
    array, an object as often as the array refers to it. *)
Definition sorting_getAll (s : CollectionView) : list CollectionViewSortingDescriptor :=
  objects_of (heap s) (descriptors (sorting s)).

(** [array.sort(descriptor.comparer)], where [comparer] may be
    [undefined]. *)
Definition comparefn (d : CollectionViewSortingDescriptor) : Comparer :=
  match comparer d with
  | Some c => call c
  | None => fun a b => JsArray.string_order (toStr a) (toStr b)
  end.

Definition sort_by (d : CollectionViewSortingDescriptor) : Call unit :=
  s <- get ;;
  match _sortedView s with
  | None => throw TypeError
  | Some sorted => modify (set_sortedView (Some (JsArray.sort (comparefn d) sorted)))
  end.

Definition applySorting : Call unit :=
  s <- get ;;
  if suppressSorting s then ret tt
  else
    forEach (sorting_getAll s) sort_by ;;
    applyPaging.

(** *** Filtering stage *)

Definition narrow_by (f : CollectionViewFilter) : Call unit :=
  s <- get ;;
  match _filteredView s with
  | None => throw TypeError
  | Some filtered => modify (set_filteredView (Some (List.filter (_predicate f) filtered)))
  end.

Definition applyFilters : Call unit :=
  s <- get ;;
  if suppressFiltering s then ret tt
  else
    modify (set_filteredView (Some (_data s))) ;;
    forEach (filter_items (filters s)) narrow_by ;;
    applySorting ;;
    applyPaging.

Definition setData (data : list T) : Call unit :=
  modify (set_data data) ;;
  applyFilters.

(** *** Construction *)

Inductive DataSource : Type :=
| FromArray (data : list T)
| FromObservable.

(** The field initialisers of the class. *)
Definition fresh : CollectionView :=
  {| _data := [];
     suppressFiltering := false;
     _filteredView := None;
     filters := {| filter_items := []; filters_handlers := [] |};
     suppressSorting := false;
     _sortedView := None;
     sorting := {| descriptors := []; sorting_handlers := [] |};
     suppressPaging := false;
     _pagedView := None;
     _pageSize := 10;
     _pageIndex := 0;
     _handlers := [];
     trace := [];
     heap := [] |}.

(** The constructor body. An observable source is subscribed to and
    delivers its arrays later, each through [setData]. *)
Definition construct (data : DataSource) : Call unit :=
  modify (fun s => set_filters
                     {| filter_items := filter_items (filters s);
                        filters_handlers :=
                          Event.addEventListener viewRecompute (filters_handlers (filters s)) |} s) ;;
  modify (fun s => set_sorting
                     {| descriptors := descriptors (sorting s);
                        sorting_handlers :=
                          Event.addEventListener viewRecompute (sorting_handlers (sorting s)) |} s) ;;
  match data with
  | FromArray d => setData d
  | FromObservable => ret tt
  end.

Definition new_CollectionView (data : DataSource) : Outcome CollectionView unit :=
  construct data fresh.

(** *** Paging state *)

Definition pageSize_set (value : Z) : Call unit :=
  if value <? 1 then throw ValidationError_pageSize
  else
    modify (set_pageSize value) ;;
    applyPaging.

Definition pageIndex_set (value : Z) : Call unit :=
  if value <? 0 then throw ValidationError_pageIndex
  else
    modify (set_pageIndex value) ;;
    applyPaging.

(** [page(pageIndex, pageSize = this.pageSize)]. *)
Definition page (pageIndex : Z) (pageSize : option Z) : Call unit :=
  s <- get ;;
  pageSize_set (match pageSize with Some v => v | None => _pageSize s end) ;;
  pageIndex_set pageIndex.

Definition goToPage (pageIndex : Z) : Call unit := pageIndex_set pageIndex.

Definition canNavigateToPreviousPage : Call bool :=
  s <- get ;;
  ret (0 <? _pageIndex s).

Definition canNavigateToNextPage : Call bool :=
  s <- get ;;
  match _pagedView s with
  | None => throw TypeError
  | Some paged => ret ((_pageIndex s + 1) * _pageSize s <? Z.of_nat (length paged))
  end.

Definition goToPreviousPage : Call unit :=
  can <- canNavigateToPreviousPage ;;
  if negb can then throw IllegalStateError_previous
  else
    s <- get ;;
    page (_pageIndex s - 1) None.

Definition goToNextPage : Call unit :=
  can <- canNavigateToNextPage ;;
  if negb can then throw IllegalStateError_next
  else
    s <- get ;;
    page (_pageIndex s + 1) None.


(** *** Descriptor plumbing shared by the two collections *)

Definition run_collection_handler (recompute : Call unit)
           (h : CollectionChangedEventHandler) : Call unit :=
  match h with
  | viewRecompute => recompute
  | collectionListener _ => ret tt
  end.

Definition run_descriptor_handler (forward : Call unit)
           (h : DescriptorChangedEventHandler) : Call unit :=
  match h with
  | raiseChangedHandler => forward
  | descriptorListener _ => ret tt
  end.

Fixpoint find_index {A : Type} (test : A -> bool) (l : list A) : option nat :=
  match l with
  | [] => None
  | x :: t => if test x then Some O else option_map S (find_index test t)
  end.

Fixpoint replace_nth {A : Type} (n : nat) (x : A) (l : list A) : list A :=
  match l, n with
  | [], _ => []
  | _ :: t, O => x :: t
  | y :: t, S n' => y :: replace_nth n' x t
  end.

(** The loop of [clear]: [removeEventListener(raiseChangedHandler)] on
    each descriptor in turn. The flag tells whether the loop finished;
    when a descriptor lacks the handler the loop stops there, the
    descriptors before it already unsubscribed. *)
Fixpoint unsubscribe_all {D : Type}
         (handlers : D -> list DescriptorChangedEventHandler)
         (with_handlers : list DescriptorChangedEventHandler -> D -> D)
         (items : list D) : list D * bool :=
  match items with
  | [] => ([], true)
  | d :: t =>
      match Event.removeEventListener is_raiseChangedHandler (handlers d) with
      | None => (d :: t, false)
      | Some hs =>
          let (t', finished) := unsubscribe_all handlers with_handlers t in
          (with_handlers hs d :: t', finished)
      end
  end.

(** What [remove] works on: nothing to call it with, no such
    descriptor, or the descriptor and the value of [indexOf] for it. *)
Inductive Located (D : Type) : Type :=
| NoSuchObject
| Missing
| Found (index : Z) (object : D).

Arguments NoSuchObject {D}.
Arguments Missing {D}.
Arguments Found {D} index object.

Definition locate_object {D : Type} (r : Ref D) (items : list D) : Located D :=
  match r with
  | Member i =>
      match nth_error items i with
      | Some d => Found (Z.of_nat i) d
      | None => NoSuchObject
      end
  | Detached d => Found (-1) d
  end.

Definition locate_first {D : Type} (test : D -> bool) (items : list D) : Located D :=
  match find_index test items with
  | Some i =>
      match nth_error items i with
      | Some d => Found (Z.of_nat i) d
      | None => Missing
      end
  | None => Missing
  end.

(** *** [CollectionViewFilter] and [CollectionViewFilterCollection] *)

Definition new_CollectionViewFilter (n : string) (predicate : Predicate)
  : CollectionViewFilter :=
  {| name := n; _predicate := predicate; filter_handlers := [] |}.

Definition with_filter_handlers (hs : list DescriptorChangedEventHandler)
           (f : CollectionViewFilter) : CollectionViewFilter :=
  {| name := name f; _predicate := _predicate f; filter_handlers := hs |}.

Definition with_predicate (p : Predicate) (f : CollectionViewFilter)
  : CollectionViewFilter :=
  {| name := name f; _predicate := p; filter_handlers := filter_handlers f |}.

Definition filters_raiseChanged : Call unit :=
  modify (emit FiltersChanged) ;;
  s <- get ;;
  forEach (filters_handlers (filters s)) (run_collection_handler applyFilters).

Definition filter_raiseChanged (f : CollectionViewFilter) : Call unit :=
  modify (emit (FilterChanged (name f))) ;;
  forEach (filter_handlers f) (run_descriptor_handler filters_raiseChanged).

Definition filters_count (c : CollectionViewFilterCollection) : Z :=
  Z.of_nat (length (filter_items c)).

Definition filters_find (n : string) (c : CollectionViewFilterCollection)
  : option CollectionViewFilter :=
  List.find (fun f => String.eqb (name f) n) (filter_items c).

(** The three call shapes of [add]. *)
Inductive FilterArgument : Type :=
| GivenFilter (filter : CollectionViewFilter)
| GivenPredicate (predicate : Predicate)
| GivenName (n : string) (predicate : Predicate).

(** [Number.prototype.toString] on an array length. *)
Definition length_toString (n : nat) : string :=
  NilZero.string_of_uint (Nat.to_uint n).

Definition resolve_filter (c : CollectionViewFilterCollection) (arg : FilterArgument)
  : CollectionViewFilter :=
  match arg with
  | GivenFilter f => f
  | GivenName n p => new_CollectionViewFilter n p
  | GivenPredicate p =>
      new_CollectionViewFilter (length_toString (length (filter_items c))) p
  end.

Definition filters_add (arg : FilterArgument) : Call unit :=
  s <- get ;;
  let filter := resolve_filter (filters s) arg in
  match filters_find (name filter) (filters s) with
  | Some _ => throw (DuplicateNameError (name filter))
  | None =>
      let subscribed :=
        with_filter_handlers
          (Event.addEventListener raiseChangedHandler (filter_handlers filter)) filter in
      modify (fun s' => set_filter_items (filter_items (filters s') ++ [subscribed]) s') ;;
      filters_raiseChanged
  end.

Inductive FilterTarget : Type :=
| FilterNamed (n : string)
| FilterObject (r : Ref CollectionViewFilter).

Definition locate_filter (p : FilterTarget) (items : list CollectionViewFilter)
  : Located CollectionViewFilter :=
  match p with
  | FilterNamed n => locate_first (fun f => String.eqb (name f) n) items
  | FilterObject r => locate_object r items
  end.

Definition filters_remove (p : FilterTarget) : Call unit :=
  s <- get ;;
  match locate_filter p (filter_items (filters s)) with
  | NoSuchObject => ret tt
  | Missing => throw NotFoundError_descriptor
  | Found index filter =>
      modify (set_filter_items (JsArray.splice1 index (filter_items (filters s)))) ;;
      match Event.removeEventListener is_raiseChangedHandler (filter_handlers filter) with
      | None => throw NotFoundError_handler
      | Some _ => filters_raiseChanged
      end
  end.

Definition filters_clear : Call unit :=
  s <- get ;;
  let (items, finished) :=
    unsubscribe_all filter_handlers with_filter_handlers (filter_items (filters s)) in
  modify (set_filter_items items) ;;
  if finished then
    modify (set_filter_items []) ;;
    filters_raiseChanged
  else throw NotFoundError_handler.

(** [CollectionViewFilter.predicate] setter, on a filter the caller
    holds. *)
Definition predicate_set (r : Ref CollectionViewFilter) (value : Predicate) : Call unit :=
  s <- get ;;
  match r with
  | Member i =>
      match nth_error (filter_items (filters s)) i with
      | None => ret tt
      | Some f =>
          modify (set_filter_items
                    (replace_nth i (with_predicate value f) (filter_items (filters s)))) ;;
          filter_raiseChanged (with_predicate value f)
      end
  | Detached f => filter_raiseChanged (with_predicate value f)
  end.


Definition filter_set (predicate : option Predicate) : Call unit :=
  modify (set_suppressFiltering true) ;;
  filters_clear ;;
  match predicate with
  | Some p => filters_add (GivenFilter (new_CollectionViewFilter "Default" p))
  | None => ret tt
  end ;;
  modify (set_suppressFiltering false) ;;
  applyFilters.

(** *** [CollectionViewSortingDescriptor] and its collection *)

(** What a sort can be asked by, as the code tells it apart: a string, a
    function whose [length] is 1, a function whose [length] is 2, and
    anything else that the declared types admit, such as a function that
    declares no parameter ([() => 0], or one taking a rest parameter) and a
    key of [T] that is a number. *)
Inductive SortExpression : Type :=
| ByProperty (property : string)
| BySelector (f : Fun (T -> Comparable))
| ByComparer (c : Fun Comparer)
| ByOther.

(** The constructor:
    [new CollectionViewSortingDescriptor(p1, direction = Ascending, comparer)].
    For anything but a string and a function of one or two parameters it
    assigns neither [selector] nor [comparer]. *)
Definition new_CollectionViewSortingDescriptor
           (p1 : SortExpression) (direction : option SortDirection)
           (property_comparer : option (Fun (Comparable -> Comparable -> Z)))
  : CollectionViewSortingDescriptor :=
  {| selector :=
       match p1 with
       | ByProperty p => Some (PropertyName p)
       | BySelector f => Some (KeySelector f)
       | ByComparer _ => None
       | ByOther => None
       end;
     propertyComparer := property_comparer;
     _direction := match direction with Some d => d | None => Ascending end;
     comparer :=
       match p1 with
       | ByComparer c => Some c
       | _ => None
       end;
     descriptor_handlers := [] |}.

Definition with_descriptor_handlers (hs : list DescriptorChangedEventHandler)
           (d : CollectionViewSortingDescriptor) : CollectionViewSortingDescriptor :=
  {| selector := selector d; propertyComparer := propertyComparer d;
     _direction := _direction d; comparer := comparer d;
     descriptor_handlers := hs |}.

Definition with_direction (v : SortDirection)
           (d : CollectionViewSortingDescriptor) : CollectionViewSortingDescriptor :=
  {| selector := selector d; propertyComparer := propertyComparer d;
     _direction := v; comparer := comparer d;
     descriptor_handlers := descriptor_handlers d |}.

(** An assignment to a field of the object that [r] refers to: every
    place of the array that refers to the object sees it. *)
Definition set_object (r : nat) (d : CollectionViewSortingDescriptor) (s : CollectionView)
  : CollectionView :=
  set_heap (replace_nth r d (heap s)) s.

(** A [new] expression: the object is created, and the reference to it
    is the result. *)
Definition allocate (d : CollectionViewSortingDescriptor) : Call nat :=
  s <- get ;;
  modify (set_heap (heap s ++ [d])) ;;
  ret (length (heap s)).

Definition sorting_raiseChanged : Call unit :=
  modify (emit SortingChanged) ;;
  s <- get ;;
  forEach (sorting_handlers (sorting s)) (run_collection_handler applySorting).

(** [CollectionViewSortingDescriptor.raiseChanged], on the object [r]. *)
Definition descriptor_raiseChanged (r : nat) : Call unit :=
  modify (emit DescriptorChanged) ;;
  s <- get ;;
  match deref s r with
  | None => ret tt
  | Some d => forEach (descriptor_handlers d) (run_descriptor_handler sorting_raiseChanged)
  end.

Definition sorting_count (c : CollectionViewSortingDescriptorCollection) : Z :=
  Z.of_nat (length (descriptors c)).

(** [d.selector === p1] and [d.comparer === p1]. *)
Definition selector_is (p1 : SortExpression) (d : CollectionViewSortingDescriptor) : bool :=
  match p1, selector d with
  | ByProperty p, Some (PropertyName q) => String.eqb q p
  | BySelector f, Some (KeySelector g) => Nat.eqb (fun_ident g) (fun_ident f)
  | _, _ => false
  end.

Definition comparer_is (c : Fun Comparer) (d : CollectionViewSortingDescriptor) : bool :=
  match comparer d with
  | Some c' => Nat.eqb (fun_ident c') (fun_ident c)
  | None => false
  end.

(** The test that [find] applies to each descriptor. What is neither a
    string nor a function of one parameter is compared with [comparer],
    which holds a function of two parameters or nothing: for [ByOther]
    the comparison fails. *)
Definition matches (p1 : SortExpression) (d : CollectionViewSortingDescriptor) : bool :=
  match p1 with
  | ByProperty _ => selector_is p1 d
  | BySelector _ => selector_is p1 d
  | ByComparer c => comparer_is c d
  | ByOther => false
  end.

(** [find]: the first object of the array that passes the test. *)
Definition sorting_find (p1 : SortExpression) (s : CollectionView) : option nat :=
  List.find (fun r => match deref s r with
                      | Some d => matches p1 d
                      | None => false
                      end)
            (descriptors (sorting s)).

(** What [add] is called with: a descriptor object the caller holds, or
    an expression. *)
Inductive SortArgument : Type :=
| GivenDescriptor (r : nat)
| GivenExpression (p1 : SortExpression).

(** The last three statements of [add], on the object to register. *)
Definition register (r : nat) : Call unit :=
  s <- get ;;
  match deref s r with
  | None => ret tt
  | Some d =>
      modify (set_object r
                (with_descriptor_handlers
                   (Event.addEventListener raiseChangedHandler (descriptor_handlers d)) d)) ;;
      modify (fun s => set_descriptors (descriptors (sorting s) ++ [r]) s) ;;
      sorting_raiseChanged
  end.

(** [add]. For what is neither a descriptor, a string nor a function of
    one or two parameters the local [descriptor] is still [null] when
    its [changed] is read. *)
Definition sorting_add (arg : SortArgument) (direction : option SortDirection)
           (property_comparer : option (Fun (Comparable -> Comparable -> Z)))
  : Call unit :=
  match arg with
  | GivenDescriptor r => register r
  | GivenExpression (ByComparer c) =>
      r <- allocate (new_CollectionViewSortingDescriptor (ByComparer c) None None) ;;
      register r
  | GivenExpression ByOther => throw TypeError
  | GivenExpression p1 =>
      r <- allocate (new_CollectionViewSortingDescriptor p1 direction property_comparer) ;;
      register r
  end.

(** What [remove] is called with: a key of [T], a string or not, or a
    descriptor object the caller holds. *)
Inductive SortTarget : Type :=
| SortProperty (property : string)
| SortOtherKey
| SortObject (r : nat).

Definition locate_descriptor (p : SortTarget) (s : CollectionView) : option nat :=
  match p with
  | SortProperty property => sorting_find (ByProperty property) s
  | SortOtherKey => sorting_find ByOther s
  | SortObject r => Some r
  end.

Definition sorting_remove (p : SortTarget) : Call unit :=
  s <- get ;;
  match locate_descriptor p s with
  | None => throw NotFoundError_descriptor
  | Some r =>
      match deref s r with
      | None => ret tt
      | Some d =>
          modify (set_descriptors
                    (JsArray.splice1 (JsArray.indexOf (Nat.eqb r) (descriptors (sorting s)))
                                     (descriptors (sorting s)))) ;;
          match Event.removeEventListener is_raiseChangedHandler (descriptor_handlers d) with
          | None => throw NotFoundError_handler
          | Some hs =>
              modify (set_object r (with_descriptor_handlers hs d)) ;;
              sorting_raiseChanged
          end
      end
  end.

(** One turn of the loop of [clear]. *)
Definition unsubscribe (r : nat) : Call unit :=
  s <- get ;;
  match deref s r with
  | None => ret tt
  | Some d =>
      match Event.removeEventListener is_raiseChangedHandler (descriptor_handlers d) with
      | None => throw NotFoundError_handler
      | Some hs => modify (set_object r (with_descriptor_handlers hs d))
      end
  end.

Definition sorting_clear : Call unit :=
  s <- get ;;
  forEach (descriptors (sorting s)) unsubscribe ;;
  modify (set_descriptors []) ;;
  sorting_raiseChanged.

(** [direction] setter and [toggle], on the object [r]. *)
Definition direction_set (r : nat) (value : SortDirection) : Call unit :=
  s <- get ;;
  match deref s r with
  | None => ret tt
  | Some d =>
      modify (set_object r (with_direction value d)) ;;
      descriptor_raiseChanged r
  end.

Definition opposite (direction : SortDirection) : SortDirection :=
  match direction with
  | Ascending => Descending
  | Descending => Ascending
  end.

Definition toggle (r : nat) : Call unit :=
  s <- get ;;
  match deref s r with
  | None => ret tt
  | Some d => direction_set r (opposite (_direction d))
  end.

(** [CollectionView.sortExpression] and [sortDirection]. *)
Definition sortExpression (s : CollectionView) : option Selector :=
  match descriptors (sorting s) with
  | [r] =>
      match deref s r with
      | Some d => selector d
      | None => None
      end
  | _ => None
  end.


(** [sort(expression, direction = SortDirection.Ascending)]. *)
Definition sort (expression : SortExpression) (direction : option SortDirection)
  : Call unit :=
  modify (set_suppressSorting true) ;;
  sorting_clear ;;
  sorting_add (GivenExpression expression)
              (Some (match direction with Some d => d | None => Ascending end)) None ;;
  modify (set_suppressSorting false) ;;
  applySorting.

Definition toggleSortOrder : Call unit :=
  modify (set_suppressSorting true) ;;
  s <- get ;;
  forEach (descriptors (sorting s)) toggle ;;
  modify (set_suppressSorting false) ;;
  applySorting.

Definition toggleSortOrderBy (expression : SortExpression) : Call unit :=
  s <- get ;;
  match sorting_find expression s with
  | None => throw NotFoundError_sort
  | Some r => toggle r
  end.

(** *** Listener registration on the public [changed] events *)

Definition changed_addEventListener (h : nat) : Call unit :=
  modify (fun s => set_handlers (Event.addEventListener h (_handlers s)) s).

Definition changed_removeEventListener (h : nat) : Call unit :=
  s <- get ;;
  match Event.removeEventListener (Nat.eqb h) (_handlers s) with
  | None => throw NotFoundError_handler
  | Some hs => modify (set_handlers hs)
  end.

Definition filters_changed_addEventListener (h : nat) : Call unit :=
  modify (fun s => set_filters
                     {| filter_items := filter_items (filters s);
                        filters_handlers :=
                          Event.addEventListener (collectionListener h)
                                                 (filters_handlers (filters s)) |} s).

Definition sorting_changed_addEventListener (h : nat) : Call unit :=
  modify (fun s => set_sorting
                     {| descriptors := descriptors (sorting s);
                        sorting_handlers :=
                          Event.addEventListener (collectionListener h)
                                                 (sorting_handlers (sorting s)) |} s).

(** *** The public mutating surface, as a transition system *)

Inductive Operation : Type :=
| OpSetData (data : list T)
| OpApplyFilters
| OpApplySorting
| OpApplyPaging
| OpFilterSet (predicate : option Predicate)
| OpFiltersAdd (arg : FilterArgument)
| OpFiltersRemove (p : FilterTarget)
| OpFiltersClear
| OpPredicateSet (r : Ref CollectionViewFilter) (value : Predicate)
| OpSort (expression : SortExpression) (direction : option SortDirection)
| OpToggleSortOrder
| OpToggleSortOrderBy (expression : SortExpression)
| OpSortingAdd (arg : SortArgument) (direction : option SortDirection)
               (property_comparer : option (Fun (Comparable -> Comparable -> Z)))
| OpSortingRemove (p : SortTarget)
| OpSortingClear
| OpNewSortingDescriptor (p1 : SortExpression) (direction : option SortDirection)
                         (property_comparer : option (Fun (Comparable -> Comparable -> Z)))
| OpDirectionSet (r : nat) (value : SortDirection)
| OpToggle (r : nat)
| OpPageSizeSet (value : Z)
| OpPageIndexSet (value : Z)
| OpPage (pageIndex : Z) (pageSize : option Z)
| OpGoToPage (pageIndex : Z)
| OpGoToPreviousPage
| OpGoToNextPage
| OpAddEventListener (h : nat)
| OpRemoveEventListener (h : nat)
| OpFiltersAddEventListener (h : nat)
| OpSortingAddEventListener (h : nat).

Definition perform (op : Operation) : Call unit :=
  match op with
  | OpSetData data => setData data
  | OpApplyFilters => applyFilters
  | OpApplySorting => applySorting
  | OpApplyPaging => applyPaging
  | OpFilterSet predicate => filter_set predicate
  | OpFiltersAdd arg => filters_add arg
  | OpFiltersRemove p => filters_remove p
  | OpFiltersClear => filters_clear
  | OpPredicateSet r value => predicate_set r value
  | OpSort expression direction => sort expression direction
  | OpToggleSortOrder => toggleSortOrder
  | OpToggleSortOrderBy expression => toggleSortOrderBy expression
  | OpSortingAdd arg direction property_comparer =>
      sorting_add arg direction property_comparer
  | OpSortingRemove p => sorting_remove p
  | OpSortingClear => sorting_clear
  | OpNewSortingDescriptor p1 direction property_comparer =>
      allocate (new_CollectionViewSortingDescriptor p1 direction property_comparer) ;;
      ret tt
  | OpDirectionSet r value => direction_set r value
  | OpToggle r => toggle r
  | OpPageSizeSet value => pageSize_set value
  | OpPageIndexSet value => pageIndex_set value
  | OpPage pageIndex pageSize => page pageIndex pageSize
  | OpGoToPage pageIndex => goToPage pageIndex
  | OpGoToPreviousPage => goToPreviousPage
  | OpGoToNextPage => goToNextPage
  | OpAddEventListener h => changed_addEventListener h
  | OpRemoveEventListener h => changed_removeEventListener h
  | OpFiltersAddEventListener h => filters_changed_addEventListener h
  | OpSortingAddEventListener h => sorting_changed_addEventListener h
  end.

(** The state in which a call leaves the view, whether it returned or
    threw. *)
Definition after (op : Operation) (s : CollectionView) : CollectionView :=
  state_after (perform op s).

Fixpoint run (ops : list Operation) (s : CollectionView) : CollectionView :=
  match ops with
  | [] => s
  | op :: rest => run rest (after op s)
  end.

(** States that calls lead to, from a given state. *)
Inductive reachable_from (s0 : CollectionView) : CollectionView -> Prop :=
| reach_here : reachable_from s0 s0
| reach_call : forall s op, reachable_from s0 s -> reachable_from s0 (after op s).

(** States of a view that a caller can hold: the constructor returned
    (which, from an array, it never does) and calls followed. *)
Definition reachable (s : CollectionView) : Prop :=
  exists source s0,
    new_CollectionView source = Returned tt s0 /\ reachable_from s0 s.

Definition stages (s : CollectionView) : option (list T) * option (list T) * option (list T) :=
  (_filteredView s, _sortedView s, _pagedView s).

End Model.

Arguments FromObservable {T}.
Arguments OpApplyFilters {T}.
Arguments OpApplySorting {T}.
Arguments OpApplyPaging {T}.
Arguments OpFiltersClear {T}.
Arguments OpToggleSortOrder {T}.
Arguments OpSortingClear {T}.
Arguments OpDirectionSet {T} r value.
Arguments OpToggle {T} r.
Arguments ByOther {T}.
Arguments GivenDescriptor {T} r.
Arguments OpPageSizeSet {T} value.
Arguments OpPageIndexSet {T} value.
Arguments OpPage {T} pageIndex pageSize.
Arguments OpGoToPage {T} pageIndex.
Arguments OpGoToPreviousPage {T}.
Arguments OpGoToNextPage {T}.
Arguments OpAddEventListener {T} h.
Arguments OpRemoveEventListener {T} h.
Arguments OpFiltersAddEventListener {T} h.
Arguments OpSortingAddEventListener {T} h.

(** ** What the stage recomputations compute *)

Section StageFunctions.
Variable T : Type.

(** The loop of [applyFilters]: each filter narrows the result of the
    one before. *)
Definition narrow (fs : list (CollectionViewFilter T)) (l : list T) : list T :=
  fold_left (fun acc f => filter (_predicate f) acc) fs l.

(** The slice that [applyPaging] takes. *)
Definition paged_of (s : CollectionView T) (sorted : list T) : list T :=
  JsArray.slice sorted (_pageIndex s * _pageSize s) ((_pageIndex s + 1) * _pageSize s).

(** The view after [applyPaging] has stored a page and notified. *)
Definition notified (s : CollectionView T) (page : list T) : CollectionView T :=
  set_trace (match _handlers s with
             | [] => trace s
             | _ :: _ => trace s ++ [ViewChanged page]
             end)
            (set_pagedView (Some page) s).

(** The fields that paging reads and writes. *)
Definition paging_part (s : CollectionView T)
  : bool * Z * Z * option (list T) * option (list T) :=
  (suppressPaging s, _pageSize s, _pageIndex s, _sortedView s, _pagedView s).

(** A property of the view that every call keeps, returning or
    throwing. *)
Definition preserves (P : CollectionView T -> Prop) {A : Type} (m : Call T A) : Prop :=
  forall s, P s -> P (state_after (m s)).


(** The sorted and paged stages hold nothing, and paging is coherent. *)
Definition unassigned (s : CollectionView T) : Prop :=
  suppressPaging s = false /\
  1 <= _pageSize s /\
  0 <= _pageIndex s /\
  _sortedView s = None /\
  _pagedView s = None.

End StageFunctions.

(** ** Record types and views of the scenarios *)

(** [String(n)] for an integer below [10^21] in magnitude, where it is
    the plain decimal numeral; the scenarios use it on small numbers
    only. *)
Definition number_toString (n : Z) : string :=
  NilZero.string_of_int (Z.to_int n).

(** The array [[1, 2, ..., n]]. *)
Definition one_to (n : nat) : list Z := map Z.of_nat (seq 1 n).

(** A plain object with a country and a score; its string form is the
    one every plain object has. *)
Record Player : Type := { country : string; points : Z }.

Definition object_toString (_ : Player) : string := "[object Object]".

Definition by_country : Fun (Player -> Player -> Z) :=
  {| fun_ident := 1;
     call := fun a b => JsArray.string_order (country a) (country b) |}.

Definition by_points_descending : Fun (Player -> Player -> Z) :=
  {| fun_ident := 2;
     call := fun a b => points b - points a |}.

(** The view that [new CollectionView(observable)] returns, before the
    observable has delivered anything. *)
Definition subscribed_view (T : Type) (toStr : T -> string) : CollectionView T :=
  state_after (new_CollectionView toStr FromObservable).

(** The same view with one listener on its [changed] event. *)
Definition listened_view (T : Type) (toStr : T -> string) : CollectionView T :=
  state_after (changed_addEventListener 0 (subscribed_view toStr)).

(** A view whose sorted stage holds the numbers one to twenty-five, as
    [applyPaging] leaves it: the first page of ten is the paged stage. *)
Definition paged_view : CollectionView Z :=
  state_after (applyPaging (set_sortedView (Some (one_to 25)) (listened_view number_toString))).

(** The key selector [u => u.points]. *)
Definition points_of : Fun (Player -> Comparable) :=
  {| fun_ident := 3; call := fun p => CNumber (points p) |}.

Definition squad : list Player :=
  [ {| country := "Norway"; points := 5 |};
    {| country := "Chile"; points := 3 |} ].

(** A view of players whose sorted stage holds [squad]. *)
Definition squad_view : CollectionView Player :=
  set_sortedView (Some squad) (subscribed_view object_toString).

(** [sorting.add("country")] and
    [sorting.add(u => u.points, SortDirection.Descending)]. *)
Definition country_added : Operation Player :=
  OpSortingAdd (GivenExpression (ByProperty Player "country")) None None.

Definition points_added : Operation Player :=
  OpSortingAdd (GivenExpression (BySelector points_of)) (Some Descending) None.

(** A view of numbers with one filter, named ["1"], so that the name
    synthesised for the next anonymous predicate is taken. *)
Definition numbered_view : CollectionView Z :=
  state_after (filters_add number_toString (GivenName "1" (fun n => 0 <? n))
                           (subscribed_view number_toString)).

(** The two keys as registered descriptor objects, and a view of
    [squad] whose array refers to them. *)
Definition country_descriptor : CollectionViewSortingDescriptor Player :=
  with_descriptor_handlers [raiseChangedHandler]
    (new_CollectionViewSortingDescriptor (ByComparer by_country) None None).

Definition points_descriptor : CollectionViewSortingDescriptor Player :=
  with_descriptor_handlers [raiseChangedHandler]
    (new_CollectionViewSortingDescriptor (ByComparer by_points_descending) None None).

Definition ranked_view : CollectionView Player :=
  set_descriptors [0%nat; 1%nat]
    (set_heap [country_descriptor; points_descriptor]
       (set_filteredView (Some squad) (set_data squad squad_view))).

(** The view returned for an observable source after the source has
    delivered [data]; after a filter has then been added; after a sort
    descriptor has then been added. *)
Definition loaded_view (T : Type) (toStr : T -> string) (data : list T) : CollectionView T :=
  state_after (setData toStr data (subscribed_view toStr)).

Definition narrowed_view (T : Type) (toStr : T -> string) (data : list T)
           (keep : T -> bool) : CollectionView T :=
  state_after (filters_add toStr (GivenPredicate keep) (loaded_view toStr data)).

Definition ordered_view (T : Type) (toStr : T -> string) (data : list T)
           (keep : T -> bool) (order : Fun (T -> T -> Z)) : CollectionView T :=
  state_after (sorting_add toStr (GivenExpression (ByComparer order)) None None
                           (narrowed_view toStr data keep)).

(** The view returned for an observable source after the source has
    delivered [squad] and the two keys have been registered. *)
Definition keyed_view : CollectionView Player :=
  run object_toString [country_added; points_added] (loaded_view object_toString squad).

(** The view after the caller has made the country descriptor itself and
    registered it: [const d = new CollectionViewSortingDescriptor("country");
    sorting.add(d)]; and after the points key and then the same object
    [d] once more have been registered: [sorting.add(u => u.points,
    SortDirection.Descending); sorting.add(d)]. *)
Definition registered_view : CollectionView Player :=
  run object_toString
      [OpNewSortingDescriptor (ByProperty Player "country") None None;
       OpSortingAdd (GivenDescriptor 0%nat) None None]
      (loaded_view object_toString squad).

Definition doubled_view : CollectionView Player :=
  run object_toString
      [points_added; OpSortingAdd (GivenDescriptor 0%nat) None None]
      registered_view.

(** The view returned for an observable source after the source has
    delivered the numbers one to twenty-five and the second page has
    been asked for. *)
Definition turned_view : CollectionView Z :=
  run number_toString [OpSetData (one_to 25); OpPageIndexSet 1]
      (subscribed_view number_toString).

(** The view with a listener and a sorted stage holding [sorted]. *)
Definition sorted_view (T : Type) (toStr : T -> string) (sorted : list T) : CollectionView T :=
  set_sortedView (Some sorted) (listened_view toStr).

(** ** What the recomputations leave alone, and what they compute *)

Section Settings.
Variable T : Type.

(** Everything in the view but the three stages and the trace; the
    sorting collection goes with the descriptor objects. *)
Definition settings (s : CollectionView T) :=
  (_data s, suppressFiltering s, filters s, suppressSorting s, (sorting s, heap s),
   suppressPaging s, _pageSize s, _pageIndex s, _handlers s).

(** A record passes every filter. *)
Definition passes_all (fs : list (CollectionViewFilter T)) (x : T) : bool :=
  forallb (fun f => _predicate f x) fs.

(** The paged stage after assigning a page index, empty if there is
    none. *)
Definition page_shown (s : CollectionView T) (index : nat) : list T :=
  match _pagedView (state_after (pageIndex_set (Z.of_nat index) s)) with
  | Some paged => paged
  | None => []
  end.

End Settings.

(** ** Further views of the scenarios *)

Definition is_even : CollectionViewFilter Z :=
  {| name := "even"; _predicate := fun n => Z.even n;
     filter_handlers := [raiseChangedHandler] |}.

Definition is_small : CollectionViewFilter Z :=
  {| name := "small"; _predicate := fun n => n <? 5;
     filter_handlers := [raiseChangedHandler] |}.

(** The numbers one to six under the two filters, in either order of
    registration. *)
Definition even_small_view : CollectionView Z :=
  set_filter_items [is_even; is_small]
    (set_data (one_to 6) (subscribed_view number_toString)).

Definition small_even_view : CollectionView Z :=
  set_filter_items [is_small; is_even]
    (set_data (one_to 6) (subscribed_view number_toString)).

(** ** The descriptor collections as the calls leave them *)

Section Members.
Variable T : Type.

(** Under [Q] the call returns, and [Q] still holds. *)
Definition silent (Q : CollectionView T -> Prop) (m : Call T unit) : Prop :=
  forall s, Q s -> exists s', m s = Returned tt s' /\ Q s'.

(** The call leaves the settings as they were, returning or throwing. *)
Definition keeps_settings {A : Type} (m : Call T A) : Prop :=
  forall s, settings (state_after (m s)) = settings s.

(** A view with these settings and these stages. *)
Definition fixed (c : _) (g : _) (s : CollectionView T) : Prop :=
  settings s = c /\ stages s = g.

(** The filter that [add] pushes: the one given, with the collection's
    forwarding handler added to its listeners. *)
Definition forwarding (f : CollectionViewFilter T) : CollectionViewFilter T :=
  with_filter_handlers
    (Event.addEventListener raiseChangedHandler (filter_handlers f)) f.

Definition forwarding_descriptor (d : CollectionViewSortingDescriptor T)
  : CollectionViewSortingDescriptor T :=
  with_descriptor_handlers
    (Event.addEventListener raiseChangedHandler (descriptor_handlers d)) d.


(** The descriptor that [add] creates for an expression; the direction
    and the value comparer are passed on for a string and for a function
    of one parameter only. *)
Definition built (expression : SortExpression T) (direction : option SortDirection)
           (property_comparer : option (Fun (Comparable -> Comparable -> Z)))
  : CollectionViewSortingDescriptor T :=
  match expression with
  | ByComparer c => new_CollectionViewSortingDescriptor (ByComparer c) None None
  | _ => new_CollectionViewSortingDescriptor expression direction property_comparer
  end.

(** The descriptor that [sort] leaves as the only one. *)
Definition sole_descriptor (expression : SortExpression T) (direction : option SortDirection)
  : CollectionViewSortingDescriptor T :=
  forwarding_descriptor
    (built expression (Some (match direction with Some d => d | None => Ascending end)) None).

(** What [add] can build a descriptor from. *)
Definition buildable (expression : SortExpression T) : bool :=
  match expression with
  | ByOther => false
  | _ => true
  end.

(** A descriptor with its direction turned round. *)
Definition flipped (d : CollectionViewSortingDescriptor T)
  : CollectionViewSortingDescriptor T :=
  with_direction (opposite (_direction d)) d.

(** How often the collection's forwarding handler is among the
    listeners of a descriptor, and how many places of the array refer to
    an object. *)
Definition forwardings (d : CollectionViewSortingDescriptor T) : nat :=
  length (filter is_raiseChangedHandler (descriptor_handlers d)).

Definition places (r : nat) (s : CollectionView T) : nat :=
  count_occ Nat.eq_dec (descriptors (sorting s)) r.

(** Every reference in the sorting collection's array leads to an
    object, and the object has the forwarding handler at least once for
    each place that refers to it. The collections are in order when this
    holds, no two filters share a name, and every filter in the
    collection has the collection's forwarding handler among its
    listeners. *)
Definition registered_in_order (s : CollectionView T) : Prop :=
  forall r, In r (descriptors (sorting s)) ->
            exists d, deref s r = Some d /\ (places r s <= forwardings d)%nat.

Definition well_formed (s : CollectionView T) : Prop :=
  NoDup (map (@name T) (filter_items (filters s))) /\
  Forall (fun f => In raiseChangedHandler (filter_handlers f)) (filter_items (filters s)) /\
  registered_in_order s.

(** The filtering flag stands at [a]. *)
Definition filtering_is (a : bool) (s : CollectionView T) : Prop :=
  suppressFiltering s = a.



(** The descriptor objects after each has been turned round once for
    every place of [refs] that refers to it. *)
Definition flipped_at (refs : list nat) (h : list (CollectionViewSortingDescriptor T))
  : list (CollectionViewSortingDescriptor T) :=
  fold_left (fun acc r =>
               match nth_error acc r with
               | Some d => replace_nth r (flipped d) acc
               | None => acc
               end) refs h.

(** A view with the settings of [s0] whose filtered stage holds the
    records of the data of [s0] that pass all the filters of [s0]. *)
Definition refiltered (s0 s : CollectionView T) : Prop :=
  settings s = settings s0 /\
  _filteredView s
  = Some (filter (passes_all (filter_items (filters s0))) (_data s0)).

End Members.

(** * Properties *)

(** ** Stable sorting *)

Section SortTheory.
Variable A : Type.
Implicit Types (c : A -> A -> Z) (l : list A).

Lemma consistent_lt_gt c : consistent c -> forall a b, c a b < 0 -> c b a > 0.
Proof.
  intros H a b Hab.
  destruct (Z.compare_spec (c b a) 0) as [E|E|E]; try lia.
  - apply (cf_sym H) in E. lia.
  - pose proof (cf_trans_lt H _ _ _ Hab E) as F. rewrite (cf_refl H) in F. lia.
Qed.

Lemma consistent_gt_lt c : consistent c -> forall a b, c a b > 0 -> c b a < 0.
Proof.
  intros H a b Hab.
  destruct (Z.compare_spec (c b a) 0) as [E|E|E]; try lia.
  - apply (cf_sym H) in E. lia.
  - assert (F : c a a > 0) by (apply (cf_trans_gt H) with b; lia).
    rewrite (cf_refl H) in F. lia.
Qed.

Lemma precedes_total c : consistent c -> forall a b, ~ precedes c a b -> precedes c b a.
Proof.
  unfold precedes. intros H a b Hab.
  assert (c b a < 0) by (apply (consistent_gt_lt H); lia). lia.
Qed.

Lemma precedes_trans c : consistent c ->
  forall a b d, precedes c a b -> precedes c b d -> precedes c a d.
Proof.
  unfold precedes. intros H a b d Hab Hbd.
  destruct (Z.compare_spec (c a d) 0) as [E|E|E]; try lia.
  exfalso.
  assert (Hda : c d a < 0) by (apply (consistent_gt_lt H); lia).
  destruct (Z.eq_dec (c a b) 0) as [Eab|Nab], (Z.eq_dec (c b d) 0) as [Ebd|Nbd].
  - pose proof (cf_trans_eq H _ _ _ Eab Ebd). lia.
  - assert (c b d < 0) by lia.
    assert (c d b > 0) by (apply (consistent_lt_gt H); assumption).
    assert (c a b > 0) by (apply (cf_trans_gt H) with d; lia). lia.
  - assert (Hab' : c a b < 0) by lia.
    pose proof (cf_trans_lt H _ _ _ Hda Hab') as F.
    apply (cf_sym H) in Ebd. lia.
  - assert (c a d < 0) by (apply (cf_trans_lt H) with b; lia). lia.
Qed.

(** Insertion keeps an ordered list ordered. *)
Lemma insert_In c x y l : In y (JsArray.insert c x l) -> y = x \/ In y l.
Proof.
  induction l as [|z t IH]; simpl.
  - intros [E|[]]; auto.
  - destruct (c x z <=? 0); simpl.
    + intros [E|[E|E]]; auto.
    + intros [E|E]; auto. destruct (IH E); auto.
Qed.

Lemma insert_sorted c x l : consistent c ->
  StronglySorted (precedes c) l -> StronglySorted (precedes c) (JsArray.insert c x l).
Proof.
  intros H. induction 1 as [|y t St IH Hy]; simpl.
  - constructor; constructor.
  - destruct (c x y <=? 0) eqn:E.
    + apply Z.leb_le in E. constructor.
      * constructor; assumption.
      * constructor; [exact E|].
        eapply Forall_impl; [|exact Hy].
        intros z Hz. apply (precedes_trans H) with y; assumption.
    + apply Z.leb_gt in E. constructor; [exact IH|].
      apply Forall_forall. intros z Hz.
      destruct (insert_In _ _ _ _ Hz) as [->|Hin].
      * apply (precedes_total H). unfold precedes. lia.
      * rewrite Forall_forall in Hy. auto.
Qed.

Lemma sort_sorted c l : consistent c -> StronglySorted (precedes c) (JsArray.sort c l).
Proof.
  intros H. induction l; simpl; [constructor | apply insert_sorted; assumption].
Qed.

Lemma insert_filter c p x l : clique c p ->
  filter p (JsArray.insert c x l) = filter p (x :: l).
Proof.
  intros Hp. induction l as [|y t IH]; simpl; [reflexivity|].
  destruct (c x y <=? 0) eqn:E; simpl; [reflexivity|].
  apply Z.leb_gt in E. rewrite IH. simpl.
  destruct (p x) eqn:Px, (p y) eqn:Py; try reflexivity.
  specialize (Hp _ _ Px Py). lia.
Qed.

Lemma sort_filter c p l : clique c p -> filter p (JsArray.sort c l) = filter p l.
Proof.
  intros Hp. induction l as [|x t IH]; simpl; [reflexivity|].
  rewrite insert_filter by assumption. simpl. rewrite IH. reflexivity.
Qed.

Lemma sort_all_filter cs p l :
  Forall (fun c => clique c p) cs -> filter p (sort_all cs l) = filter p l.
Proof.
  intros H. revert l. induction H as [|c cs Hc _ IH]; intros l; simpl; [reflexivity|].
  rewrite IH. apply sort_filter. assumption.
Qed.

Lemma sorted_filter (R : A -> A -> Prop) p l :
  StronglySorted R l -> StronglySorted R (filter p l).
Proof.
  induction 1 as [|x t St IH Hx]; simpl; [constructor|].
  destruct (p x); [|assumption].
  constructor; [assumption|].
  apply Forall_forall. intros y Hy. apply filter_In in Hy.
  rewrite Forall_forall in Hx. apply Hx. tauto.
Qed.

Lemma consistent_ordering c : consistent c -> ordering c.
Proof.
  intros H. constructor.
  - apply (cf_refl H).
  - apply (cf_sym H).
  - apply (consistent_lt_gt H).
Qed.

Lemma lexicographic_ordering cs :
  Forall (@consistent A) cs -> ordering (lexicographic cs).
Proof.
  induction 1 as [|c cs Hc _ IH].
  - constructor; simpl; intros; lia.
  - pose proof (consistent_ordering Hc) as Oc.
    constructor; simpl.
    + intros a. rewrite (ord_refl IH). simpl. apply (ord_refl Oc).
    + intros a b. destruct (lexicographic cs a b =? 0) eqn:E.
      * apply Z.eqb_eq in E. intros Hab.
        rewrite (ord_sym IH _ _ E). simpl. apply (ord_sym Oc). assumption.
      * apply Z.eqb_neq in E. intros; contradiction.
    + intros a b. destruct (lexicographic cs a b =? 0) eqn:E.
      * apply Z.eqb_eq in E. intros Hab.
        rewrite (ord_sym IH _ _ E). simpl. apply (ord_flip Oc). assumption.
      * apply Z.eqb_neq in E. intros Hab.
        pose proof (ord_flip IH _ _ Hab) as F.
        destruct (lexicographic cs b a =? 0) eqn:E'; [apply Z.eqb_eq in E'; lia|exact F].
Qed.

Lemma lexicographic_tied cs x y :
  lexicographic cs x y = 0 -> Forall (fun c => c x y = 0) cs.
Proof.
  induction cs as [|c cs IH]; simpl; [constructor|].
  destruct (lexicographic cs x y =? 0) eqn:E.
  - apply Z.eqb_eq in E. intros; constructor; auto.
  - apply Z.eqb_neq in E. intros; contradiction.
Qed.

Lemma tied_clique cs x :
  Forall (@consistent A) cs ->
  Forall (fun c => clique c (tied (lexicographic cs) x)) cs.
Proof.
  intros H. apply Forall_forall. intros c Hc y z Hy Hz.
  unfold tied in *. apply Z.eqb_eq in Hy, Hz.
  apply lexicographic_tied in Hy, Hz.
  rewrite Forall_forall in H, Hy, Hz.
  specialize (H _ Hc). specialize (Hy _ Hc). specialize (Hz _ Hc).
  apply (cf_sym H) in Hy.
  rewrite (cf_trans_eq H _ _ _ Hy Hz). lia.
Qed.

Lemma sorted_refine (e c : A -> A -> Z) l :
  (forall a, e a a = 0) ->
  StronglySorted (precedes e) l ->
  (forall x, StronglySorted (precedes c) (filter (tied e x) l)) ->
  StronglySorted (fun x y => e x y < 0 \/ (e x y = 0 /\ c x y <= 0)) l.
Proof.
  intros Hrefl. induction 1 as [|a t St IH Ha]; intros Hc; [constructor|].
  constructor.
  - apply IH. intros x. specialize (Hc x). simpl in Hc.
    destruct (tied e x a); [inversion Hc|]; assumption.
  - apply Forall_forall. intros y Hy.
    rewrite Forall_forall in Ha. specialize (Ha _ Hy). unfold precedes in Ha.
    destruct (Z.eq_dec (e a y) 0) as [E|N]; [right|left; lia].
    split; [assumption|].
    specialize (Hc a). simpl in Hc. unfold tied at 1 in Hc.
    rewrite Hrefl in Hc. simpl in Hc. inversion Hc as [|? ? _ F]; subst.
    rewrite Forall_forall in F. apply F. apply filter_In. split; [assumption|].
    unfold tied. apply Z.eqb_eq. assumption.
Qed.

Lemma precedes_lexicographic c cs x y :
  precedes (lexicographic (c :: cs)) x y <->
  (lexicographic cs x y < 0 \/ (lexicographic cs x y = 0 /\ c x y <= 0)).
Proof.
  unfold precedes. simpl.
  destruct (lexicographic cs x y =? 0) eqn:E.
  - apply Z.eqb_eq in E. lia.
  - apply Z.eqb_neq in E. lia.
Qed.

Lemma sorted_always (R : A -> A -> Prop) l : (forall x y, R x y) -> StronglySorted R l.
Proof.
  intros H. induction l; constructor; [assumption|].
  apply Forall_forall. intros; apply H.
Qed.

Lemma sorted_weaken (R R' : A -> A -> Prop) l :
  (forall x y, R x y -> R' x y) -> StronglySorted R l -> StronglySorted R' l.
Proof.
  intros H. induction 1 as [|a t St IH Ha]; constructor; [assumption|].
  eapply Forall_impl; [|exact Ha]. intros; apply H; assumption.
Qed.

Lemma sort_all_sorted cs : Forall (@consistent A) cs ->
  forall l, StronglySorted (precedes (lexicographic cs)) (sort_all cs l).
Proof.
  induction 1 as [|c cs Hc Hcs IH]; intros l.
  - apply sorted_always. intros; unfold precedes; simpl; lia.
  - simpl.
    eapply sorted_weaken.
    2:{ apply (@sorted_refine (lexicographic cs) c).
        - apply (ord_refl (lexicographic_ordering Hcs)).
        - apply IH.
        - intros x. rewrite sort_all_filter by (apply tied_clique; assumption).
          apply sorted_filter. apply sort_sorted. assumption. }
    intros x y Hxy. apply precedes_lexicographic. exact Hxy.
Qed.

(** Two ordered lists whose classes of tied elements agree are equal. *)
Lemma sorted_unique (e : A -> A -> Z) : ordering e ->
  forall l1 l2,
    StronglySorted (precedes e) l1 -> StronglySorted (precedes e) l2 ->
    (forall x, filter (tied e x) l1 = filter (tied e x) l2) ->
    l1 = l2.
Proof.
  intros O. induction l1 as [|a r1 IH]; intros l2 S1 S2 Hf.
  - destruct l2 as [|b r2]; [reflexivity|].
    specialize (Hf b). simpl in Hf. unfold tied at 1 in Hf.
    rewrite (ord_refl O) in Hf. discriminate.
  - destruct l2 as [|b r2].
    + specialize (Hf a). simpl in Hf. unfold tied at 1 in Hf.
      rewrite (ord_refl O) in Hf. discriminate.
    + inversion S1 as [|? ? S1' F1]; subst. inversion S2 as [|? ? S2' F2]; subst.
      assert (Hba : e b a <= 0).
      { assert (In a (filter (tied e a) (b :: r2))) as Hin.
        { rewrite <- Hf. simpl. unfold tied at 1. rewrite (ord_refl O). left; reflexivity. }
        apply filter_In in Hin. destruct Hin as [[->|Hin] _].
        - rewrite (ord_refl O). lia.
        - rewrite Forall_forall in F2. apply F2. assumption. }
      assert (Hab : e a b <= 0).
      { assert (In b (filter (tied e b) (a :: r1))) as Hin.
        { rewrite Hf. simpl. unfold tied at 1. rewrite (ord_refl O). left; reflexivity. }
        apply filter_In in Hin. destruct Hin as [[->|Hin] _].
        - rewrite (ord_refl O). lia.
        - rewrite Forall_forall in F1. apply F1. assumption. }
      assert (Eab : e a b = 0).
      { destruct (Z.eq_dec (e a b) 0) as [E|N]; [assumption|].
        assert (e a b < 0) as L by lia. apply (ord_flip O) in L. lia. }
      assert (a = b) as ->.
      { pose proof (Hf a) as Ha. simpl in Ha. unfold tied in Ha.
        rewrite (ord_refl O), Eab in Ha. simpl in Ha. congruence. }
      f_equal. apply IH; try assumption.
      intros x. specialize (Hf x). simpl in Hf.
      destruct (tied e x b); congruence.
Qed.

Lemma insert_permutation c x l : Permutation (x :: l) (JsArray.insert c x l).
Proof.
  induction l as [|y t IH]; simpl; [apply Permutation_refl|].
  destruct (c x y <=? 0); [apply Permutation_refl|].
  eapply Permutation_trans; [apply perm_swap|]. apply perm_skip. exact IH.
Qed.

Lemma sort_permutation c l : Permutation l (JsArray.sort c l).
Proof.
  induction l as [|x t IH]; simpl; [apply Permutation_refl|].
  eapply Permutation_trans; [|apply insert_permutation].
  apply perm_skip. exact IH.
Qed.

Lemma sort_all_permutation cs l : Permutation l (sort_all cs l).
Proof.
  revert l. induction cs as [|c cs IH]; intros l; simpl; [apply Permutation_refl|].
  eapply Permutation_trans; [apply (sort_permutation c)|]. apply IH.
Qed.

Lemma sorted_pairs (R : A -> A -> Prop) l :
  StronglySorted R l ->
  forall (i j : nat) (x y : A),
    (i < j)%nat -> nth_error l i = Some x -> nth_error l j = Some y -> R x y.
Proof.
  induction 1 as [|a t St IH Ha]; intros i j x y Hij Hi Hj.
  - destruct i; discriminate.
  - destruct j as [|j]; [lia|]. simpl in Hj.
    destruct i as [|i]; simpl in Hi.
    + inversion Hi; subst. rewrite Forall_forall in Ha.
      apply Ha. eapply nth_error_In. exact Hj.
    + apply (IH i j); [lia | assumption | assumption].
Qed.

(** Re-sorting by the same comparisons, in the same order, changes
    nothing. *)
Lemma sort_all_idempotent cs l : Forall (@consistent A) cs ->
  sort_all cs (sort_all cs l) = sort_all cs l.
Proof.
  intros H.
  apply (sorted_unique (lexicographic_ordering H)).
  - apply sort_all_sorted. assumption.
  - apply sort_all_sorted. assumption.
  - intros x. apply sort_all_filter. apply tied_clique. assumption.
Qed.
End SortTheory.

(** ** The default array order *)

Lemma ascii_compare_refl (a : ascii) : Ascii.compare a a = Eq.
Proof. unfold Ascii.compare. apply N.compare_refl. Qed.

Lemma string_compare_refl (s : string) : String.compare s s = Eq.
Proof.
  induction s as [|a s IH]; simpl; [reflexivity|].
  rewrite ascii_compare_refl. exact IH.
Qed.

Lemma string_compare_lt_trans (a b c : string) :
  String.compare a b = Lt -> String.compare b c = Lt -> String.compare a c = Lt.
Proof.
  revert b c. induction a as [|x a IH]; intros [|y b] [|z c]; simpl;
    try discriminate; try reflexivity.
  destruct (Ascii.compare x y) eqn:Exy; try discriminate;
    destruct (Ascii.compare y z) eqn:Eyz; try discriminate; intros Hab Hbc.
  - apply Ascii.compare_eq_iff in Exy, Eyz. subst.
    rewrite ascii_compare_refl. eapply IH; eassumption.
  - apply Ascii.compare_eq_iff in Exy. subst. rewrite Eyz. reflexivity.
  - apply Ascii.compare_eq_iff in Eyz. subst. rewrite Exy. reflexivity.
  - unfold Ascii.compare in *.
    rewrite N.compare_lt_iff in *.
    assert (N_of_ascii x < N_of_ascii z)%N as L by (etransitivity; eassumption).
    apply N.compare_lt_iff in L. rewrite L. reflexivity.
Qed.

Lemma string_order_consistent (A : Type) (toStr : A -> string) :
  consistent (fun a b => JsArray.string_order (toStr a) (toStr b)).
Proof.
  assert (Heq : forall s t, JsArray.string_order s t = 0 <-> s = t).
  { intros s t. unfold JsArray.string_order. split.
    - destruct (String.compare s t) eqn:E; try discriminate.
      intros _. apply String.compare_eq_iff. exact E.
    - intros ->. rewrite string_compare_refl. reflexivity. }
  assert (Hlt : forall s t, JsArray.string_order s t < 0 <-> String.compare s t = Lt).
  { intros s t. unfold JsArray.string_order.
    destruct (String.compare s t); split; intros; try discriminate; try reflexivity; lia. }
  assert (Hgt : forall s t, JsArray.string_order s t > 0 <-> String.compare t s = Lt).
  { intros s t. unfold JsArray.string_order. rewrite (String.compare_antisym t s).
    destruct (String.compare s t); simpl; split; intros; try discriminate; try reflexivity; lia. }
  constructor.
  - intros a. apply Heq. reflexivity.
  - intros a b H. apply Heq. symmetry. apply Heq. exact H.
  - intros a b d H1 H2. apply Heq. apply Heq in H1, H2. congruence.
  - intros a b d H1 H2. apply Hlt. apply Hlt in H1, H2.
    eapply string_compare_lt_trans; eassumption.
  - intros a b d H1 H2. apply Hgt. apply Hgt in H1, H2.
    eapply string_compare_lt_trans; eassumption.
Qed.

(** ** Array slices *)

Lemma slice_forward (A : Type) (l : list A) (start finish : Z) :
  0 <= start <= finish ->
  JsArray.slice l start finish
  = firstn (Z.to_nat (finish - start)) (skipn (Z.to_nat start) l).
Proof.
  intros H. unfold JsArray.slice, JsArray.relative_index.
  destruct (start <? 0) eqn:Es; [apply Z.ltb_lt in Es; lia|].
  destruct (finish <? 0) eqn:Ef; [apply Z.ltb_lt in Ef; lia|].
  set (len := Z.of_nat (length l)).
  destruct (Z_le_gt_dec finish len) as [Hf|Hf].
  - rewrite (Z.min_l finish) by lia. rewrite (Z.min_l start) by lia. reflexivity.
  - rewrite (Z.min_r finish) by lia.
    destruct (Z_le_gt_dec start len) as [Hs|Hs].
    + rewrite (Z.min_l start) by lia.
      rewrite !firstn_all2; try reflexivity; rewrite length_skipn; subst len; lia.
    + rewrite (Z.min_r start) by lia.
      rewrite Z.sub_diag. simpl.
      rewrite (skipn_all2 l) by (subst len; lia).
      rewrite firstn_nil. reflexivity.
Qed.

Lemma slice_page (A : Type) (l : list A) (pageIndex pageSize : Z) :
  1 <= pageSize -> 0 <= pageIndex ->
  JsArray.slice l (pageIndex * pageSize) ((pageIndex + 1) * pageSize)
  = firstn (Z.to_nat pageSize) (skipn (Z.to_nat (pageIndex * pageSize)) l).
Proof.
  intros Hs Hi. rewrite slice_forward by nia.
  f_equal. f_equal. nia.
Qed.

Lemma slice_page_length (A : Type) (l : list A) (pageIndex pageSize : Z) :
  1 <= pageSize -> 0 <= pageIndex ->
  Z.of_nat (length (JsArray.slice l (pageIndex * pageSize) ((pageIndex + 1) * pageSize)))
  <= pageSize.
Proof.
  intros Hs Hi. rewrite slice_page by assumption.
  rewrite length_firstn. lia.
Qed.

(** ** The stage recomputations, step by step *)

Section Stages.
Variable T : Type.
Variable toStr : T -> string.
Implicit Types (s : CollectionView T) (d : CollectionViewSortingDescriptor T).

Lemma set_sortedView_same s l : _sortedView s = Some l -> set_sortedView (Some l) s = s.
Proof. destruct s; simpl; intros ->; reflexivity. Qed.

Lemma set_filteredView_same s l : _filteredView s = Some l -> set_filteredView (Some l) s = s.
Proof. destruct s; simpl; intros ->; reflexivity. Qed.

Lemma sort_by_assigned d s l :
  _sortedView s = Some l ->
  sort_by toStr d s
  = Returned tt (set_sortedView (Some (JsArray.sort (comparefn toStr d) l)) s).
Proof. intros H. unfold sort_by, bind, get, modify. rewrite H. reflexivity. Qed.

Lemma sort_by_unassigned d s :
  _sortedView s = None -> sort_by toStr d s = Threw TypeError s.
Proof. intros H. unfold sort_by, bind, get. rewrite H. reflexivity. Qed.

(** The loop of [applySorting] over an assigned sorted stage. *)
Lemma sort_loop_assigned ds s l :
  _sortedView s = Some l ->
  forEach ds (sort_by toStr) s
  = Returned tt (set_sortedView (Some (sort_all (map (comparefn toStr) ds) l)) s).
Proof.
  revert s l. induction ds as [|d ds IH]; intros s l H; simpl.
  - unfold ret. rewrite set_sortedView_same by assumption. reflexivity.
  - unfold bind. rewrite (sort_by_assigned d _ H).
    rewrite (IH _ (JsArray.sort (comparefn toStr d) l)) by reflexivity.
    reflexivity.
Qed.

(** The same loop over an unassigned one: the first descriptor throws. *)
Lemma sort_loop_unassigned ds s :
  _sortedView s = None ->
  forEach ds (sort_by toStr) s
  = match ds with
    | [] => Returned tt s
    | _ :: _ => Threw TypeError s
    end.
Proof.
  intros H. destruct ds as [|d ds]; simpl; [reflexivity|].
  unfold bind. rewrite sort_by_unassigned by assumption. reflexivity.
Qed.

Lemma narrow_loop fs s l :
  _filteredView s = Some l ->
  forEach fs (@narrow_by T) s = Returned tt (set_filteredView (Some (narrow fs l)) s).
Proof.
  revert s l. induction fs as [|f fs IH]; intros s l H; simpl.
  - unfold ret. rewrite set_filteredView_same by assumption. reflexivity.
  - unfold bind. unfold narrow_by at 1. unfold bind, get, modify. rewrite H.
    rewrite (IH _ (filter (_predicate f) l)) by reflexivity.
    reflexivity.
Qed.

Lemma raiseChanged_assigned s page :
  _pagedView s = Some page ->
  raiseChanged s
  = Returned tt (match _handlers s with
                 | [] => s
                 | _ :: _ => emit (ViewChanged page) s
                 end).
Proof.
  intros H. unfold raiseChanged, bind, get, modify, ret.
  destruct (_handlers s); [reflexivity|]. rewrite H. reflexivity.
Qed.

Lemma applyPaging_suppressed s :
  suppressPaging s = true -> applyPaging s = Returned tt s.
Proof. intros H. unfold applyPaging, bind, get. rewrite H. reflexivity. Qed.

Lemma applyPaging_unassigned s :
  suppressPaging s = false -> _sortedView s = None -> applyPaging s = Threw TypeError s.
Proof. intros H1 H2. unfold applyPaging, bind, get. rewrite H1, H2. reflexivity. Qed.

Lemma applyPaging_assigned s sorted :
  suppressPaging s = false -> _sortedView s = Some sorted ->
  applyPaging s = Returned tt (notified s (paged_of s sorted)).
Proof.
  intros H1 H2. unfold applyPaging, bind, get, modify. rewrite H1, H2.
  rewrite (@raiseChanged_assigned _ (paged_of s sorted)) by reflexivity.
  unfold notified. simpl. destruct (_handlers s); reflexivity.
Qed.

Lemma applyPaging_cases s :
  applyPaging s
  = if suppressPaging s then Returned tt s
    else match _sortedView s with
         | None => Threw TypeError s
         | Some sorted => Returned tt (notified s (paged_of s sorted))
         end.
Proof.
  destruct (suppressPaging s) eqn:E1.
  - apply applyPaging_suppressed. assumption.
  - destruct (_sortedView s) eqn:E2.
    + apply applyPaging_assigned; assumption.
    + apply applyPaging_unassigned; assumption.
Qed.

Lemma applySorting_cases s :
  applySorting toStr s
  = if suppressSorting s then Returned tt s
    else match _sortedView s with
         | None =>
             match sorting_getAll s with
             | [] => applyPaging s
             | _ :: _ => Threw TypeError s
             end
         | Some sorted =>
             applyPaging
               (set_sortedView
                  (Some (sort_all (map (comparefn toStr) (sorting_getAll s)) sorted)) s)
         end.
Proof.
  unfold applySorting, bind, get. destruct (suppressSorting s); [reflexivity|].
  destruct (_sortedView s) eqn:E.
  - rewrite (sort_loop_assigned _ _ E). reflexivity.
  - rewrite sort_loop_unassigned by assumption.
    destruct (sorting_getAll s); reflexivity.
Qed.

Lemma applyFilters_cases s :
  applyFilters toStr s
  = if suppressFiltering s then Returned tt s
    else bind (applySorting toStr) (fun _ => @applyPaging T)
              (set_filteredView (Some (narrow (filter_items (filters s)) (_data s))) s).
Proof.
  unfold applyFilters. unfold bind at 1. unfold get.
  destruct (suppressFiltering s); [reflexivity|].
  unfold bind at 1. unfold modify.
  unfold bind at 1.
  rewrite (@narrow_loop (filter_items (filters s)) _ (_data s)) by reflexivity.
  reflexivity.
Qed.

End Stages.

(** ** Construction *)

Lemma new_from_array (T : Type) (toStr : T -> string) (data : list T) :
  new_CollectionView toStr (FromArray data)
  = Threw TypeError (set_filteredView (Some data) (set_data data (subscribed_view toStr))).
Proof. reflexivity. Qed.

(** C2. For every array, [new CollectionView(array)] throws: [setData]
    assigns the filtered stage, [applySorting] has no descriptor to sort
    by and assigns nothing, and [applyPaging] then slices a sorted stage
    that is still [undefined]. More generally [applySorting] never gives
    a value to a sorted stage that has none, and throws on it unless
    sorting is suppressed, or paging is and there is no descriptor. *)
Theorem constructor_from_array_throws :
  forall (T : Type) (toStr : T -> string) (data : list T) (s : CollectionView T),
    (exists s',
        new_CollectionView toStr (FromArray data) = Threw TypeError s' /\
        _data s' = data /\
        _filteredView s' = Some data /\
        descriptors (sorting s') = [] /\
        _sortedView s' = None /\
        _pagedView s' = None) /\
    _sortedView (state_after (applySorting toStr (set_sortedView None s))) = None /\
    thrown (applySorting toStr (set_sortedView None s))
    = if suppressSorting s then None
      else match sorting_getAll s with
           | [] => if suppressPaging s then None else Some TypeError
           | _ :: _ => Some TypeError
           end.
Proof.
  intros T toStr data s. split; [|split].
  - eexists. split; [apply new_from_array|]. repeat split.
  - rewrite applySorting_cases. simpl.
    destruct (suppressSorting s); [reflexivity|].
    change (sorting_getAll (set_sortedView None s)) with (sorting_getAll s).
    destruct (sorting_getAll s); [|reflexivity].
    rewrite applyPaging_cases. simpl. destruct (suppressPaging s); reflexivity.
  - rewrite applySorting_cases. simpl.
    destruct (suppressSorting s); [reflexivity|].
    change (sorting_getAll (set_sortedView None s)) with (sorting_getAll s).
    destruct (sorting_getAll s); [|reflexivity].
    rewrite applyPaging_cases. simpl. destruct (suppressPaging s); reflexivity.
Qed.

(** ** Paging *)

(** C8. A page size below one and a page index below zero are refused
    with the validation error, and the view is left exactly as it was:
    same page size and index, no stage recomputed, nothing notified. *)
Theorem paging_setters_reject_invalid :
  forall (T : Type) (s : CollectionView T) (size index : Z),
    size < 1 -> index < 0 ->
    pageSize_set size s = Threw ValidationError_pageSize s /\
    pageIndex_set index s = Threw ValidationError_pageIndex s.
Proof.
  intros T s size index Hsize Hindex.
  unfold pageSize_set, pageIndex_set.
  apply Z.ltb_lt in Hsize, Hindex. rewrite Hsize, Hindex.
  split; reflexivity.
Qed.

Lemma paging_setters_reject_invalid_witness :
  pageSize_set 0 (subscribed_view number_toString)
  = Threw ValidationError_pageSize (subscribed_view number_toString) /\
  pageIndex_set (-1) (subscribed_view number_toString)
  = Threw ValidationError_pageIndex (subscribed_view number_toString).
Proof.
  apply (@paging_setters_reject_invalid Z (subscribed_view number_toString) 0 (-1)); lia.
Defined.

(** X29. On a view whose sorted stage is assigned, which no sequence of
    calls brings about, with paging not suppressed, a page size of at
    least one and a page index of at least zero, one call of
    [applyPaging] returns and makes the paged stage the part of the
    sorted stage at the indices from [pageIndex * pageSize] up to, not
    including, [(pageIndex + 1) * pageSize]; it has at most [pageSize]
    elements. *)
Theorem applyPaging_takes_the_page :
  forall (T : Type) (s : CollectionView T) (sorted : list T),
    suppressPaging s = false ->
    1 <= _pageSize s ->
    0 <= _pageIndex s ->
    _sortedView s = Some sorted ->
    exists paged,
      thrown (applyPaging s) = None /\
      _pagedView (state_after (applyPaging s)) = Some paged /\
      _sortedView (state_after (applyPaging s)) = Some sorted /\
      paged = firstn (Z.to_nat (_pageSize s))
                     (skipn (Z.to_nat (_pageIndex s * _pageSize s)) sorted) /\
      (forall i : nat,
          nth_error paged i
          = if (Z.of_nat i <? _pageSize s)
            then nth_error sorted (Z.to_nat (_pageIndex s * _pageSize s) + i)
            else None) /\
      Z.of_nat (length paged) <= _pageSize s.
Proof.
  intros T s sorted Hsup Hsize Hindex Hsorted.
  exists (JsArray.slice sorted (_pageIndex s * _pageSize s) ((_pageIndex s + 1) * _pageSize s)).
  assert (Hrun : thrown (applyPaging s) = None /\
                 _pagedView (state_after (applyPaging s))
                 = Some (JsArray.slice sorted (_pageIndex s * _pageSize s)
                                       ((_pageIndex s + 1) * _pageSize s)) /\
                 _sortedView (state_after (applyPaging s)) = Some sorted).
  { rewrite (applyPaging_assigned _ Hsup Hsorted). unfold notified, paged_of.
    destruct (_handlers s); simpl; repeat split; assumption. }
  destruct Hrun as (H1 & H2 & H3).
  repeat split; try assumption.
  - apply slice_page; assumption.
  - intros i. rewrite slice_page by assumption.
    rewrite nth_error_firstn, nth_error_skipn.
    destruct (Nat.ltb_spec i (Z.to_nat (_pageSize s)));
      destruct (Z.ltb_spec (Z.of_nat i) (_pageSize s)); try reflexivity; lia.
  - apply slice_page_length; assumption.
Qed.

Lemma applyPaging_takes_the_page_witness :
  exists paged,
    thrown (applyPaging (set_sortedView (Some (one_to 25)) (subscribed_view number_toString)))
    = None /\
    _pagedView (state_after
                  (applyPaging (set_sortedView (Some (one_to 25))
                                               (subscribed_view number_toString))))
    = Some paged /\
    paged = one_to 10.
Proof.
  destruct (@applyPaging_takes_the_page Z
              (set_sortedView (Some (one_to 25)) (subscribed_view number_toString))
              (one_to 25))
    as (paged & H1 & H2 & _ & H4 & _); try reflexivity; try (simpl; lia).
  exists paged. repeat split; assumption.
Defined.

(** ** Filters *)




(** ** Properties that every call keeps *)

Section Preservation.
Variable T : Type.
Variable toStr : T -> string.

Lemma preserves_ret (P : CollectionView T -> Prop) (A : Type) (a : A) :
  preserves P (ret a).
Proof. intros s H. exact H. Qed.

Lemma preserves_throw (P : CollectionView T -> Prop) (A : Type) (e : Exn) :
  preserves P (@throw _ A e).
Proof. intros s H. exact H. Qed.

Lemma preserves_get (P : CollectionView T -> Prop) : preserves P get.
Proof. intros s H. exact H. Qed.

Lemma preserves_bind (P : CollectionView T -> Prop) (A B : Type)
      (m : Call T A) (k : A -> Call T B) :
  preserves P m -> (forall a, preserves P (k a)) -> preserves P (bind m k).
Proof.
  intros Hm Hk s H. unfold bind. specialize (Hm s H).
  destruct (m s) as [a s'|e s']; simpl in *.
  - apply Hk. exact Hm.
  - exact Hm.
Qed.

Lemma preserves_forEach (P : CollectionView T -> Prop) (A : Type)
      (xs : list A) (body : A -> Call T unit) :
  (forall x, preserves P (body x)) -> preserves P (forEach xs body).
Proof.
  intros H. induction xs as [|x xs IH]; simpl.
  - apply preserves_ret.
  - apply preserves_bind; [apply H | intros _; exact IH].
Qed.

Lemma preserves_modify (P : CollectionView T -> Prop) (f : CollectionView T -> CollectionView T) :
  (forall s, P s -> P (f s)) -> preserves P (modify f).
Proof. intros H s Hs. apply H. exact Hs. Qed.

End Preservation.

(** A property that only looks at the fields of paging, and that the
    four steps touching those fields keep, is kept by every call of the
    public surface. *)
Section EveryCall.
Variable T : Type.
Variable toStr : T -> string.
Variable P : CollectionView T -> Prop.
Hypothesis P_frame : forall s s', paging_part s' = paging_part s -> P s -> P s'.
Hypothesis P_sort : forall d, preserves P (sort_by toStr d).
Hypothesis P_page : preserves P (@applyPaging T).
Hypothesis P_size : forall v, preserves P (@pageSize_set T v).
Hypothesis P_index : forall v, preserves P (@pageIndex_set T v).

Lemma preserves_frame (f : CollectionView T -> CollectionView T) :
  (forall s, paging_part (f s) = paging_part s) -> preserves P (modify f).
Proof.
  intros H. apply preserves_modify. intros s Hs. apply (P_frame (H s)). exact Hs.
Qed.

Create HintDb keeps discriminated.

Ltac keeps :=
  repeat first
    [ assumption
    | solve [auto with keeps]
    | progress unfold run_collection_handler, run_descriptor_handler
    | apply P_sort | apply P_page | apply P_size | apply P_index
    | apply preserves_ret | apply preserves_throw | apply preserves_get
    | apply preserves_bind; [| intros ?]
    | apply preserves_forEach; intros ?
    | apply preserves_frame; intros ?; reflexivity
    | progress cbv beta zeta
    | match goal with
      | |- preserves _ (match ?x with _ => _ end) => destruct x
      end ].

Lemma applySorting_keeps : preserves P (applySorting toStr).
Proof. unfold applySorting. keeps. Qed.
#[local] Hint Resolve applySorting_keeps : keeps.

Lemma applyFilters_keeps : preserves P (applyFilters toStr).
Proof. unfold applyFilters, narrow_by. keeps. Qed.
#[local] Hint Resolve applyFilters_keeps : keeps.

Lemma setData_keeps data : preserves P (setData toStr data).
Proof. unfold setData. keeps. Qed.

Lemma page_keeps pageIndex pageSize : preserves P (@page T pageIndex pageSize).
Proof. unfold page. keeps. Qed.
#[local] Hint Resolve page_keeps : keeps.

Lemma goToPreviousPage_keeps : preserves P (@goToPreviousPage T).
Proof. unfold goToPreviousPage, canNavigateToPreviousPage. keeps. Qed.

Lemma goToNextPage_keeps : preserves P (@goToNextPage T).
Proof. unfold goToNextPage, canNavigateToNextPage. keeps. Qed.

Lemma filters_raiseChanged_keeps : preserves P (filters_raiseChanged toStr).
Proof. unfold filters_raiseChanged, run_collection_handler. keeps. Qed.
#[local] Hint Resolve filters_raiseChanged_keeps : keeps.

Lemma filter_raiseChanged_keeps f : preserves P (filter_raiseChanged toStr f).
Proof. unfold filter_raiseChanged, run_descriptor_handler. keeps. Qed.
#[local] Hint Resolve filter_raiseChanged_keeps : keeps.

Lemma filters_add_keeps arg : preserves P (filters_add toStr arg).
Proof. unfold filters_add. keeps. Qed.
#[local] Hint Resolve filters_add_keeps : keeps.

Lemma filters_remove_keeps p : preserves P (filters_remove toStr p).
Proof. unfold filters_remove. keeps. Qed.

Lemma filters_clear_keeps : preserves P (filters_clear toStr).
Proof. unfold filters_clear. keeps. Qed.
#[local] Hint Resolve filters_clear_keeps : keeps.

Lemma predicate_set_keeps r value : preserves P (predicate_set toStr r value).
Proof. unfold predicate_set. keeps. Qed.

Lemma filter_set_keeps predicate : preserves P (filter_set toStr predicate).
Proof. unfold filter_set. keeps. Qed.

Lemma sorting_raiseChanged_keeps : preserves P (sorting_raiseChanged toStr).
Proof. unfold sorting_raiseChanged, run_collection_handler. keeps. Qed.
#[local] Hint Resolve sorting_raiseChanged_keeps : keeps.

Lemma descriptor_raiseChanged_keeps d : preserves P (descriptor_raiseChanged toStr d).
Proof. unfold descriptor_raiseChanged, run_descriptor_handler. keeps. Qed.
#[local] Hint Resolve descriptor_raiseChanged_keeps : keeps.

Lemma sorting_add_keeps arg direction property_comparer :
  preserves P (sorting_add toStr arg direction property_comparer).
Proof. unfold sorting_add. keeps. Qed.
#[local] Hint Resolve sorting_add_keeps : keeps.

Lemma sorting_remove_keeps p : preserves P (sorting_remove toStr p).
Proof. unfold sorting_remove. keeps. Qed.

Lemma sorting_clear_keeps : preserves P (sorting_clear toStr).
Proof. unfold sorting_clear. keeps. Qed.
#[local] Hint Resolve sorting_clear_keeps : keeps.

Lemma direction_set_keeps r value : preserves P (direction_set toStr r value).
Proof. unfold direction_set. keeps. Qed.
#[local] Hint Resolve direction_set_keeps : keeps.

Lemma toggle_keeps r : preserves P (toggle toStr r).
Proof. unfold toggle. keeps. Qed.
#[local] Hint Resolve toggle_keeps : keeps.

Lemma sort_keeps expression direction : preserves P (sort toStr expression direction).
Proof. unfold sort. keeps. Qed.

Lemma toggleSortOrder_keeps : preserves P (toggleSortOrder toStr).
Proof. unfold toggleSortOrder. keeps. Qed.

Lemma toggleSortOrderBy_keeps expression : preserves P (toggleSortOrderBy toStr expression).
Proof. unfold toggleSortOrderBy. keeps. Qed.

#[local] Hint Resolve setData_keeps goToPreviousPage_keeps goToNextPage_keeps
  filters_remove_keeps predicate_set_keeps filter_set_keeps sorting_remove_keeps
  sort_keeps toggleSortOrder_keeps toggleSortOrderBy_keeps : keeps.

Lemma perform_keeps op : preserves P (perform toStr op).
Proof.
  destruct op; simpl;
    unfold goToPage, changed_addEventListener, changed_removeEventListener,
      filters_changed_addEventListener, sorting_changed_addEventListener;
    keeps.
Qed.

Lemma reachable_from_keeps s0 s : P s0 -> reachable_from toStr s0 s -> P s.
Proof.
  intros H0. induction 1 as [|s op _ IH]; [exact H0|].
  unfold after. apply perform_keeps. exact IH.
Qed.

End EveryCall.

(** ** Coherent paging *)

Section Coherence.
Variable T : Type.
Variable toStr : T -> string.
Implicit Types s : CollectionView T.









Lemma unassigned_frame s s' :
  paging_part s' = paging_part s -> unassigned s -> unassigned s'.
Proof.
  unfold paging_part, unassigned. intros E H.
  inversion E as [[E1 E2 E3 E4 E5]]. rewrite E1, E2, E3, E4, E5. exact H.
Qed.

Lemma unassigned_sort d : preserves (@unassigned T) (sort_by toStr d).
Proof.
  intros s H. rewrite sort_by_unassigned; [exact H | apply H].
Qed.

Lemma unassigned_page : preserves (@unassigned T) (@applyPaging T).
Proof.
  intros s H. rewrite applyPaging_unassigned; [exact H | apply H | apply H].
Qed.

Lemma unassigned_size v : preserves (@unassigned T) (@pageSize_set T v).
Proof.
  intros s H. unfold pageSize_set.
  destruct (Z.ltb_spec v 1) as [L|L]; [exact H|].
  unfold bind, modify. destruct H as (H1 & H2 & H3 & H4 & H5).
  rewrite applyPaging_unassigned by assumption. simpl.
  unfold unassigned. simpl. repeat split; assumption.
Qed.

Lemma unassigned_index v : preserves (@unassigned T) (@pageIndex_set T v).
Proof.
  intros s H. unfold pageIndex_set.
  destruct (Z.ltb_spec v 0) as [L|L]; [exact H|].
  unfold bind, modify. destruct H as (H1 & H2 & H3 & H4 & H5).
  rewrite applyPaging_unassigned by assumption. simpl.
  unfold unassigned. simpl. repeat split; assumption.
Qed.

(** No call gives the sorted or the paged stage a value when they have
    none. *)
Lemma unassigned_reachable s0 s :
  unassigned s0 -> reachable_from toStr s0 s -> unassigned s.
Proof.
  apply reachable_from_keeps.
  - apply unassigned_frame.
  - apply unassigned_sort.
  - apply unassigned_page.
  - apply unassigned_size.
  - apply unassigned_index.
Qed.

Lemma new_CollectionView_returned source s0 :
  new_CollectionView toStr source = Returned tt s0 ->
  source = FromObservable /\ s0 = subscribed_view toStr.
Proof.
  destruct source as [data|]; intros H.
  - rewrite new_from_array in H. discriminate.
  - split; [reflexivity|]. unfold subscribed_view. rewrite H. reflexivity.
Qed.

Lemma subscribed_view_unassigned : unassigned (subscribed_view toStr).
Proof. unfold unassigned. simpl. repeat split; lia. Qed.

(** In a view that a caller can hold, the sorted and the paged stage
    hold nothing. *)
Lemma reachable_unassigned s : reachable toStr s -> unassigned s.
Proof.
  intros (source & s0 & Hnew & Hreach).
  apply new_CollectionView_returned in Hnew. destruct Hnew as [_ ->].
  eapply unassigned_reachable; [apply subscribed_view_unassigned | exact Hreach].
Qed.


End Coherence.

Lemma reachable_run (T : Type) (toStr : T -> string) (ops : list (Operation T))
      (s0 s : CollectionView T) :
  reachable_from toStr s0 s -> reachable_from toStr s0 (run toStr ops s).
Proof.
  revert s. induction ops as [|op ops IH]; intros s H; simpl; [exact H|].
  apply IH. apply reach_call. exact H.
Qed.

(** C5. The paged stage is a slice of nothing. On every view that the
    constructor returns and on every view that calls lead to from there,
    paging is not suppressed, the page size is at least one and the page
    index at least zero, and yet the sorted stage and the paged stage
    are both [undefined]: [applyPaging] throws a [TypeError] on the
    sorted stage before it assigns anything. *)
Theorem paged_stage_is_never_assigned :
  forall (T : Type) (toStr : T -> string) (s : CollectionView T),
    reachable toStr s ->
    suppressPaging s = false /\
    1 <= _pageSize s /\
    0 <= _pageIndex s /\
    _sortedView s = None /\
    _pagedView s = None /\
    applyPaging s = Threw TypeError s.
Proof.
  intros T toStr s R.
  destruct (reachable_unassigned R) as (H1 & H2 & H3 & H4 & H5).
  split; [exact H1|]. split; [exact H2|]. split; [exact H3|].
  split; [exact H4|]. split; [exact H5|].
  apply applyPaging_unassigned; assumption.
Qed.

Lemma paged_stage_is_never_assigned_witness :
  _data turned_view = one_to 25 /\
  _pageSize turned_view = 10 /\
  _pageIndex turned_view = 1 /\
  _sortedView turned_view = None /\
  _pagedView turned_view = None /\
  applyPaging turned_view = Threw TypeError turned_view.
Proof.
  assert (R : reachable number_toString turned_view).
  { exists FromObservable, (subscribed_view number_toString).
    split; [reflexivity|]. apply reachable_run. apply reach_here. }
  destruct (@paged_stage_is_never_assigned Z number_toString turned_view R)
    as (_ & _ & _ & H4 & H5 & H6).
  split; [reflexivity|]. split; [reflexivity|]. split; [reflexivity|].
  split; [exact H4|]. split; [exact H5 | exact H6].
Defined.

(** ** Navigation *)






(** ** Recomputing a stage twice *)

Section Idempotence.
Variable T : Type.
Variable toStr : T -> string.
Implicit Types s : CollectionView T.

Lemma applyPaging_state s :
  state_after (applyPaging s)
  = if suppressPaging s then s
    else match _sortedView s with
         | None => s
         | Some sorted => notified s (paged_of s sorted)
         end.
Proof.
  rewrite applyPaging_cases. destruct (suppressPaging s); [reflexivity|].
  destruct (_sortedView s); reflexivity.
Qed.

(** What [applySorting] leaves behind. *)
Lemma applySorting_state s :
  state_after (applySorting toStr s)
  = if suppressSorting s then s
    else match _sortedView s with
         | None => s
         | Some sorted =>
             state_after
               (applyPaging
                  (set_sortedView
                     (Some (sort_all (map (comparefn toStr) (sorting_getAll s)) sorted))
                     s))
         end.
Proof.
  rewrite applySorting_cases.
  destruct (suppressSorting s); [reflexivity|].
  destruct (_sortedView s) eqn:Es; [reflexivity|].
  destruct (sorting_getAll s); [|reflexivity].
  rewrite applyPaging_cases, Es. destruct (suppressPaging s); reflexivity.
Qed.

(** What [applyFilters] leaves behind: the filtered stage assigned, then
    the sorted and the paged stage as [applySorting] and [applyPaging]
    leave them. *)
Lemma applyFilters_state s :
  state_after (applyFilters toStr s)
  = if suppressFiltering s then s
    else state_after
           (applyPaging
              (state_after
                 (applySorting toStr
                    (set_filteredView
                       (Some (narrow (filter_items (filters s)) (_data s))) s)))).
Proof.
  rewrite applyFilters_cases.
  destruct (suppressFiltering s); [reflexivity|].
  unfold bind. rewrite applySorting_cases. simpl.
  destruct (suppressSorting s) eqn:Ess; [reflexivity|].
  destruct (_sortedView s) as [l|] eqn:Es.
  - rewrite applyPaging_cases. simpl.
    destruct (suppressPaging s) eqn:Ep; reflexivity.
  - change (sorting_getAll
              (set_filteredView (Some (narrow (filter_items (filters s)) (_data s))) s))
      with (sorting_getAll s).
    destruct (sorting_getAll s).
    + rewrite applyPaging_cases. simpl. rewrite Es.
      destruct (suppressPaging s) eqn:Ep; simpl; [reflexivity|].
      rewrite applyPaging_cases. simpl. rewrite Ep, Es. reflexivity.
    + simpl. rewrite applyPaging_cases. simpl. rewrite Es.
      destruct (suppressPaging s); reflexivity.
Qed.

(** Replace each recomputation by the state it leaves, innermost first:
    a recomputation is replaced once its argument is a record of known
    fields. *)
Ltac head_of t :=
  lazymatch t with
  | ?f _ => head_of f
  | _ => t
  end.

Ltac known_record x := let h := head_of x in is_constructor h.

Ltac flatten :=
  unfold notified, set_trace, set_pagedView, set_sortedView, set_filteredView;
  cbn [_data suppressFiltering _filteredView filters suppressSorting
       _sortedView sorting suppressPaging _pagedView _pageSize
       _pageIndex _handlers trace heap filter_items descriptors state_after].

Ltac settle :=
  repeat match goal with
         | |- context [state_after (applyPaging ?x)] =>
             known_record x; rewrite (applyPaging_state x); flatten
         | |- context [state_after (applySorting toStr ?x)] =>
             known_record x; rewrite (applySorting_state x); flatten
         | |- context [state_after (applyFilters toStr ?x)] =>
             known_record x; rewrite (applyFilters_state x); flatten
         end.

Lemma applyPaging_twice s :
  stages (state_after (applyPaging (state_after (applyPaging s))))
  = stages (state_after (applyPaging s)).
Proof.
  destruct s as [data sf fv fs ss sv so sp pv size index hs tr hp].
  destruct sp, sv; settle; reflexivity.
Qed.

Lemma applySorting_twice s :
  Forall (fun d => consistent (comparefn toStr d)) (sorting_getAll s) ->
  stages (state_after (applySorting toStr (state_after (applySorting toStr s))))
  = stages (state_after (applySorting toStr s)).
Proof.
  intros H.
  assert (C : Forall (@consistent T) (map (comparefn toStr) (sorting_getAll s))).
  { apply Forall_map. exact H. }
  clear H.
  destruct s as [data sf fv fs ss sv so sp pv size index hs tr hp].
  cbn [sorting] in C.
  destruct ss, sp, sv; settle; unfold stages;
    cbn [_filteredView _sortedView _pagedView];
    rewrite ?(sort_all_idempotent _ C); reflexivity.
Qed.

Lemma applyFilters_twice s :
  Forall (fun d => consistent (comparefn toStr d)) (sorting_getAll s) ->
  stages (state_after (applyFilters toStr (state_after (applyFilters toStr s))))
  = stages (state_after (applyFilters toStr s)).
Proof.
  intros H.
  assert (C : Forall (@consistent T) (map (comparefn toStr) (sorting_getAll s))).
  { apply Forall_map. exact H. }
  clear H.
  destruct s as [data sf fv fs ss sv so sp pv size index hs tr hp].
  cbn [sorting] in C.
  destruct sf, ss, sp, sv; settle; unfold stages;
    cbn [_filteredView _sortedView _pagedView];
    rewrite ?(sort_all_idempotent _ C); reflexivity.
Qed.

End Idempotence.

Lemma comparefn_consistent (T : Type) (toStr : T -> string)
      (ds : list (CollectionViewSortingDescriptor T)) :
  (forall d c, In d ds -> comparer d = Some c -> consistent (call c)) ->
  Forall (fun d => consistent (comparefn toStr d)) ds.
Proof.
  intros H. apply Forall_forall. intros d Hd. unfold comparefn.
  destruct (comparer d) as [c|] eqn:E.
  - apply (H d c Hd E).
  - apply string_order_consistent.
Qed.

(** C7. Each of [applyFilters], [applySorting] and [applyPaging], called
    twice in a row with nothing changed in between, leaves the filtered,
    sorted and paged stages after the second call exactly as they were
    after the first. The comparison functions that the caller supplied
    are taken to be consistent, which is what [Array.prototype.sort]
    requires for its result to be determined at all. *)
Theorem stage_recomputation_idempotent :
  forall (T : Type) (toStr : T -> string) (s : CollectionView T),
    (forall d c, In d (sorting_getAll s) -> comparer d = Some c -> consistent (call c)) ->
    stages (state_after (applyFilters toStr (state_after (applyFilters toStr s))))
    = stages (state_after (applyFilters toStr s)) /\
    stages (state_after (applySorting toStr (state_after (applySorting toStr s))))
    = stages (state_after (applySorting toStr s)) /\
    stages (state_after (applyPaging (state_after (applyPaging s))))
    = stages (state_after (applyPaging s)).
Proof.
  intros T toStr s H.
  pose proof (comparefn_consistent toStr _ H) as C.
  split; [|split].
  - apply applyFilters_twice. exact C.
  - apply applySorting_twice. exact C.
  - apply applyPaging_twice.
Qed.

Lemma by_points_descending_consistent : consistent (call by_points_descending).
Proof. constructor; simpl; intros; lia. Qed.

Lemma by_country_consistent : consistent (call by_country).
Proof. apply (string_order_consistent country). Qed.

Lemma ranked_comparers_consistent :
  forall d c,
    In d (sorting_getAll ranked_view) ->
    comparer d = Some c -> consistent (call c).
Proof.
  intros d c Hin E.
  destruct Hin as [Hd|[Hd|[]]]; subst d; injection E as <-.
  - apply by_country_consistent.
  - apply by_points_descending_consistent.
Qed.

Lemma stage_recomputation_idempotent_witness :
  stages (state_after
            (applyFilters object_toString
               (state_after (applyFilters object_toString ranked_view))))
  = stages (state_after (applyFilters object_toString ranked_view)) /\
  stages (state_after
            (applySorting object_toString
               (state_after (applySorting object_toString ranked_view))))
  = stages (state_after (applySorting object_toString ranked_view)) /\
  stages (state_after (applyPaging (state_after (applyPaging ranked_view))))
  = stages (state_after (applyPaging ranked_view)).
Proof.
  exact (@stage_recomputation_idempotent Player object_toString ranked_view
           ranked_comparers_consistent).
Defined.

(** ** Sorting by several descriptors *)

(** C6. The keys of the descriptors are never compared. A descriptor
    made from a property name or from a key selector, with whatever
    direction and value comparer, is given no comparison function, and
    [applySorting] sorts by the string form of the records. On the view
    returned for an observable source that has delivered Norway with 5
    points and Chile with 3, [sorting.add("country")] and
    [sorting.add(u => u.points, Descending)] both throw a [TypeError]
    and there is no sorted stage afterwards: the two descriptors are
    registered with their selectors and directions and without a
    comparison function. *)
Theorem sort_keys_are_never_compared :
  (forall (T : Type) (toStr : T -> string) (property : string)
          (direction : option SortDirection)
          (property_comparer : option (Fun (Comparable -> Comparable -> Z))) (a b : T),
      comparefn toStr
        (new_CollectionViewSortingDescriptor (ByProperty T property) direction
                                             property_comparer) a b
      = JsArray.string_order (toStr a) (toStr b)) /\
  (forall (T : Type) (toStr : T -> string) (f : Fun (T -> Comparable))
          (direction : option SortDirection)
          (property_comparer : option (Fun (Comparable -> Comparable -> Z))) (a b : T),
      comparefn toStr
        (new_CollectionViewSortingDescriptor (BySelector f) direction property_comparer) a b
      = JsArray.string_order (toStr a) (toStr b)) /\
  thrown (setData object_toString squad (subscribed_view object_toString))
  = Some TypeError /\
  thrown (sorting_add object_toString (GivenExpression (ByProperty Player "country"))
                      None None (loaded_view object_toString squad))
  = Some TypeError /\
  thrown (sorting_add object_toString (GivenExpression (BySelector points_of))
                      (Some Descending) None
                      (run object_toString [country_added] (loaded_view object_toString squad)))
  = Some TypeError /\
  _filteredView keyed_view = Some squad /\
  _sortedView keyed_view = None /\
  map (@selector Player) (sorting_getAll keyed_view)
  = [Some (PropertyName Player "country"); Some (KeySelector points_of)] /\
  map (@_direction Player) (sorting_getAll keyed_view) = [Ascending; Descending] /\
  map (@comparer Player) (sorting_getAll keyed_view) = [None; None].
Proof.
  split; [reflexivity|]. split; [reflexivity|].
  repeat (split; [vm_compute; reflexivity|]).
  vm_compute. reflexivity.
Qed.

(** ** Where the code departs from the design *)

(** C1. The sorted stage is never taken from the filtered stage. On the
    view returned for an observable source, [setData], then adding a
    filter, then adding a sort descriptor each recompute the filtered
    stage where they should, throw a [TypeError], and leave the sorted
    stage [undefined]: it is not a rearrangement of the filtered
    stage. *)
Theorem sorted_stage_not_taken_from_filtered :
  forall (T : Type) (toStr : T -> string) (data : list T) (keep : T -> bool)
         (order : Fun (T -> T -> Z)),
    setData toStr data (subscribed_view toStr)
    = Threw TypeError (loaded_view toStr data) /\
    _filteredView (loaded_view toStr data) = Some data /\
    _sortedView (loaded_view toStr data) = None /\
    filters_add toStr (GivenPredicate keep) (loaded_view toStr data)
    = Threw TypeError (narrowed_view toStr data keep) /\
    _filteredView (narrowed_view toStr data keep) = Some (filter keep data) /\
    _sortedView (narrowed_view toStr data keep) = None /\
    sorting_add toStr (GivenExpression (ByComparer order)) None None
                (narrowed_view toStr data keep)
    = Threw TypeError (ordered_view toStr data keep order) /\
    _filteredView (ordered_view toStr data keep order) = Some (filter keep data) /\
    _sortedView (ordered_view toStr data keep order) = None.
Proof.
  intros T toStr data keep order.
  repeat (split; [lazy; reflexivity|]). lazy. reflexivity.
Qed.

(** C3. The number of change events per mutating call is not one. On the
    view returned for an observable source, with a listener, [setData]
    throws before anything is raised. Were the sorted stage assigned,
    [setData] and a filter mutation would raise two events, because
    [applyFilters] calls [applyPaging] itself after [applySorting] has
    called it; a page index assignment raises one. *)
Theorem change_events_per_call :
  forall (T : Type) (toStr : T -> string) (data sorted : list T) (keep : T -> bool),
    thrown (setData toStr data (listened_view toStr)) = Some TypeError /\
    trace (state_after (setData toStr data (listened_view toStr))) = [] /\
    thrown (setData toStr data (sorted_view toStr sorted)) = None /\
    trace (state_after (setData toStr data (sorted_view toStr sorted)))
    = [ViewChanged (JsArray.slice sorted 0 10);
       ViewChanged (JsArray.slice sorted 0 10)] /\
    thrown (filters_add toStr (GivenPredicate keep) (sorted_view toStr sorted)) = None /\
    trace (state_after (filters_add toStr (GivenPredicate keep) (sorted_view toStr sorted)))
    = [FiltersChanged T;
       ViewChanged (JsArray.slice sorted 0 10);
       ViewChanged (JsArray.slice sorted 0 10)] /\
    thrown (pageIndex_set 1 (sorted_view toStr sorted)) = None /\
    trace (state_after (pageIndex_set 1 (sorted_view toStr sorted)))
    = [ViewChanged (JsArray.slice sorted 10 20)].
Proof.
  intros T toStr data sorted keep.
  repeat (split; [reflexivity|]). reflexivity.
Qed.

(** C4. The paging scenario over the numbers one to twenty-five does not
    run. The constructor throws on the array. On a view whose sorted
    stage does hold the numbers, the first page is one to ten, but
    [canNavigateToNextPage] compares with the length of that page, is
    false, and the first [goToNextPage] throws, leaving the page index at
    zero; after moving to page one directly the view is eleven to twenty
    and [canNavigateToNextPage] is false again. *)
Theorem paging_scenario_diverges :
  (exists s, new_CollectionView number_toString (FromArray (one_to 25)) = Threw TypeError s) /\
  _pageSize paged_view = 10 /\
  _pageIndex paged_view = 0 /\
  _pagedView paged_view = Some (one_to 10) /\
  canNavigateToNextPage paged_view = Returned false paged_view /\
  goToNextPage paged_view = Threw IllegalStateError_next paged_view /\
  _pagedView (state_after (pageIndex_set 1 paged_view))
  = Some (map Z.of_nat (seq 11 10)) /\
  thrown (canNavigateToNextPage (state_after (pageIndex_set 1 paged_view))) = None /\
  canNavigateToNextPage (state_after (pageIndex_set 1 paged_view))
  = Returned false (state_after (pageIndex_set 1 paged_view)).
Proof.
  split; [eexists; apply new_from_array|].
  repeat (split; [vm_compute; reflexivity|]). vm_compute. reflexivity.
Qed.
(** * Further properties of the code *)

(** ** Listener lists *)

Section Listeners.
Variable H : Type.
Variable same : H -> bool.

Lemma index_from_found (l : list H) (i : Z) :
  (JsArray.index_from same l i = -1 /\ forall h, In h l -> same h = false) \/
  (exists before h after,
      l = before ++ h :: after /\ same h = true /\
      (forall g, In g before -> same g = false) /\
      JsArray.index_from same l i = i + Z.of_nat (length before)) \/
  i < 0.
Proof.
  destruct (Z_lt_ge_dec i 0) as [Hi|Hi]; [right; right; exact Hi|].
  revert i Hi. induction l as [|x t IH]; intros i Hi; simpl.
  - left. split; [reflexivity | intros h []].
  - destruct (same x) eqn:E.
    + right. left. exists [], x, t. simpl. repeat split; try assumption.
      * intros g [].
      * lia.
    + destruct (IH (i + 1)) as [[E1 N]|[(before & h & after & E1 & E2 & E3 & E4)|F]];
        try lia.
      * left. split; [exact E1|]. intros h [<-|Hin]; [exact E | apply N; exact Hin].
      * right. left. exists (x :: before), h, after. simpl.
        repeat split; try assumption.
        -- rewrite E1. reflexivity.
        -- intros g [<-|Hin]; [exact E | apply E3; exact Hin].
        -- rewrite E4. lia.
Qed.

Lemma remove_at_middle (before after : list H) (h : H) :
  JsArray.remove_at (length before) (before ++ h :: after) = before ++ after.
Proof. induction before as [|x t IH]; simpl; [reflexivity | rewrite IH; reflexivity]. Qed.

Lemma removeEventListener_found (before after : list H) (h : H) :
  same h = true -> (forall g, In g before -> same g = false) ->
  Event.removeEventListener same (before ++ h :: after) = Some (before ++ after).
Proof.
  intros Hh Hb. unfold Event.removeEventListener, JsArray.indexOf.
  destruct (index_from_found (before ++ h :: after) 0)
    as [[_ N]|[(b' & h' & a' & E1 & E2 & E3 & E4)|F]]; [| |lia].
  - rewrite N in Hh; [discriminate|]. apply in_or_app. right. left. reflexivity.
  - assert (L : length b' = length before).
    { destruct (Nat.lt_trichotomy (length b') (length before)) as [L|[L|L]];
        [exfalso | exact L | exfalso].
      - assert (X : nth_error (before ++ h :: after) (length b') = Some h').
        { rewrite E1. rewrite nth_error_app2 by lia. rewrite Nat.sub_diag. reflexivity. }
        rewrite nth_error_app1 in X by lia.
        apply nth_error_In in X. rewrite (Hb _ X) in E2. discriminate.
      - assert (X : nth_error (b' ++ h' :: a') (length before) = Some h).
        { rewrite <- E1. rewrite nth_error_app2 by lia. rewrite Nat.sub_diag. reflexivity. }
        rewrite nth_error_app1 in X by lia.
        apply nth_error_In in X. rewrite (E3 _ X) in Hh. discriminate. }
    rewrite E4. simpl.
    destruct (Z.eqb_spec (Z.of_nat (length b')) (-1)) as [F|_]; [lia|].
    f_equal. unfold JsArray.splice1, JsArray.relative_index.
    destruct (Z.ltb_spec (Z.of_nat (length b')) 0) as [F|_]; [lia|].
    rewrite Z.min_l by (rewrite length_app; simpl; lia).
    rewrite Nat2Z.id, L. apply remove_at_middle.
Qed.

Lemma removeEventListener_absent (handlers : list H) :
  (forall h, In h handlers -> same h = false) ->
  Event.removeEventListener same handlers = None.
Proof.
  intros N. unfold Event.removeEventListener, JsArray.indexOf.
  destruct (index_from_found handlers 0)
    as [[E _]|[(b & h & a & E1 & E2 & _)|F]]; [| |lia].
  - rewrite E. reflexivity.
  - rewrite N in E2; [discriminate|]. rewrite E1. apply in_or_app. right. left. reflexivity.
Qed.

Lemma first_match (handlers : list H) :
  (forall h, In h handlers -> same h = false) \/
  (exists before h after,
      handlers = before ++ h :: after /\ same h = true /\
      (forall g, In g before -> same g = false)).
Proof.
  destruct (index_from_found handlers 0)
    as [[_ N]|[(b & h & a & E1 & E2 & E3 & _)|F]]; [left; exact N | | lia].
  right. exists b, h, a. repeat split; assumption.
Qed.

(** X1. [removeEventListener] throws exactly when no registered handler
    is the one given; otherwise it takes out the first occurrence of it
    and leaves the other handlers in their order. *)
Theorem removeEventListener_takes_first_occurrence :
  forall handlers : list H,
    match Event.removeEventListener same handlers with
    | None => forall h, In h handlers -> same h = false
    | Some rest =>
        exists before h after,
          handlers = before ++ h :: after /\
          same h = true /\
          (forall g, In g before -> same g = false) /\
          rest = before ++ after
    end.
Proof.
  intros handlers.
  destruct (first_match handlers) as [N|(b & h & a & E1 & E2 & E3)].
  - rewrite removeEventListener_absent by exact N. exact N.
  - rewrite E1. rewrite (removeEventListener_found _ _ E2 E3).
    exists b, h, a. repeat split; assumption.
Qed.

(** X2. Registering a handler that is not yet in the list and removing
    it again gives the list back; the method does not throw. *)
Theorem addEventListener_then_remove :
  forall (handlers : list H) (h : H),
    same h = true ->
    (forall g, In g handlers -> same g = false) ->
    Event.removeEventListener same (Event.addEventListener h handlers) = Some handlers.
Proof.
  intros handlers h Hh N. unfold Event.addEventListener.
  rewrite (removeEventListener_found handlers [] Hh N).
  rewrite app_nil_r. reflexivity.
Qed.

End Listeners.

Lemma addEventListener_then_remove_witness :
  Event.removeEventListener (Nat.eqb 7) (Event.addEventListener 7%nat [3%nat; 5%nat])
  = Some [3%nat; 5%nat].
Proof.
  apply (@addEventListener_then_remove nat (Nat.eqb 7) [3%nat; 5%nat] 7%nat).
  - reflexivity.
  - intros g [<-|[<-|[]]]; reflexivity.
Defined.

(** ** The recomputations *)

Section Recompute.
Variable T : Type.
Variable toStr : T -> string.
Implicit Types s : CollectionView T.

Lemma applyPaging_settings s : settings (state_after (applyPaging s)) = settings s.
Proof.
  rewrite applyPaging_state. destruct (suppressPaging s); [reflexivity|].
  destruct (_sortedView s); reflexivity.
Qed.

Lemma applySorting_settings s : settings (state_after (applySorting toStr s)) = settings s.
Proof.
  rewrite applySorting_state. destruct (suppressSorting s); [reflexivity|].
  destruct (_sortedView s); [|reflexivity].
  rewrite applyPaging_settings. reflexivity.
Qed.

Lemma applyFilters_settings s : settings (state_after (applyFilters toStr s)) = settings s.
Proof.
  rewrite applyFilters_state. destruct (suppressFiltering s); [reflexivity|].
  rewrite applyPaging_settings, applySorting_settings. reflexivity.
Qed.

Lemma applyPaging_upstream s :
  _filteredView (state_after (applyPaging s)) = _filteredView s /\
  _sortedView (state_after (applyPaging s)) = _sortedView s.
Proof.
  rewrite applyPaging_state. destruct (suppressPaging s); [split; reflexivity|].
  destruct (_sortedView s) eqn:E; split; try reflexivity; simpl; congruence.
Qed.

Lemma applySorting_upstream s :
  _filteredView (state_after (applySorting toStr s)) = _filteredView s.
Proof.
  rewrite applySorting_state. destruct (suppressSorting s); [reflexivity|].
  destruct (_sortedView s); [|reflexivity].
  rewrite (proj1 (applyPaging_upstream _)). reflexivity.
Qed.

(** X3. The three recomputations change the stages and notify, nothing
    else: the data, both descriptor collections with their listeners, the
    three suppression flags, the page size, the page index and the view's
    listeners are after the call what they were before, whether the call
    returned or threw. [applyPaging] also leaves the filtered and the
    sorted stage alone, and [applySorting] the filtered stage. *)
Theorem recomputations_keep_settings :
  forall s : CollectionView T,
    settings (state_after (applyFilters toStr s)) = settings s /\
    settings (state_after (applySorting toStr s)) = settings s /\
    settings (state_after (applyPaging s)) = settings s /\
    _filteredView (state_after (applySorting toStr s)) = _filteredView s /\
    _filteredView (state_after (applyPaging s)) = _filteredView s /\
    _sortedView (state_after (applyPaging s)) = _sortedView s.
Proof.
  intros s.
  split; [apply applyFilters_settings|].
  split; [apply applySorting_settings|].
  split; [apply applyPaging_settings|].
  split; [apply applySorting_upstream|].
  apply applyPaging_upstream.
Qed.

Lemma narrow_passes_all (fs : list (CollectionViewFilter T)) (l : list T) :
  narrow fs l = filter (passes_all fs) l.
Proof.
  revert l. induction fs as [|f fs IH]; intros l; unfold narrow; simpl.
  - induction l as [|x t IHl]; simpl; [reflexivity | rewrite <- IHl; reflexivity].
  - fold (narrow fs (filter (_predicate f) l)). rewrite IH.
    induction l as [|x t IHl]; simpl; [reflexivity|].
    destruct (_predicate f x); simpl; rewrite IHl; reflexivity.
Qed.

Lemma passes_all_permutation (fs fs' : list (CollectionViewFilter T)) (x : T) :
  Permutation fs fs' -> passes_all fs x = passes_all fs' x.
Proof.
  unfold passes_all. induction 1 as [|f l l' _ IH|f g l|l l' l'' _ IH1 _ IH2]; simpl.
  - reflexivity.
  - rewrite IH. reflexivity.
  - destruct (_predicate f x), (_predicate g x); reflexivity.
  - rewrite IH1. exact IH2.
Qed.

Lemma applyFilters_filtered s :
  suppressFiltering s = false ->
  _filteredView (state_after (applyFilters toStr s))
  = Some (filter (passes_all (filter_items (filters s))) (_data s)).
Proof.
  intros H. rewrite applyFilters_state, H.
  rewrite (proj1 (applyPaging_upstream _)), applySorting_upstream. simpl.
  rewrite narrow_passes_all. reflexivity.
Qed.

(** X4. Unless filtering is suppressed, [applyFilters] makes the filtered
    stage the records of the data that pass every filter, in the order of
    the data, whether or not the recomputation downstream throws. The
    order in which the filters were added does not matter. *)
Theorem applyFilters_keeps_what_passes_all :
  forall s s' : CollectionView T,
    suppressFiltering s = false ->
    suppressFiltering s' = false ->
    _data s' = _data s ->
    Permutation (filter_items (filters s)) (filter_items (filters s')) ->
    _filteredView (state_after (applyFilters toStr s))
    = Some (filter (passes_all (filter_items (filters s))) (_data s)) /\
    _filteredView (state_after (applyFilters toStr s'))
    = _filteredView (state_after (applyFilters toStr s)).
Proof.
  intros s s' H H' D P. split; [apply applyFilters_filtered; exact H|].
  rewrite !applyFilters_filtered by assumption. rewrite D. f_equal.
  apply filter_ext. intros x. symmetry. apply passes_all_permutation. exact P.
Qed.

(** X5. Unless sorting is suppressed, [applySorting] turns an assigned
    sorted stage into a rearrangement of itself that is ordered by the
    descriptors taken together, the one registered last deciding first
    and each earlier one only among the records that all later ones tie.
    Comparison functions supplied by the caller are taken to be
    consistent. *)
Theorem applySorting_orders_by_all_descriptors :
  forall (s : CollectionView T) (l : list T),
    suppressSorting s = false ->
    _sortedView s = Some l ->
    (forall d c, In d (sorting_getAll s) -> comparer d = Some c ->
                 consistent (call c)) ->
    exists r,
      _sortedView (state_after (applySorting toStr s)) = Some r /\
      Permutation l r /\
      forall (i j : nat) (x y : T),
        (i < j)%nat -> nth_error r i = Some x -> nth_error r j = Some y ->
        lexicographic (map (comparefn toStr) (sorting_getAll s)) x y <= 0.
Proof.
  intros s l H1 H2 C.
  exists (sort_all (map (comparefn toStr) (sorting_getAll s)) l).
  split; [|split].
  - rewrite applySorting_state, H1, H2.
    rewrite (proj2 (applyPaging_upstream _)). reflexivity.
  - apply sort_all_permutation.
  - intros i j x y Hij Hi Hj.
    apply (sorted_pairs (R := precedes (lexicographic
                                          (map (comparefn toStr) (sorting_getAll s))))
             (l := sort_all (map (comparefn toStr) (sorting_getAll s)) l))
      with (i := i) (j := j); try assumption.
    apply sort_all_sorted. apply Forall_map. apply comparefn_consistent. exact C.
Qed.

End Recompute.

Lemma applyFilters_keeps_what_passes_all_witness :
  _filteredView (state_after (applyFilters number_toString even_small_view))
  = Some [2; 4] /\
  _filteredView (state_after (applyFilters number_toString small_even_view))
  = _filteredView (state_after (applyFilters number_toString even_small_view)).
Proof.
  destruct (@applyFilters_keeps_what_passes_all Z number_toString
              even_small_view small_even_view eq_refl eq_refl eq_refl
              (perm_swap _ _ []))
    as [H1 H2].
  split; [exact H1 | exact H2].
Defined.

Lemma applySorting_orders_by_all_descriptors_witness :
  exists r,
    _sortedView (state_after (applySorting object_toString ranked_view)) = Some r /\
    Permutation squad r /\
    forall (i j : nat) (x y : Player),
      (i < j)%nat -> nth_error r i = Some x -> nth_error r j = Some y ->
      lexicographic (map (comparefn object_toString) (sorting_getAll ranked_view))
                    x y <= 0.
Proof.
  exact (@applySorting_orders_by_all_descriptors Player object_toString ranked_view squad
           eq_refl eq_refl ranked_comparers_consistent).
Defined.

(** ** Paging through the sorted stage *)

Section Pages.
Variable T : Type.
Implicit Types s : CollectionView T.

Lemma pageIndex_set_assigned s (l : list T) (index : Z) :
  suppressPaging s = false -> _sortedView s = Some l -> 0 <= index ->
  pageIndex_set index s
  = Returned tt (notified (set_pageIndex index s) (paged_of (set_pageIndex index s) l)).
Proof.
  intros H1 H2 H3. unfold pageIndex_set.
  destruct (Z.ltb_spec index 0) as [F|_]; [lia|].
  unfold bind, modify. rewrite applyPaging_cases. simpl. rewrite H1, H2. reflexivity.
Qed.

Lemma pageSize_set_assigned s (l : list T) (size : Z) :
  suppressPaging s = false -> _sortedView s = Some l -> 1 <= size ->
  pageSize_set size s
  = Returned tt (notified (set_pageSize size s) (paged_of (set_pageSize size s) l)).
Proof.
  intros H1 H2 H3. unfold pageSize_set.
  destruct (Z.ltb_spec size 1) as [F|_]; [lia|].
  unfold bind, modify. rewrite applyPaging_cases. simpl. rewrite H1, H2. reflexivity.
Qed.

(** X6. On a view whose sorted stage is assigned, which no sequence of
    calls brings about, the page index has no upper bound: assigning one
    whose page starts at or past the end of the sorted stage is accepted,
    and the paged stage is then empty. *)
Theorem pageIndex_past_the_end_shows_nothing :
  forall (s : CollectionView T) (l : list T) (index : Z),
    suppressPaging s = false ->
    _sortedView s = Some l ->
    1 <= _pageSize s ->
    Z.of_nat (length l) <= index * _pageSize s ->
    thrown (pageIndex_set index s) = None /\
    _pageIndex (state_after (pageIndex_set index s)) = index /\
    _pagedView (state_after (pageIndex_set index s)) = Some [].
Proof.
  intros s l index H1 H2 H3 H4.
  assert (H5 : 0 <= index) by nia.
  rewrite (pageIndex_set_assigned _ H1 H2 H5). simpl.
  split; [reflexivity|]. split; [reflexivity|].
  unfold paged_of. simpl. rewrite slice_page by assumption.
  rewrite skipn_all2 by lia. rewrite firstn_nil. reflexivity.
Qed.

Lemma firstn_then_firstn (l : list T) (a b : nat) :
  firstn a l ++ firstn b (skipn a l) = firstn (a + b) l.
Proof.
  revert l. induction a as [|a IH]; intros l; simpl; [reflexivity|].
  destruct l as [|x t]; simpl.
  - rewrite firstn_nil. reflexivity.
  - rewrite IH. reflexivity.
Qed.

Lemma page_shown_assigned s (l : list T) (index : nat) :
  suppressPaging s = false -> _sortedView s = Some l -> 1 <= _pageSize s ->
  page_shown s index
  = firstn (Z.to_nat (_pageSize s)) (skipn (index * Z.to_nat (_pageSize s)) l).
Proof.
  intros H1 H2 H3. unfold page_shown.
  rewrite (pageIndex_set_assigned _ H1 H2 (Nat2Z.is_nonneg index)). simpl.
  unfold paged_of. simpl. rewrite slice_page by lia.
  f_equal. f_equal. nia.
Qed.

(** X7. On a view whose sorted stage is assigned, which no sequence of
    calls brings about, the pages adjoin. Going through the page indices
    from zero, the paged stages left one after the other are the sorted
    stage from its start, each record once and in order; as soon as the
    pages reach the end they are the whole sorted stage. *)
Theorem pages_adjoin :
  forall (s : CollectionView T) (l : list T) (n : nat),
    suppressPaging s = false ->
    _sortedView s = Some l ->
    1 <= _pageSize s ->
    concat (map (page_shown s) (seq 0 n)) = firstn (n * Z.to_nat (_pageSize s)) l /\
    (Z.of_nat (length l) <= Z.of_nat n * _pageSize s ->
     concat (map (page_shown s) (seq 0 n)) = l).
Proof.
  intros s l n H1 H2 H3.
  assert (E : concat (map (page_shown s) (seq 0 n))
              = firstn (n * Z.to_nat (_pageSize s)) l).
  { induction n as [|n IH]; [reflexivity|].
    rewrite seq_S, map_app, concat_app, IH. simpl.
    rewrite (@page_shown_assigned s l n H1 H2 H3), app_nil_r.
    rewrite firstn_then_firstn. f_equal. lia. }
  split; [exact E|].
  intros H4. rewrite E. apply firstn_all2. nia.
Qed.

(** X8. [page] is not one step. With a valid page size and a negative
    page index it throws, for the index or already in the recomputation
    after the size, but the page size has been assigned by then; the
    page index is as before. *)
Theorem page_assigns_size_before_it_rejects_index :
  forall (s : CollectionView T) (index size : Z),
    1 <= size ->
    index < 0 ->
    thrown (page index (Some size) s) <> None /\
    state_after (page index (Some size) s) = state_after (pageSize_set size s) /\
    _pageSize (state_after (page index (Some size) s)) = size /\
    _pageIndex (state_after (page index (Some size) s)) = _pageIndex s.
Proof.
  intros s index size H1 H2.
  assert (A : state_after (pageSize_set size s)
              = state_after (applyPaging (set_pageSize size s))).
  { unfold pageSize_set. destruct (Z.ltb_spec size 1) as [F|_]; [lia | reflexivity]. }
  assert (B : thrown (page index (Some size) s) <> None /\
              state_after (page index (Some size) s) = state_after (pageSize_set size s)).
  { unfold page, bind, get.
    destruct (pageSize_set size s) as [[] s'|e s']; simpl.
    - unfold pageIndex_set. destruct (Z.ltb_spec index 0) as [_|F]; [|lia].
      simpl. split; [discriminate | reflexivity].
    - split; [discriminate | reflexivity]. }
  destruct B as [B1 B2]. split; [exact B1|]. split; [exact B2|].
  rewrite B2, A.
  pose proof (applyPaging_settings (set_pageSize size s)) as S.
  split.
  - apply (f_equal (fun t => snd (fst (fst t)))) in S. exact S.
  - apply (f_equal (fun t => snd (fst t))) in S. exact S.
Qed.

(** X9. With the sorted stage assigned and a page index above zero,
    [goToPreviousPage] moves one page back and shows that page. It goes
    through [page], which assigns the page size it already has before it
    assigns the index, so a listener is notified twice: first with the
    page it was on, then with the previous one. *)
Theorem goToPreviousPage_steps_back :
  forall (s : CollectionView T) (l : list T),
    suppressPaging s = false ->
    _sortedView s = Some l ->
    1 <= _pageSize s ->
    0 < _pageIndex s ->
    thrown (goToPreviousPage s) = None /\
    _pageIndex (state_after (goToPreviousPage s)) = _pageIndex s - 1 /\
    _pageSize (state_after (goToPreviousPage s)) = _pageSize s /\
    _pagedView (state_after (goToPreviousPage s))
    = Some (JsArray.slice l ((_pageIndex s - 1) * _pageSize s) (_pageIndex s * _pageSize s)) /\
    trace (state_after (goToPreviousPage s))
    = trace s
      ++ match _handlers s with
         | [] => []
         | _ :: _ =>
             [ViewChanged (JsArray.slice l (_pageIndex s * _pageSize s)
                                         ((_pageIndex s + 1) * _pageSize s));
              ViewChanged (JsArray.slice l ((_pageIndex s - 1) * _pageSize s)
                                         (_pageIndex s * _pageSize s))]
         end.
Proof.
  intros s l H1 H2 H3 H4.
  unfold goToPreviousPage, canNavigateToPreviousPage, bind, get, ret.
  destruct (Z.ltb_spec 0 (_pageIndex s)) as [_|F]; [|lia]. simpl.
  unfold page, bind, get.
  rewrite (pageSize_set_assigned _ H1 H2 H3).
  rewrite (@pageIndex_set_assigned _ l (_pageIndex s - 1)); try (simpl; assumption || lia).
  unfold notified, paged_of. simpl.
  replace (_pageIndex s - 1 + 1) with (_pageIndex s) by lia.
  destruct (_handlers s); simpl; repeat split; try reflexivity.
  - rewrite app_nil_r. reflexivity.
  - rewrite <- app_assoc. reflexivity.
Qed.

End Pages.

Section Held.
Variable T : Type.
Variable toStr : T -> string.

(** X10. On every view a caller can hold, assigning a valid page size or
    page index throws a [TypeError] in the recomputation, and the value
    has been assigned all the same. *)
Theorem paging_setters_assign_then_throw :
  forall (s : CollectionView T) (size index : Z),
    reachable toStr s ->
    1 <= size ->
    0 <= index ->
    pageSize_set size s = Threw TypeError (set_pageSize size s) /\
    pageIndex_set index s = Threw TypeError (set_pageIndex index s).
Proof.
  intros s size index R H1 H2.
  destruct (reachable_unassigned R) as (U1 & _ & _ & U4 & _).
  unfold pageSize_set, pageIndex_set.
  destruct (Z.ltb_spec size 1) as [F|_]; [lia|].
  destruct (Z.ltb_spec index 0) as [F|_]; [lia|].
  unfold bind, modify.
  rewrite !applyPaging_unassigned by assumption. split; reflexivity.
Qed.

End Held.

Lemma subscribed_view_reachable (T : Type) (toStr : T -> string) :
  reachable toStr (subscribed_view toStr).
Proof.
  exists FromObservable, (subscribed_view toStr).
  split; [reflexivity | apply reach_here].
Qed.

Lemma pageIndex_past_the_end_shows_nothing_witness :
  thrown (pageIndex_set 3 paged_view) = None /\
  _pageIndex (state_after (pageIndex_set 3 paged_view)) = 3 /\
  _pagedView (state_after (pageIndex_set 3 paged_view)) = Some [].
Proof.
  apply (@pageIndex_past_the_end_shows_nothing Z paged_view (one_to 25) 3);
    try reflexivity; simpl; lia.
Defined.

Lemma pages_adjoin_witness :
  concat (map (page_shown paged_view) (seq 0 3)) = one_to 25.
Proof.
  destruct (@pages_adjoin Z paged_view (one_to 25) 3 eq_refl eq_refl) as [_ H].
  - simpl. lia.
  - apply H. simpl. lia.
Defined.

Lemma page_assigns_size_before_it_rejects_index_witness :
  thrown (page (-1) (Some 5) paged_view) = Some ValidationError_pageIndex /\
  _pageSize (state_after (page (-1) (Some 5) paged_view)) = 5 /\
  _pageIndex (state_after (page (-1) (Some 5) paged_view)) = 0.
Proof.
  destruct (@page_assigns_size_before_it_rejects_index Z paged_view (-1) 5)
    as (_ & _ & H3 & H4); try lia.
  split; [reflexivity | split; [exact H3 | exact H4]].
Defined.

Lemma goToPreviousPage_steps_back_witness :
  thrown (goToPreviousPage (state_after (pageIndex_set 2 paged_view))) = None /\
  _pagedView (state_after (goToPreviousPage (state_after (pageIndex_set 2 paged_view))))
  = Some (map Z.of_nat (seq 11 10)).
Proof.
  destruct (@goToPreviousPage_steps_back Z (state_after (pageIndex_set 2 paged_view))
              (one_to 25))
    as (H1 & _ & _ & H4 & _); try reflexivity; try (simpl; lia).
  split; [exact H1 | exact H4].
Defined.

Lemma paging_setters_assign_then_throw_witness :
  pageSize_set 5 (subscribed_view number_toString)
  = Threw TypeError (set_pageSize 5 (subscribed_view number_toString)) /\
  pageIndex_set 2 (subscribed_view number_toString)
  = Threw TypeError (set_pageIndex 2 (subscribed_view number_toString)).
Proof.
  apply (@paging_setters_assign_then_throw Z number_toString
           (subscribed_view number_toString) 5 2
           (subscribed_view_reachable number_toString)); lia.
Defined.

(** ** Change events that recompute nothing, and those that keep the settings *)

Section Raising.
Variable T : Type.
Variable toStr : T -> string.
Implicit Types s : CollectionView T.

Lemma settings_data s s' : settings s = settings s' -> _data s = _data s'.
Proof. intros E. apply (f_equal (fun t => fst (fst (fst (fst (fst (fst (fst (fst t))))))))) in E. exact E. Qed.

Lemma settings_suppressFiltering s s' :
  settings s = settings s' -> suppressFiltering s = suppressFiltering s'.
Proof. intros E. apply (f_equal (fun t => snd (fst (fst (fst (fst (fst (fst (fst t))))))))) in E. exact E. Qed.

Lemma settings_filters s s' : settings s = settings s' -> filters s = filters s'.
Proof. intros E. apply (f_equal (fun t => snd (fst (fst (fst (fst (fst (fst t)))))))) in E. exact E. Qed.

Lemma settings_suppressSorting s s' :
  settings s = settings s' -> suppressSorting s = suppressSorting s'.
Proof. intros E. apply (f_equal (fun t => snd (fst (fst (fst (fst (fst t))))))) in E. exact E. Qed.

Lemma settings_sorting s s' : settings s = settings s' -> sorting s = sorting s'.
Proof.
  intros E. apply (f_equal (fun t => fst (snd (fst (fst (fst (fst t))))))) in E. exact E.
Qed.

Lemma settings_heap s s' : settings s = settings s' -> heap s = heap s'.
Proof.
  intros E. apply (f_equal (fun t => snd (snd (fst (fst (fst (fst t))))))) in E. exact E.
Qed.

Lemma settings_getAll s s' : settings s = settings s' -> sorting_getAll s = sorting_getAll s'.
Proof.
  intros E. unfold sorting_getAll. rewrite (settings_sorting E), (settings_heap E).
  reflexivity.
Qed.

Lemma keeps_settings_bind (A B : Type) (m : Call T A) (k : A -> Call T B) :
  keeps_settings m -> (forall a, keeps_settings (k a)) -> keeps_settings (bind m k).
Proof.
  intros Hm Hk s. unfold bind. specialize (Hm s).
  destruct (m s) as [a s'|e s']; simpl in *; [|exact Hm].
  rewrite Hk. exact Hm.
Qed.

Lemma keeps_settings_forEach (A : Type) (xs : list A) (body : A -> Call T unit) :
  (forall x, keeps_settings (body x)) -> keeps_settings (forEach xs body).
Proof.
  intros H. induction xs as [|x xs IH]; simpl.
  - intros s. reflexivity.
  - apply keeps_settings_bind; [apply H | intros _; exact IH].
Qed.

Lemma keeps_settings_get : keeps_settings (@get (CollectionView T)).
Proof. intros s. reflexivity. Qed.

Lemma keeps_settings_emit (e : Signal T) : keeps_settings (modify (emit e)).
Proof. intros s. reflexivity. Qed.

Lemma filters_raiseChanged_settings : keeps_settings (filters_raiseChanged toStr).
Proof.
  unfold filters_raiseChanged.
  apply keeps_settings_bind; [apply keeps_settings_emit | intros _].
  apply keeps_settings_bind; [apply keeps_settings_get | intros s0].
  apply keeps_settings_forEach. intros [|n]; simpl.
  - intros s. apply applyFilters_settings.
  - intros s. reflexivity.
Qed.

Lemma sorting_raiseChanged_settings : keeps_settings (sorting_raiseChanged toStr).
Proof.
  unfold sorting_raiseChanged.
  apply keeps_settings_bind; [apply keeps_settings_emit | intros _].
  apply keeps_settings_bind; [apply keeps_settings_get | intros s0].
  apply keeps_settings_forEach. intros [|n]; simpl.
  - intros s. apply applySorting_settings.
  - intros s. reflexivity.
Qed.

Lemma filter_raiseChanged_settings f : keeps_settings (filter_raiseChanged toStr f).
Proof.
  unfold filter_raiseChanged.
  apply keeps_settings_bind; [apply keeps_settings_emit | intros _].
  apply keeps_settings_forEach. intros [|n]; simpl.
  - apply filters_raiseChanged_settings.
  - intros s. reflexivity.
Qed.

Lemma descriptor_raiseChanged_settings (r : nat) :
  keeps_settings (descriptor_raiseChanged toStr r).
Proof.
  unfold descriptor_raiseChanged.
  apply keeps_settings_bind; [apply keeps_settings_emit | intros _].
  apply keeps_settings_bind; [apply keeps_settings_get | intros s0].
  destruct (deref s0 r) as [d|]; [|intros s; reflexivity].
  apply keeps_settings_forEach. intros [|n]; simpl.
  - apply sorting_raiseChanged_settings.
  - intros s. reflexivity.
Qed.

End Raising.

(** ** The filter collection *)

Section ListFacts.
Variable A : Type.
Variable test : A -> bool.

Lemma find_index_none (l : list A) :
  find test l = None -> find_index test l = None.
Proof.
  induction l as [|x t IH]; simpl; [reflexivity|].
  destruct (test x); [discriminate|]. intros H. rewrite (IH H). reflexivity.
Qed.

Lemma find_index_first (l r : list A) (y : A) :
  (forall x, In x l -> test x = false) -> test y = true ->
  find_index test (l ++ y :: r) = Some (length l).
Proof.
  intros N Hy. induction l as [|x t IH]; simpl.
  - rewrite Hy. reflexivity.
  - rewrite (N x (or_introl eq_refl)). rewrite IH; [reflexivity|].
    intros z Hz. apply N. right. exact Hz.
Qed.

Lemma find_index_some (l : list A) (i : nat) :
  find_index test l = Some i ->
  exists before y after,
    l = before ++ y :: after /\ length before = i /\ test y = true /\
    (forall x, In x before -> test x = false).
Proof.
  revert i. induction l as [|x t IH]; intros i; simpl; [discriminate|].
  destruct (test x) eqn:E.
  - intros H. inversion H; subst. exists [], x, t. repeat split; try assumption.
    intros z [].
  - destruct (find_index test t) as [k|]; [|discriminate].
    intros H. inversion H; subst.
    destruct (IH k eq_refl) as (b & y & a & E1 & E2 & E3 & E4).
    exists (x :: b), y, a. simpl. rewrite E1, E2. repeat split; try assumption.
    intros z [<-|Hz]; [exact E | apply E4; exact Hz].
Qed.

Lemma find_app_later (l r : list A) :
  find test l = None -> find test (l ++ r) = find test r.
Proof.
  induction l as [|x t IH]; simpl; [reflexivity|].
  destruct (test x); [discriminate | exact IH].
Qed.

Lemma find_app_earlier (l r : list A) (x : A) :
  find test l = Some x -> find test (l ++ r) = Some x.
Proof.
  induction l as [|y t IH]; simpl; [discriminate|].
  destruct (test y); [intros H; exact H | exact IH].
Qed.

Lemma splice1_middle (before after : list A) (y : A) :
  JsArray.splice1 (Z.of_nat (length before)) (before ++ y :: after) = before ++ after.
Proof.
  unfold JsArray.splice1, JsArray.relative_index.
  destruct (Z.ltb_spec (Z.of_nat (length before)) 0) as [F|_]; [lia|].
  rewrite Z.min_l by (rewrite length_app; simpl; lia).
  rewrite Nat2Z.id. apply remove_at_middle.
Qed.

Lemma splice1_last (l : list A) : JsArray.splice1 (-1) l = removelast l.
Proof.
  induction l as [|y l' _] using rev_ind; [reflexivity|].
  rewrite removelast_last.
  unfold JsArray.splice1, JsArray.relative_index. simpl.
  rewrite length_app. simpl.
  replace (Z.to_nat (Z.max (Z.of_nat (length l' + 1) + -1) 0)) with (length l') by lia.
  rewrite remove_at_middle. apply app_nil_r.
Qed.

End ListFacts.

Section FilterCollection.
Variable T : Type.
Variable toStr : T -> string.
Implicit Types s : CollectionView T.

Lemma forwarding_removable (hs : list DescriptorChangedEventHandler) :
  In raiseChangedHandler hs ->
  exists rest, Event.removeEventListener is_raiseChangedHandler hs = Some rest.
Proof.
  intros Hin.
  destruct (first_match is_raiseChangedHandler hs) as [N|(b & h & a & E1 & E2 & E3)].
  - specialize (N _ Hin). discriminate.
  - rewrite E1, (@removeEventListener_found _ is_raiseChangedHandler b a h E2 E3). eexists. reflexivity.
Qed.

Lemma not_forwarding (hs : list DescriptorChangedEventHandler) :
  ~ In raiseChangedHandler hs ->
  Event.removeEventListener is_raiseChangedHandler hs = None.
Proof.
  intros N. apply removeEventListener_absent.
  intros h Hin. destruct h; [contradiction | reflexivity].
Qed.

Lemma filters_add_fresh arg s :
  filters_find (name (resolve_filter (filters s) arg)) (filters s) = None ->
  settings (state_after (filters_add toStr arg s))
  = settings (set_filter_items
                (filter_items (filters s) ++ [forwarding (resolve_filter (filters s) arg)]) s).
Proof.
  intros H. unfold filters_add. unfold bind at 1. unfold get. cbv beta iota zeta.
  rewrite H. unfold bind at 1. unfold modify.
  rewrite filters_raiseChanged_settings. reflexivity.
Qed.

Lemma filters_find_missing (n : string) (c : CollectionViewFilterCollection T) :
  filters_find n c = None -> forall f, In f (filter_items c) -> String.eqb (name f) n = false.
Proof. intros H f Hin. apply (find_none _ _ H f Hin). Qed.

(** X11. When the name it resolves is free, [add] puts the filter at the
    end of the collection with the collection's forwarding handler among
    its listeners, and [find] returns it from then on; the count goes up
    by one. This holds whether or not the recomputation that the change
    sets off throws. *)
Theorem filters_add_appends :
  forall (s : CollectionView T) (arg : FilterArgument T),
    filters_find (name (resolve_filter (filters s) arg)) (filters s) = None ->
    filter_items (filters (state_after (filters_add toStr arg s)))
    = filter_items (filters s) ++ [forwarding (resolve_filter (filters s) arg)] /\
    filters_find (name (resolve_filter (filters s) arg))
                 (filters (state_after (filters_add toStr arg s)))
    = Some (forwarding (resolve_filter (filters s) arg)) /\
    filters_count (filters (state_after (filters_add toStr arg s)))
    = filters_count (filters s) + 1.
Proof.
  intros s arg H.
  pose proof (settings_filters (filters_add_fresh arg s H)) as E. simpl in E.
  rewrite E. simpl. split; [reflexivity|]. split.
  - unfold filters_find in *. simpl.
    rewrite find_app_later by exact H. simpl.
    rewrite String.eqb_refl. reflexivity.
  - unfold filters_count. simpl. rewrite length_app. simpl. lia.
Qed.

Lemma filters_remove_found p s index f rest :
  locate_filter p (filter_items (filters s)) = Found index f ->
  Event.removeEventListener is_raiseChangedHandler (filter_handlers f) = Some rest ->
  settings (state_after (filters_remove toStr p s))
  = settings (set_filter_items (JsArray.splice1 index (filter_items (filters s))) s).
Proof.
  intros H1 H2. unfold filters_remove. unfold bind at 1. unfold get. cbv beta iota.
  rewrite H1. unfold bind at 1. unfold modify. rewrite H2.
  rewrite filters_raiseChanged_settings. reflexivity.
Qed.

(** X12. Adding a filter under a free name and removing it again by that
    name gives the collection back as it was, filters and listeners. *)
Theorem filters_add_then_remove :
  forall (s : CollectionView T) (n : string) (predicate : Predicate T),
    filters_find n (filters s) = None ->
    filters (state_after
               (filters_remove toStr (FilterNamed T n)
                  (state_after (filters_add toStr (GivenName n predicate) s))))
    = filters s.
Proof.
  intros s n predicate H.
  pose proof (settings_filters (filters_add_fresh (GivenName n predicate) s H)) as E.
  simpl in E.
  set (s1 := state_after (filters_add toStr (GivenName n predicate) s)) in *.
  assert (L : locate_filter (FilterNamed T n) (filter_items (filters s1))
              = Found (Z.of_nat (length (filter_items (filters s))))
                      (forwarding (new_CollectionViewFilter n predicate))).
  { rewrite E. simpl. unfold locate_first.
    rewrite find_index_first.
    - rewrite nth_error_app2 by lia. rewrite Nat.sub_diag. reflexivity.
    - apply filters_find_missing. exact H.
    - simpl. apply String.eqb_refl. }
  rewrite (settings_filters (filters_remove_found _ _ L (rest := []) eq_refl)).
  simpl. rewrite E. simpl. rewrite splice1_middle, app_nil_r.
  destruct (filters s). reflexivity.
Qed.

Lemma filters_remove_missing s (n : string) :
  filters_find n (filters s) = None ->
  filters_remove toStr (FilterNamed T n) s = Threw NotFoundError_descriptor s.
Proof.
  intros H. unfold filters_remove, bind, get. simpl. unfold locate_first.
  unfold filters_find in H. rewrite (find_index_none _ _ H). reflexivity.
Qed.

Lemma sorting_remove_missing s (p : string) :
  sorting_find (ByProperty T p) s = None ->
  sorting_remove toStr (SortProperty p) s = Threw NotFoundError_descriptor s.
Proof.
  intros H. unfold sorting_remove, bind, get. simpl. rewrite H. reflexivity.
Qed.

Lemma toggleSortOrderBy_missing s (e : SortExpression T) :
  sorting_find e s = None ->
  toggleSortOrderBy toStr e s = Threw NotFoundError_sort s.
Proof.
  intros H. unfold toggleSortOrderBy, bind, get. rewrite H. reflexivity.
Qed.

(** X13. Asking for what is not there throws and changes nothing:
    [filters.remove] of a name no filter has, [sorting.remove] of a
    property no descriptor selects (with the filter collection's
    message), and [toggleSortOrderBy] of an expression no descriptor
    matches. *)
Theorem removing_what_is_missing_throws :
  forall (s : CollectionView T) (n p : string) (e : SortExpression T),
    filters_find n (filters s) = None ->
    sorting_find (ByProperty T p) s = None ->
    sorting_find e s = None ->
    filters_remove toStr (FilterNamed T n) s = Threw (JsError "Filter does not exists.") s /\
    sorting_remove toStr (SortProperty p) s = Threw (JsError "Filter does not exists.") s /\
    toggleSortOrderBy toStr e s = Threw (JsError "Could not find sort descriptor.") s.
Proof.
  intros s n p e H1 H2 H3.
  split; [apply filters_remove_missing; exact H1|].
  split; [apply sorting_remove_missing; exact H2|].
  apply toggleSortOrderBy_missing. exact H3.
Qed.

(** X14. Removing a filter object that is not in the collection is not
    refused. [indexOf] answers [-1], [splice(-1, 1)] takes the last
    filter out of the collection, and only then does the call throw,
    because the object given does not carry the forwarding handler; no
    change is raised. *)
Theorem filters_remove_outsider_drops_last :
  forall (s : CollectionView T) (outsider : CollectionViewFilter T),
    ~ In raiseChangedHandler (filter_handlers outsider) ->
    filters_remove toStr (FilterObject (Detached outsider)) s
    = Threw NotFoundError_handler
            (set_filter_items (removelast (filter_items (filters s))) s).
Proof.
  intros s outsider N. unfold filters_remove, bind, get, modify. simpl.
  rewrite (not_forwarding _ N). rewrite splice1_last. reflexivity.
Qed.

End FilterCollection.

(** ** The collections stay in order *)

Section ListUpdates.
Variable A : Type.

Lemma remove_at_Forall (P : A -> Prop) (n : nat) (l : list A) :
  Forall P l -> Forall P (JsArray.remove_at n l).
Proof.
  intros H. revert n. induction H as [|x t Hx Ht IH]; intros n.
  - destruct n; constructor.
  - destruct n; simpl; [exact Ht | constructor; [exact Hx | apply IH]].
Qed.

Lemma remove_at_In (n : nat) (l : list A) (x : A) :
  In x (JsArray.remove_at n l) -> In x l.
Proof.
  revert n. induction l as [|y t IH]; intros n.
  - destruct n; intros [].
  - destruct n; simpl; [intros H; right; exact H|].
    intros [<-|H]; [left; reflexivity | right; apply (IH n); exact H].
Qed.

Lemma remove_at_map (B : Type) (f : A -> B) (n : nat) (l : list A) :
  map f (JsArray.remove_at n l) = JsArray.remove_at n (map f l).
Proof.
  revert n. induction l as [|y t IH]; intros n.
  - destruct n; reflexivity.
  - destruct n; simpl; [reflexivity | rewrite IH; reflexivity].
Qed.

Lemma remove_at_NoDup (n : nat) (l : list A) : NoDup l -> NoDup (JsArray.remove_at n l).
Proof.
  intros H. revert n. induction H as [|x t Hx Ht IH]; intros n.
  - destruct n; constructor.
  - destruct n; simpl; [exact Ht|]. constructor; [|apply IH].
    intros Hin. apply Hx. apply (remove_at_In _ _ _ Hin).
Qed.

Lemma replace_nth_map (B : Type) (f : A -> B) (n : nat) (x y : A) (l : list A) :
  nth_error l n = Some y -> f x = f y -> map f (replace_nth n x l) = map f l.
Proof.
  revert n. induction l as [|z t IH]; intros n.
  - destruct n; reflexivity.
  - destruct n; simpl.
    + intros H E. inversion H; subst. rewrite E. reflexivity.
    + intros H E. rewrite (IH n H E). reflexivity.
Qed.

Lemma replace_nth_Forall (P : A -> Prop) (n : nat) (x : A) (l : list A) :
  P x -> Forall P l -> Forall P (replace_nth n x l).
Proof.
  intros Hx H. revert n. induction H as [|z t Hz Ht IH]; intros n.
  - destruct n; constructor.
  - destruct n; simpl; constructor; try assumption. apply IH.
Qed.

Section Unsubscribing.
Variable handlers : A -> list DescriptorChangedEventHandler.
Variable with_handlers : list DescriptorChangedEventHandler -> A -> A.

Lemma unsubscribe_all_finishes (l : list A) :
  Forall (fun d => In raiseChangedHandler (handlers d)) l ->
  snd (unsubscribe_all handlers with_handlers l) = true.
Proof.
  induction 1 as [|d t Hd Ht IH]; simpl; [reflexivity|].
  destruct (first_match is_raiseChangedHandler (handlers d)) as [N|(b & h & a & E1 & E2 & E3)].
  - specialize (N _ Hd). discriminate.
  - rewrite E1, (@removeEventListener_found _ is_raiseChangedHandler b a h E2 E3).
    destruct (unsubscribe_all handlers with_handlers t). simpl in *. exact IH.
Qed.

End Unsubscribing.
End ListUpdates.

Section Places.
Variable A : Type.

Lemma nth_error_replace_nth_same (l : list A) (n : nat) (x y : A) :
  nth_error l n = Some y -> nth_error (replace_nth n x l) n = Some x.
Proof.
  revert n. induction l as [|z t IH]; intros n.
  - destruct n; discriminate.
  - destruct n; simpl; [reflexivity | apply IH].
Qed.

Lemma nth_error_replace_nth_other (l : list A) (n m : nat) (x : A) :
  n <> m -> nth_error (replace_nth n x l) m = nth_error l m.
Proof.
  revert n m. induction l as [|z t IH]; intros n m H.
  - destruct n; reflexivity.
  - destruct n, m; simpl; try reflexivity; [contradiction|].
    apply IH. intros E. apply H. rewrite E. reflexivity.
Qed.

Lemma nth_error_replace_nth (l : list A) (n m : nat) (x : A) :
  nth_error (replace_nth n x l) m
  = if Nat.eqb n m then option_map (fun _ => x) (nth_error l m) else nth_error l m.
Proof.
  destruct (Nat.eqb_spec n m) as [<-|N].
  - destruct (nth_error l n) as [y|] eqn:E; simpl.
    + eapply nth_error_replace_nth_same. exact E.
    + revert n E. induction l as [|z t IH]; intros n E.
      * destruct n; reflexivity.
      * destruct n; simpl in *; [discriminate | apply IH; exact E].
  - apply nth_error_replace_nth_other. exact N.
Qed.

Lemma length_replace_nth (l : list A) (n : nat) (x : A) :
  length (replace_nth n x l) = length l.
Proof.
  revert n. induction l as [|z t IH]; intros n.
  - destruct n; reflexivity.
  - destruct n; simpl; [reflexivity | rewrite IH; reflexivity].
Qed.

Lemma replace_nth_middle (before after : list A) (x y : A) :
  replace_nth (length before) x (before ++ y :: after) = before ++ x :: after.
Proof. induction before as [|z t IH]; simpl; [reflexivity | rewrite IH; reflexivity]. Qed.

Lemma nth_error_middle (before after : list A) (y : A) :
  nth_error (before ++ y :: after) (length before) = Some y.
Proof. induction before as [|z t IH]; simpl; [reflexivity | exact IH]. Qed.

Lemma nth_error_grown (l : list A) (n : nat) (x y : A) :
  nth_error l n = Some y -> nth_error (l ++ [x]) n = Some y.
Proof.
  intros H. rewrite nth_error_app1; [exact H|].
  apply nth_error_Some. rewrite H. discriminate.
Qed.

End Places.

Section Occurrences.
Variable r : nat.

Lemma splice1_indexOf (A : Type) (same : A -> bool) (l : list A) :
  JsArray.splice1 (JsArray.indexOf same l) l
  = match Event.removeEventListener same l with
    | Some rest => rest
    | None => removelast l
    end.
Proof.
  unfold Event.removeEventListener.
  destruct (Z.eqb_spec (JsArray.indexOf same l) (-1)) as [E|_]; [|reflexivity].
  rewrite E. apply splice1_last.
Qed.

Lemma count_occ_removelast (l : list nat) (x : nat) :
  (count_occ Nat.eq_dec (removelast l) x <= count_occ Nat.eq_dec l x)%nat.
Proof.
  induction l as [|y l' _] using rev_ind; [apply Nat.le_refl|].
  rewrite removelast_last, count_occ_app. apply Nat.le_add_r.
Qed.

Lemma first_place (ds : list nat) :
  In r ds ->
  exists before after,
    ds = before ++ r :: after /\ ~ In r before /\
    JsArray.splice1 (JsArray.indexOf (Nat.eqb r) ds) ds = before ++ after.
Proof.
  intros Hin.
  destruct (first_match (Nat.eqb r) ds) as [N|(b & h & a & E1 & E2 & E3)].
  - specialize (N r Hin). rewrite Nat.eqb_refl in N. discriminate.
  - apply Nat.eqb_eq in E2. subst h. exists b, a.
    split; [exact E1|]. split.
    + intros Hb. specialize (E3 r Hb). rewrite Nat.eqb_refl in E3. discriminate.
    + rewrite splice1_indexOf, E1.
      rewrite (@removeEventListener_found _ (Nat.eqb r) b a r (Nat.eqb_refl r) E3).
      reflexivity.
Qed.

Lemma no_place (ds : list nat) :
  ~ In r ds ->
  JsArray.splice1 (JsArray.indexOf (Nat.eqb r) ds) ds = removelast ds.
Proof.
  intros N. rewrite splice1_indexOf.
  rewrite removeEventListener_absent; [reflexivity|].
  intros h Hh. destruct (Nat.eqb_spec r h) as [<-|_]; [contradiction | reflexivity].
Qed.

Lemma count_occ_spliced (ds : list nat) (x : nat) :
  (count_occ Nat.eq_dec (JsArray.splice1 (JsArray.indexOf (Nat.eqb r) ds) ds) x
   <= count_occ Nat.eq_dec ds x)%nat.
Proof.
  destruct (in_dec Nat.eq_dec r ds) as [Hin|N].
  - destruct (first_place ds Hin) as (b & a & E & _ & S). rewrite S, E.
    rewrite !count_occ_app. simpl. destruct (Nat.eq_dec r x); lia.
  - rewrite (no_place ds N). apply count_occ_removelast.
Qed.

Lemma count_occ_spliced_found (ds : list nat) :
  In r ds ->
  S (count_occ Nat.eq_dec (JsArray.splice1 (JsArray.indexOf (Nat.eqb r) ds) ds) r)
  = count_occ Nat.eq_dec ds r.
Proof.
  intros Hin. destruct (first_place ds Hin) as (b & a & E & _ & S). rewrite S, E.
  rewrite !count_occ_app. simpl. destruct (Nat.eq_dec r r) as [_|F]; [lia | contradiction].
Qed.

Lemma In_spliced (ds : list nat) (x : nat) :
  In x (JsArray.splice1 (JsArray.indexOf (Nat.eqb r) ds) ds) -> In x ds.
Proof.
  intros H. apply (count_occ_In Nat.eq_dec) in H.
  apply (count_occ_In Nat.eq_dec). pose proof (count_occ_spliced ds x). lia.
Qed.

End Occurrences.

Section Forwardings.
Variable T : Type.
Implicit Types d : CollectionViewSortingDescriptor T.

Lemma forwardings_added d : forwardings (forwarding_descriptor d) = S (forwardings d).
Proof.
  unfold forwardings, forwarding_descriptor, Event.addEventListener. simpl.
  rewrite filter_app, length_app. simpl. lia.
Qed.

Lemma forwardings_removed d hs :
  Event.removeEventListener is_raiseChangedHandler (descriptor_handlers d) = Some hs ->
  S (forwardings (with_descriptor_handlers hs d)) = forwardings d.
Proof.
  intros H. unfold forwardings. simpl.
  destruct (first_match is_raiseChangedHandler (descriptor_handlers d))
    as [N|(b & h & a & E1 & E2 & E3)].
  - rewrite removeEventListener_absent in H by exact N. discriminate.
  - rewrite E1 in H.
    rewrite (@removeEventListener_found _ is_raiseChangedHandler b a h E2 E3) in H.
    injection H as <-. rewrite E1, !filter_app, !length_app. simpl. rewrite E2. simpl. lia.
Qed.

Lemma forwardings_In d :
  (1 <= forwardings d)%nat -> In raiseChangedHandler (descriptor_handlers d).
Proof.
  intros H. unfold forwardings in H.
  destruct (filter is_raiseChangedHandler (descriptor_handlers d)) as [|h t] eqn:E;
    [simpl in H; lia|].
  assert (Hin : In h (filter is_raiseChangedHandler (descriptor_handlers d))).
  { rewrite E. left. reflexivity. }
  apply filter_In in Hin. destruct Hin as [Hin Hh].
  destruct h; [exact Hin | discriminate].
Qed.

Lemma forwardings_removable d :
  (1 <= forwardings d)%nat ->
  exists hs, Event.removeEventListener is_raiseChangedHandler (descriptor_handlers d) = Some hs.
Proof.
  intros H.
  destruct (first_match is_raiseChangedHandler (descriptor_handlers d))
    as [N|(b & h & a & E1 & E2 & E3)].
  - apply forwardings_In in H. specialize (N _ H). discriminate.
  - rewrite E1, (@removeEventListener_found _ is_raiseChangedHandler b a h E2 E3).
    eexists. reflexivity.
Qed.

End Forwardings.

Section InOrder.
Variable T : Type.
Variable toStr : T -> string.
Implicit Types s : CollectionView T.

Lemma registered_members s s' :
  descriptors (sorting s') = descriptors (sorting s) ->
  heap s' = heap s ->
  registered_in_order s -> registered_in_order s'.
Proof.
  unfold registered_in_order, deref, places. intros E2 E3 H. rewrite E2, E3. exact H.
Qed.

Lemma well_formed_members s s' :
  filter_items (filters s') = filter_items (filters s) ->
  descriptors (sorting s') = descriptors (sorting s) ->
  heap s' = heap s ->
  well_formed s -> well_formed s'.
Proof.
  unfold well_formed. intros E1 E2 E3 (W1 & W2 & W3). rewrite E1.
  split; [exact W1|]. split; [exact W2|].
  revert W3. apply registered_members; assumption.
Qed.

Lemma well_formed_settings s s' :
  settings s' = settings s -> well_formed s -> well_formed s'.
Proof.
  intros E. apply well_formed_members.
  - rewrite (settings_filters E). reflexivity.
  - rewrite (settings_sorting E). reflexivity.
  - apply (settings_heap E).
Qed.

Lemma well_formed_sorting s s' :
  filter_items (filters s') = filter_items (filters s) ->
  registered_in_order s' ->
  well_formed s -> well_formed s'.
Proof.
  unfold well_formed. intros E1 R (W1 & W2 & _). rewrite E1.
  split; [exact W1|]. split; [exact W2 | exact R].
Qed.

Lemma well_formed_filters s s' :
  NoDup (map (@name T) (filter_items (filters s'))) ->
  Forall (fun f => In raiseChangedHandler (filter_handlers f)) (filter_items (filters s')) ->
  descriptors (sorting s') = descriptors (sorting s) ->
  heap s' = heap s ->
  well_formed s -> well_formed s'.
Proof.
  intros N F E2 E3 (_ & _ & W3). split; [exact N|]. split; [exact F|].
  revert W3. apply registered_members; assumption.
Qed.

Lemma keeps_settings_well_formed (m : Call T unit) :
  keeps_settings m -> preserves (@well_formed T) m.
Proof. intros H s W. apply (well_formed_settings (H s)). exact W. Qed.

Lemma filters_add_taken arg s existing :
  filters_find (name (resolve_filter (filters s) arg)) (filters s) = Some existing ->
  filters_add toStr arg s
  = Threw (DuplicateNameError (name (resolve_filter (filters s) arg))) s.
Proof.
  intros H. unfold filters_add. unfold bind at 1. unfold get. cbv beta iota zeta.
  rewrite H. reflexivity.
Qed.

Lemma filters_add_well_formed arg : preserves (@well_formed T) (filters_add toStr arg).
Proof.
  intros s W.
  destruct (filters_find (name (resolve_filter (filters s) arg)) (filters s)) as [e|] eqn:E.
  - rewrite (filters_add_taken _ _ E). exact W.
  - apply (well_formed_settings (filters_add_fresh toStr arg s E)).
    revert W. intros W. pose proof W as (W1 & W2 & _). revert W.
    apply well_formed_filters; try reflexivity; simpl.
    + rewrite map_app. simpl.
      apply NoDup_app; [exact W1 | repeat constructor; intros [] | ].
      intros n Hn [<-|[]].
      apply in_map_iff in Hn. destruct Hn as (f & Hf1 & Hf2).
      pose proof (filters_find_missing _ _ E _ Hf2) as F.
      unfold forwarding in Hf1. simpl in Hf1. rewrite Hf1, String.eqb_refl in F.
      discriminate.
    + apply Forall_app. split; [exact W2|]. repeat constructor.
      unfold forwarding, Event.addEventListener. simpl.
      apply in_or_app. right. left. reflexivity.
Qed.

Lemma splice1_well_formed_filters s index :
  well_formed s ->
  well_formed (set_filter_items (JsArray.splice1 index (filter_items (filters s))) s).
Proof.
  intros W. pose proof W as (W1 & W2 & _). revert W.
  apply well_formed_filters; try reflexivity; unfold JsArray.splice1; simpl.
  - rewrite remove_at_map. apply remove_at_NoDup. exact W1.
  - apply remove_at_Forall. exact W2.
Qed.

Lemma filters_remove_well_formed p : preserves (@well_formed T) (filters_remove toStr p).
Proof.
  intros s W. unfold filters_remove. unfold bind at 1. unfold get. cbv beta iota.
  destruct (locate_filter p (filter_items (filters s))) as [| |index f]; try exact W.
  unfold bind at 1. unfold modify.
  destruct (Event.removeEventListener is_raiseChangedHandler (filter_handlers f)).
  - apply (well_formed_settings (filters_raiseChanged_settings toStr _)).
    apply splice1_well_formed_filters. exact W.
  - apply splice1_well_formed_filters. exact W.
Qed.

Lemma filters_clear_subscribed s :
  Forall (fun f => In raiseChangedHandler (filter_handlers f)) (filter_items (filters s)) ->
  settings (state_after (filters_clear toStr s)) = settings (set_filter_items [] s).
Proof.
  intros H. unfold filters_clear. unfold bind at 1. unfold get. cbv beta iota.
  pose proof (unsubscribe_all_finishes (@filter_handlers T) (@with_filter_handlers T) H) as F.
  destruct (unsubscribe_all (@filter_handlers T) (@with_filter_handlers T)
                            (filter_items (filters s))) as [items finished].
  simpl in F. subst finished.
  unfold bind at 1. unfold modify. unfold bind at 1.
  rewrite filters_raiseChanged_settings. reflexivity.
Qed.

Lemma filters_clear_well_formed : preserves (@well_formed T) (filters_clear toStr).
Proof.
  intros s W. apply (well_formed_settings (filters_clear_subscribed s (proj1 (proj2 W)))).
  revert W. apply well_formed_filters; try reflexivity; constructor.
Qed.

Lemma predicate_set_well_formed r value :
  preserves (@well_formed T) (predicate_set toStr r value).
Proof.
  intros s W. unfold predicate_set. unfold bind at 1. unfold get. cbv beta iota.
  destruct r as [i|f].
  - destruct (nth_error (filter_items (filters s)) i) as [f|] eqn:E; [|exact W].
    unfold bind at 1. unfold modify.
    apply (well_formed_settings (filter_raiseChanged_settings toStr _ _)).
    pose proof W as (W1 & W2 & _). revert W.
    apply well_formed_filters; try reflexivity; simpl.
    + erewrite replace_nth_map; [exact W1 | exact E | reflexivity].
    + apply replace_nth_Forall; [|exact W2].
      simpl. rewrite Forall_forall in W2. apply W2. apply (nth_error_In _ _ E).
  - apply (well_formed_settings (filter_raiseChanged_settings toStr _ _)). exact W.
Qed.

(** The sorting collection. *)

Lemma registered_grown s (d : CollectionViewSortingDescriptor T) :
  registered_in_order s -> registered_in_order (set_heap (heap s ++ [d]) s).
Proof.
  intros W r Hin. destruct (W r Hin) as (d0 & E & C).
  exists d0. split; [|exact C].
  unfold deref in *. simpl. eapply nth_error_grown. exact E.
Qed.

Lemma registered_pushed s (r : nat) (d : CollectionViewSortingDescriptor T) :
  deref s r = Some d ->
  registered_in_order s ->
  registered_in_order
    (set_descriptors (descriptors (sorting s) ++ [r])
                     (set_object r (forwarding_descriptor d) s)).
Proof.
  intros E W r' Hin. unfold registered_in_order, deref, places in *. simpl in *.
  rewrite nth_error_replace_nth, count_occ_app. simpl.
  destruct (Nat.eqb_spec r r') as [<-|N].
  - rewrite E. simpl. eexists. split; [reflexivity|].
    rewrite forwardings_added.
    destruct (Nat.eq_dec r r) as [_|F]; [|contradiction].
    destruct (in_dec Nat.eq_dec r (descriptors (sorting s))) as [I|I].
    + destruct (W r I) as (d0 & E0 & C). rewrite E in E0. injection E0 as <-. lia.
    + rewrite (proj1 (count_occ_not_In Nat.eq_dec _ _) I). lia.
  - destruct (Nat.eq_dec r r') as [F|_]; [contradiction|].
    apply in_app_or in Hin. destruct Hin as [I|[F|[]]]; [|contradiction].
    destruct (W r' I) as (d0 & E0 & C). exists d0. split; [exact E0 | lia].
Qed.

Lemma register_settings s (r : nat) (d : CollectionViewSortingDescriptor T) :
  deref s r = Some d ->
  settings (state_after (register toStr r s))
  = settings (set_descriptors (descriptors (sorting s) ++ [r])
                              (set_object r (forwarding_descriptor d) s)).
Proof.
  intros E. unfold register. unfold bind at 1. unfold get. cbv beta iota.
  rewrite E. unfold bind at 1. unfold modify. unfold bind at 1.
  rewrite sorting_raiseChanged_settings. reflexivity.
Qed.

Lemma register_missing s (r : nat) :
  deref s r = None -> register toStr r s = Returned tt s.
Proof. intros E. unfold register, bind, get. rewrite E. reflexivity. Qed.

Lemma register_well_formed (r : nat) : preserves (@well_formed T) (register toStr r).
Proof.
  intros s W. destruct (deref s r) as [d|] eqn:E.
  - apply (well_formed_settings (register_settings s r E)).
    eapply well_formed_sorting; cycle 2; [exact W | reflexivity |].
    apply registered_pushed; [exact E|]. apply W.
  - rewrite register_missing by exact E. exact W.
Qed.

Lemma allocate_returned s (d : CollectionViewSortingDescriptor T) :
  allocate d s = Returned (length (heap s)) (set_heap (heap s ++ [d]) s).
Proof. reflexivity. Qed.

Lemma well_formed_grown s (d : CollectionViewSortingDescriptor T) :
  well_formed s -> well_formed (set_heap (heap s ++ [d]) s).
Proof.
  intros W. eapply well_formed_sorting; cycle 2; [exact W | reflexivity |].
  apply registered_grown. apply W.
Qed.

Lemma sorting_add_well_formed arg direction property_comparer :
  preserves (@well_formed T) (sorting_add toStr arg direction property_comparer).
Proof.
  intros s W. unfold sorting_add.
  destruct arg as [r|[p|f|c|]]; try exact W;
    try (unfold bind at 1; rewrite allocate_returned;
         apply register_well_formed; apply well_formed_grown; exact W).
  apply register_well_formed. exact W.
Qed.

Lemma registered_spliced s (r : nat) :
  registered_in_order s ->
  registered_in_order
    (set_descriptors
       (JsArray.splice1 (JsArray.indexOf (Nat.eqb r) (descriptors (sorting s)))
                        (descriptors (sorting s))) s).
Proof.
  intros W r' Hin. unfold registered_in_order, deref, places in *. simpl in *.
  destruct (W r' (In_spliced _ _ _ Hin)) as (d0 & E0 & C).
  exists d0. split; [exact E0|].
  pose proof (count_occ_spliced r (descriptors (sorting s)) r'). lia.
Qed.

Lemma registered_removed s (r : nat) (d : CollectionViewSortingDescriptor T)
      (hs : list DescriptorChangedEventHandler) :
  deref s r = Some d ->
  Event.removeEventListener is_raiseChangedHandler (descriptor_handlers d) = Some hs ->
  registered_in_order s ->
  registered_in_order
    (set_object r (with_descriptor_handlers hs d)
       (set_descriptors
          (JsArray.splice1 (JsArray.indexOf (Nat.eqb r) (descriptors (sorting s)))
                           (descriptors (sorting s))) s)).
Proof.
  intros E Hrem W r' Hin. unfold registered_in_order, deref, places in *. simpl in *.
  rewrite nth_error_replace_nth.
  pose proof (In_spliced _ _ _ Hin) as I.
  destruct (W r' I) as (d0 & E0 & C).
  destruct (Nat.eqb_spec r r') as [<-|N].
  - rewrite E. simpl. eexists. split; [reflexivity|].
    rewrite E in E0. injection E0 as <-.
    pose proof (forwardings_removed _ Hrem).
    pose proof (@count_occ_spliced_found r _ I). lia.
  - exists d0. split; [exact E0|].
    pose proof (count_occ_spliced r (descriptors (sorting s)) r'). lia.
Qed.

Lemma sorting_remove_well_formed p : preserves (@well_formed T) (sorting_remove toStr p).
Proof.
  intros s W. unfold sorting_remove. unfold bind at 1. unfold get. cbv beta iota.
  destruct (locate_descriptor p s) as [r|]; [|exact W].
  destruct (deref s r) as [d|] eqn:E; [|exact W].
  unfold bind at 1. unfold modify.
  destruct (Event.removeEventListener is_raiseChangedHandler (descriptor_handlers d))
    as [hs|] eqn:Hrem.
  - unfold bind at 1.
    apply (well_formed_settings (sorting_raiseChanged_settings toStr _)).
    eapply well_formed_sorting; cycle 2; [exact W | reflexivity |].
    apply (registered_removed _ E Hrem). apply W.
  - eapply well_formed_sorting; cycle 2; [exact W | reflexivity |].
    apply registered_spliced. apply W.
Qed.

Lemma unsubscribe_each (rest : list nat) s :
  (forall r, In r rest ->
             exists d, deref s r = Some d
                       /\ (count_occ Nat.eq_dec rest r <= forwardings d)%nat) ->
  exists h, forEach rest (@unsubscribe T) s = Returned tt (set_heap h s)
            /\ length h = length (heap s).
Proof.
  revert s. induction rest as [|r0 rest IH]; intros s H.
  - exists (heap s). split; [destruct s; reflexivity | reflexivity].
  - destruct (H r0 (or_introl eq_refl)) as (d & E & C).
    simpl in C. destruct (Nat.eq_dec r0 r0) as [_|F]; [|contradiction].
    destruct (@forwardings_removable T d) as (hs & Hrem); [lia|].
    assert (U : unsubscribe r0 s = Returned tt (set_object r0 (with_descriptor_handlers hs d) s)).
    { unfold unsubscribe, bind, get. rewrite E, Hrem. reflexivity. }
    simpl. unfold bind. rewrite U.
    destruct (IH (set_object r0 (with_descriptor_handlers hs d) s)) as (h & Eh & L).
    + intros r Hin. unfold deref in *. simpl. rewrite nth_error_replace_nth.
      destruct (Nat.eqb_spec r0 r) as [<-|N].
      * rewrite E. simpl. eexists. split; [reflexivity|].
        pose proof (forwardings_removed _ Hrem). lia.
      * destruct (H r (or_intror Hin)) as (d0 & E0 & C0). exists d0.
        split; [exact E0|]. simpl in C0.
        destruct (Nat.eq_dec r0 r) as [F|_]; [contradiction | exact C0].
    + exists h. split; [exact Eh|]. rewrite L. simpl. apply length_replace_nth.
Qed.

Lemma sorting_clear_settings s :
  registered_in_order s ->
  exists h,
    settings (state_after (sorting_clear toStr s))
    = settings (set_descriptors [] (set_heap h s))
    /\ length h = length (heap s).
Proof.
  intros W. destruct (unsubscribe_each (descriptors (sorting s)) s W) as (h & E & L).
  exists h. split; [|exact L].
  unfold sorting_clear. unfold bind at 1. unfold get. cbv beta iota.
  unfold bind at 1. rewrite E. unfold bind at 1. unfold modify.
  rewrite sorting_raiseChanged_settings. reflexivity.
Qed.

Lemma sorting_clear_well_formed : preserves (@well_formed T) (sorting_clear toStr).
Proof.
  intros s W. destruct (sorting_clear_settings (proj2 (proj2 W))) as (h & E & _).
  apply (well_formed_settings E).
  eapply well_formed_sorting; cycle 2; [exact W | reflexivity |]. intros r [].
Qed.

Lemma registered_assigned s (r : nat) (d d' : CollectionViewSortingDescriptor T) :
  deref s r = Some d ->
  forwardings d' = forwardings d ->
  registered_in_order s -> registered_in_order (set_object r d' s).
Proof.
  intros E F W r' Hin. unfold registered_in_order, deref, places in *. simpl in *.
  rewrite nth_error_replace_nth.
  destruct (W r' Hin) as (d0 & E0 & C).
  destruct (Nat.eqb_spec r r') as [<-|N].
  - rewrite E. simpl. eexists. split; [reflexivity|].
    rewrite E in E0. injection E0 as <-. lia.
  - exists d0. split; [exact E0 | exact C].
Qed.

Lemma direction_set_settings s (r : nat) (d : CollectionViewSortingDescriptor T) value :
  deref s r = Some d ->
  settings (state_after (direction_set toStr r value s))
  = settings (set_object r (with_direction value d) s).
Proof.
  intros E. unfold direction_set. unfold bind at 1. unfold get. cbv beta iota.
  rewrite E. unfold bind at 1. unfold modify.
  rewrite descriptor_raiseChanged_settings. reflexivity.
Qed.

Lemma direction_set_missing s (r : nat) value :
  deref s r = None -> direction_set toStr r value s = Returned tt s.
Proof. intros E. unfold direction_set, bind, get. rewrite E. reflexivity. Qed.

Lemma direction_set_well_formed r value :
  preserves (@well_formed T) (direction_set toStr r value).
Proof.
  intros s W. destruct (deref s r) as [d|] eqn:E.
  - apply (well_formed_settings (@direction_set_settings s r d value E)).
    eapply well_formed_sorting; cycle 2; [exact W | reflexivity |].
    eapply registered_assigned; [exact E | reflexivity | apply W].
  - rewrite direction_set_missing by exact E. exact W.
Qed.

End InOrder.

Section EveryCallInOrder.
Variable T : Type.
Variable toStr : T -> string.

Lemma preserves_members (f : CollectionView T -> CollectionView T) :
  (forall s, filter_items (filters (f s)) = filter_items (filters s)
             /\ descriptors (sorting (f s)) = descriptors (sorting s)
             /\ heap (f s) = heap s) ->
  preserves (@well_formed T) (modify f).
Proof.
  intros H. apply preserves_modify. intros s W.
  destruct (H s) as (E1 & E2 & E3). revert W. apply well_formed_members; assumption.
Qed.

Lemma allocate_well_formed (d : CollectionViewSortingDescriptor T) :
  preserves (@well_formed T) (allocate d).
Proof. intros s W. rewrite allocate_returned. apply well_formed_grown. exact W. Qed.

Create HintDb orderly discriminated.

#[local] Hint Resolve filters_add_well_formed filters_remove_well_formed
  filters_clear_well_formed predicate_set_well_formed sorting_add_well_formed
  sorting_remove_well_formed sorting_clear_well_formed direction_set_well_formed
  allocate_well_formed : orderly.

Ltac orderly :=
  repeat first
    [ assumption
    | solve [auto with orderly]
    | progress unfold run_collection_handler, run_descriptor_handler
    | apply preserves_ret | apply preserves_throw | apply preserves_get
    | apply preserves_bind; [| intros ?]
    | apply preserves_forEach; intros ?
    | apply preserves_members; intros ?; split; [|split]; reflexivity
    | progress cbv beta zeta
    | match goal with
      | |- preserves _ (match ?x with _ => _ end) => destruct x
      end ].

Lemma applyPaging_well_formed : preserves (@well_formed T) (@applyPaging T).
Proof. apply keeps_settings_well_formed. intros s. apply applyPaging_settings. Qed.

Lemma applySorting_well_formed : preserves (@well_formed T) (applySorting toStr).
Proof. apply keeps_settings_well_formed. intros s. apply applySorting_settings. Qed.

Lemma applyFilters_well_formed : preserves (@well_formed T) (applyFilters toStr).
Proof. apply keeps_settings_well_formed. intros s. apply applyFilters_settings. Qed.

#[local] Hint Resolve applyPaging_well_formed applySorting_well_formed
  applyFilters_well_formed : orderly.

Lemma toggle_well_formed r : preserves (@well_formed T) (toggle toStr r).
Proof. unfold toggle. orderly. Qed.
#[local] Hint Resolve toggle_well_formed : orderly.

Lemma pageSize_set_well_formed v : preserves (@well_formed T) (@pageSize_set T v).
Proof. unfold pageSize_set. orderly. Qed.

Lemma pageIndex_set_well_formed v : preserves (@well_formed T) (@pageIndex_set T v).
Proof. unfold pageIndex_set. orderly. Qed.
#[local] Hint Resolve pageSize_set_well_formed pageIndex_set_well_formed : orderly.

Lemma perform_well_formed op : preserves (@well_formed T) (perform toStr op).
Proof.
  destruct op; simpl;
    unfold setData, filter_set, sort, toggleSortOrder, toggleSortOrderBy,
      page, goToPage, goToPreviousPage, goToNextPage,
      canNavigateToPreviousPage, canNavigateToNextPage,
      changed_addEventListener, changed_removeEventListener,
      filters_changed_addEventListener, sorting_changed_addEventListener;
    orderly.
Qed.

Lemma construct_well_formed source : preserves (@well_formed T) (construct toStr source).
Proof. unfold construct, setData. orderly. Qed.

Lemma fresh_well_formed : well_formed (fresh T).
Proof.
  split; [apply NoDup_nil|]. split; [apply Forall_nil | intros r []].
Qed.

Lemma reachable_well_formed (s : CollectionView T) : reachable toStr s -> well_formed s.
Proof.
  intros (source & s0 & H0 & Hreach).
  assert (W0 : well_formed s0).
  { pose proof (construct_well_formed source fresh_well_formed) as W.
    unfold new_CollectionView in H0. rewrite H0 in W. exact W. }
  clear H0. induction Hreach as [|s op _ IH]; [exact W0|].
  unfold after. apply perform_well_formed. exact IH.
Qed.

Lemma registered_forward (s : CollectionView T) :
  registered_in_order s ->
  Forall (fun d => In raiseChangedHandler (descriptor_handlers d)) (sorting_getAll s).
Proof.
  unfold registered_in_order, sorting_getAll, places, deref. intros W.
  assert (G : forall refs,
             (forall r, In r refs -> In r (descriptors (sorting s))) ->
             Forall (fun d => In raiseChangedHandler (descriptor_handlers d))
                    (objects_of (heap s) refs)).
  { induction refs as [|r refs IH]; intros Sub; simpl; [apply Forall_nil|].
    destruct (W r (Sub r (or_introl eq_refl))) as (d & E & C). rewrite E.
    apply Forall_cons.
    - apply forwardings_In.
      pose proof (proj1 (count_occ_In Nat.eq_dec _ _) (Sub r (or_introl eq_refl))). lia.
    - apply IH. intros r' Hr'. apply Sub. right. exact Hr'. }
  apply G. intros r Hr. exact Hr.
Qed.

(** X15. Whatever calls a view has gone through, the names of its
    filters are distinct, and every filter and every sort descriptor it
    holds still forwards its change notifications to its collection: a
    sort descriptor that the array refers to more than once has the
    collection's forwarding handler at least once for each place. *)
Theorem collections_stay_well_formed (s : CollectionView T) :
  reachable toStr s ->
  well_formed s /\
  Forall (fun d => In raiseChangedHandler (descriptor_handlers d)) (sorting_getAll s).
Proof.
  intros R. pose proof (reachable_well_formed R) as W.
  split; [exact W|]. apply registered_forward. apply W.
Qed.

End EveryCallInOrder.

(** ** Calls that suppress the recomputation while they change a collection *)

Section Quiet.
Variable T : Type.
Variable toStr : T -> string.
Implicit Types s : CollectionView T.

Lemma silent_forEach (Q : CollectionView T -> Prop) (A : Type) (body : A -> Call T unit) :
  (forall x, silent Q (body x)) -> forall xs, silent Q (forEach xs body).
Proof.
  intros H xs. induction xs as [|x xs IH]; intros s Hs; simpl.
  - exists s. split; [reflexivity | exact Hs].
  - unfold bind. destruct (H x s Hs) as (s1 & E1 & Q1). rewrite E1. apply IH. exact Q1.
Qed.


Lemma applySorting_suppressed s :
  suppressSorting s = true -> applySorting toStr s = Returned tt s.
Proof. intros H. unfold applySorting, bind, get. rewrite H. reflexivity. Qed.


Lemma sorting_raiseChanged_quiet s :
  suppressSorting s = true ->
  exists s', sorting_raiseChanged toStr s = Returned tt s'
             /\ settings s' = settings s /\ stages s' = stages s.
Proof.
  intros H. unfold sorting_raiseChanged. unfold bind at 1. unfold modify.
  unfold bind at 1. unfold get.
  apply (@silent_forEach (fixed (settings s) (stages s)) _
           (run_collection_handler (applySorting toStr))).
  - intros [|n] st [F1 F2]; simpl.
    + exists st. split; [|split; assumption].
      apply applySorting_suppressed. rewrite (settings_suppressSorting F1). exact H.
    + exists st. split; [reflexivity | split; assumption].
  - split; reflexivity.
Qed.

Lemma descriptor_raiseChanged_quiet (r : nat) s :
  suppressSorting s = true ->
  exists s', descriptor_raiseChanged toStr r s = Returned tt s'
             /\ settings s' = settings s /\ stages s' = stages s.
Proof.
  intros H. unfold descriptor_raiseChanged. unfold bind at 1. unfold modify.
  unfold bind at 1. unfold get. cbv beta iota.
  match goal with
  | |- context [deref ?st r] => destruct (deref st r) as [d|]
  end.
  - apply (@silent_forEach (fixed (settings s) (stages s)) _
             (run_descriptor_handler (sorting_raiseChanged toStr))).
    + intros [|n] st [F1 F2]; simpl.
      * destruct (sorting_raiseChanged_quiet st) as (s' & E & G1 & G2).
        { rewrite (settings_suppressSorting F1). exact H. }
        exists s'. split; [exact E|]. split; congruence.
      * exists st. split; [reflexivity | split; assumption].
    + split; reflexivity.
  - eexists. split; [reflexivity|]. split; reflexivity.
Qed.


Lemma sorting_clear_quiet s :
  registered_in_order s -> suppressSorting s = true ->
  exists s' h, sorting_clear toStr s = Returned tt s'
               /\ settings s' = settings (set_descriptors [] (set_heap h s))
               /\ stages s' = stages s.
Proof.
  intros W H. destruct (unsubscribe_each (descriptors (sorting s)) s W) as (h & E & _).
  destruct (sorting_raiseChanged_quiet (set_descriptors [] (set_heap h s)) H)
    as (s' & E' & G1 & G2).
  exists s', h. split; [|split; [exact G1 | exact G2]].
  unfold sorting_clear. unfold bind at 1. unfold get. cbv beta iota.
  unfold bind at 1. rewrite E. unfold bind at 1. unfold modify. exact E'.
Qed.


Lemma register_quiet (r : nat) (d : CollectionViewSortingDescriptor T) s :
  suppressSorting s = true ->
  deref s r = Some d ->
  exists s', register toStr r s = Returned tt s'
             /\ settings s'
                = settings (set_descriptors (descriptors (sorting s) ++ [r])
                                            (set_object r (forwarding_descriptor d) s))
             /\ stages s' = stages s.
Proof.
  intros H E. unfold register. unfold bind at 1. unfold get. cbv beta iota.
  rewrite E. unfold bind at 1. unfold modify. unfold bind at 1.
  match goal with
  | |- exists s', sorting_raiseChanged _ ?st = _ /\ _ =>
      destruct (sorting_raiseChanged_quiet st H) as (s' & E' & G1 & G2)
  end.
  exists s'. split; [exact E'|]. split; [exact G1 | exact G2].
Qed.

Lemma settings_registered s (d : CollectionViewSortingDescriptor T) :
  settings (set_descriptors (descriptors (sorting s) ++ [length (heap s)])
              (set_object (length (heap s)) (forwarding_descriptor d)
                          (set_heap (heap s ++ [d]) s)))
  = settings (set_descriptors (descriptors (sorting s) ++ [length (heap s)])
                (set_heap (heap s ++ [forwarding_descriptor d]) s)).
Proof.
  unfold settings, set_object. simpl.
  rewrite (replace_nth_middle (heap s) [] (forwarding_descriptor d) d). reflexivity.
Qed.

Lemma sorting_add_quiet expression direction property_comparer s :
  suppressSorting s = true ->
  buildable expression = true ->
  exists s', sorting_add toStr (GivenExpression expression) direction property_comparer s
             = Returned tt s'
             /\ settings s'
                = settings (set_descriptors (descriptors (sorting s) ++ [length (heap s)])
                              (set_heap (heap s
                                         ++ [forwarding_descriptor
                                               (built expression direction property_comparer)])
                                        s))
             /\ stages s' = stages s.
Proof.
  intros H B.
  assert (G : forall d : CollectionViewSortingDescriptor T,
             exists s', bind (allocate d) (register toStr) s = Returned tt s'
                        /\ settings s'
                           = settings (set_descriptors
                                         (descriptors (sorting s) ++ [length (heap s)])
                                         (set_heap (heap s ++ [forwarding_descriptor d]) s))
                        /\ stages s' = stages s).
  { intros d. unfold bind at 1. rewrite allocate_returned.
    destruct (@register_quiet (length (heap s)) d (set_heap (heap s ++ [d]) s) H)
      as (s' & E' & G1 & G2).
    { unfold deref. simpl. apply (nth_error_middle (heap s) [] d). }
    exists s'. split; [exact E'|]. split; [|exact G2].
    rewrite G1. exact (settings_registered s d). }
  unfold sorting_add. destruct expression as [p|f|c|]; try discriminate B; apply G.
Qed.

End Quiet.

Section Effects.
Variable T : Type.
Variable toStr : T -> string.
Implicit Types s : CollectionView T.

Lemma bind_returned (A B : Type) (m : Call T A) (k : A -> Call T B) s (a : A) s1 :
  m s = Returned a s1 -> bind m k s = k a s1.
Proof. intros E. unfold bind. rewrite E. reflexivity. Qed.


Lemma settings_set_suppressSorting b s s' :
  settings s = settings s' ->
  settings (set_suppressSorting b s) = settings (set_suppressSorting b s').
Proof. unfold settings. simpl. intros E. injection E. intros. congruence. Qed.


Lemma settings_set_descriptors v s s' :
  settings s = settings s' ->
  settings (set_descriptors v s) = settings (set_descriptors v s').
Proof. unfold settings. simpl. intros E. injection E. intros. congruence. Qed.

Lemma settings_set_heap v s s' :
  settings s = settings s' -> settings (set_heap v s) = settings (set_heap v s').
Proof. unfold settings. simpl. intros E. injection E. intros. congruence. Qed.




Lemma sort_steps s expression direction :
  well_formed s ->
  buildable expression = true ->
  exists s3 h,
    sort toStr expression direction s = applySorting toStr (set_suppressSorting false s3)
    /\ settings s3
       = settings (set_descriptors [length h]
                     (set_heap (h ++ [sole_descriptor expression direction])
                               (set_suppressSorting true s)))
    /\ stages s3 = stages s.
Proof.
  intros W B. unfold sort.
  erewrite bind_returned; [|reflexivity].
  assert (W1 : registered_in_order (set_suppressSorting true s)).
  { eapply registered_members; [| |apply W]; reflexivity. }
  destruct (sorting_clear_quiet toStr W1 eq_refl) as (s2 & h & E2 & G2 & F2).
  erewrite bind_returned; [|exact E2].
  assert (H2 : suppressSorting s2 = true).
  { rewrite (settings_suppressSorting G2). reflexivity. }
  destruct (@sorting_add_quiet T toStr expression
              (Some (match direction with Some d => d | None => Ascending end)) None s2 H2 B)
    as (s3 & E3 & G3 & F3).
  erewrite bind_returned; [|exact E3].
  erewrite bind_returned; [|reflexivity].
  exists s3, h. split; [reflexivity|]. split; [|rewrite F3; exact F2].
  rewrite G3, (settings_sorting G2), (settings_heap G2). simpl.
  rewrite (settings_set_descriptors _ (settings_set_heap _ G2)). reflexivity.
Qed.


Lemma sort_other s direction :
  well_formed s ->
  exists s2 h,
    sort toStr ByOther direction s = Threw TypeError s2
    /\ settings s2 = settings (set_descriptors [] (set_heap h (set_suppressSorting true s)))
    /\ stages s2 = stages s.
Proof.
  intros W. unfold sort.
  erewrite bind_returned; [|reflexivity].
  assert (W1 : registered_in_order (set_suppressSorting true s)).
  { eapply registered_members; [| |apply W]; reflexivity. }
  destruct (sorting_clear_quiet toStr W1 eq_refl) as (s2 & h & E2 & G2 & F2).
  erewrite bind_returned; [|exact E2].
  exists s2, h. split; [reflexivity|]. split; [exact G2 | exact F2].
Qed.

Lemma toggle_quiet (r : nat) s :
  suppressSorting s = true ->
  exists s', toggle toStr r s = Returned tt s'
             /\ settings s'
                = settings (set_heap (match nth_error (heap s) r with
                                      | Some d => replace_nth r (flipped d) (heap s)
                                      | None => heap s
                                      end) s)
             /\ stages s' = stages s.
Proof.
  intros H. unfold toggle. unfold bind at 1. unfold get. cbv beta iota.
  unfold deref at 1. destruct (nth_error (heap s) r) as [d|] eqn:E.
  - unfold direction_set. unfold bind at 1. unfold get. cbv beta iota.
    unfold deref at 1. rewrite E. unfold bind at 1. unfold modify.
    match goal with
    | |- exists s', descriptor_raiseChanged _ _ ?st = _ /\ _ =>
        destruct (descriptor_raiseChanged_quiet toStr r st H) as (s' & E' & G1 & G2)
    end.
    exists s'. split; [exact E'|]. split; [exact G1 | exact G2].
  - exists s. split; [reflexivity|]. split; reflexivity.
Qed.

Lemma toggle_each_quiet (refs : list nat) s :
  suppressSorting s = true ->
  exists s', forEach refs (toggle toStr) s = Returned tt s'
             /\ settings s' = settings (set_heap (flipped_at refs (heap s)) s)
             /\ stages s' = stages s.
Proof.
  revert s. induction refs as [|r refs IH]; intros s H.
  - exists s. split; [reflexivity|]. split; reflexivity.
  - destruct (toggle_quiet r s H) as (s1 & E1 & G1 & F1).
    assert (H1 : suppressSorting s1 = true).
    { rewrite (settings_suppressSorting G1). exact H. }
    destruct (IH s1 H1) as (s' & E' & G' & F').
    exists s'. simpl forEach. erewrite bind_returned; [|exact E1].
    split; [exact E'|]. split; [|congruence].
    rewrite G', (settings_heap G1), (settings_set_heap _ G1). reflexivity.
Qed.

Lemma toggleSortOrder_steps s :
  exists s3,
    toggleSortOrder toStr s = applySorting toStr (set_suppressSorting false s3)
    /\ settings s3
       = settings (set_heap (flipped_at (descriptors (sorting s)) (heap s))
                            (set_suppressSorting true s))
    /\ stages s3 = stages s.
Proof.
  unfold toggleSortOrder.
  erewrite bind_returned; [|reflexivity].
  erewrite bind_returned; [|reflexivity].
  destruct (@toggle_each_quiet (descriptors (sorting (set_suppressSorting true s)))
              (set_suppressSorting true s) eq_refl) as (s3 & E3 & G3 & F3).
  erewrite bind_returned; [|exact E3].
  erewrite bind_returned; [|reflexivity].
  exists s3. split; [reflexivity | split; [exact G3 | exact F3]].
Qed.



Lemma flipped_at_cons (r0 : nat) (refs : list nat)
      (h : list (CollectionViewSortingDescriptor T)) :
  flipped_at (r0 :: refs) h
  = flipped_at refs (match nth_error h r0 with
                     | Some d => replace_nth r0 (flipped d) h
                     | None => h
                     end).
Proof. reflexivity. Qed.

Lemma nth_flipped_at (refs : list nat) (h : list (CollectionViewSortingDescriptor T))
      (r : nat) :
  nth_error (flipped_at refs h) r
  = option_map (Nat.iter (count_occ Nat.eq_dec refs r) (@flipped T)) (nth_error h r).
Proof.
  revert h. induction refs as [|r0 refs IH]; intros h.
  - simpl. destruct (nth_error h r); reflexivity.
  - rewrite flipped_at_cons, IH. simpl count_occ.
    destruct (Nat.eq_dec r0 r) as [<-|N].
    + destruct (nth_error h r0) as [d|] eqn:E.
      * rewrite (nth_error_replace_nth_same _ _ _ E). cbn [option_map].
        f_equal. symmetry. apply Nat.iter_succ_r.
      * rewrite E. reflexivity.
    + destruct (nth_error h r0) as [d|]; [|reflexivity].
      rewrite nth_error_replace_nth_other by exact N. reflexivity.
Qed.


End Effects.

(** ** No call leaves the recomputation held back *)

Section EveryCallAtRest.
Variable T : Type.
Variable toStr : T -> string.
Variable a : bool.

Lemma preserves_flags (f : CollectionView T -> CollectionView T) :
  (forall s, suppressFiltering (f s) = suppressFiltering s) ->
  preserves (filtering_is (T:=T) a) (modify f).
Proof.
  intros H. apply preserves_modify. intros s H1.
  unfold filtering_is in *. rewrite H. exact H1.
Qed.

Lemma keeps_settings_filtering_is (m : Call T unit) :
  keeps_settings m -> preserves (filtering_is (T:=T) a) m.
Proof.
  intros H s H1. specialize (H s). unfold filtering_is in *.
  rewrite (settings_suppressFiltering H). exact H1.
Qed.

Create HintDb flagged discriminated.

Ltac flagged :=
  repeat first
    [ assumption
    | solve [auto with flagged]
    | progress unfold run_collection_handler, run_descriptor_handler
    | apply preserves_ret | apply preserves_throw | apply preserves_get
    | apply preserves_bind; [| intros ?]
    | apply preserves_forEach; intros ?
    | apply preserves_flags; intros ?; reflexivity
    | progress cbv beta zeta
    | match goal with
      | |- preserves _ (match ?x with _ => _ end) => destruct x
      | |- preserves _ (let (_, _) := ?x in _) => destruct x
      end ].

Lemma applyPaging_filtering_is : preserves (filtering_is (T:=T) a) (@applyPaging T).
Proof. apply keeps_settings_filtering_is. intros s. apply applyPaging_settings. Qed.

Lemma applySorting_filtering_is : preserves (filtering_is (T:=T) a) (applySorting toStr).
Proof. apply keeps_settings_filtering_is. intros s. apply applySorting_settings. Qed.

Lemma applyFilters_filtering_is : preserves (filtering_is (T:=T) a) (applyFilters toStr).
Proof. apply keeps_settings_filtering_is. intros s. apply applyFilters_settings. Qed.

Lemma filters_raiseChanged_filtering_is :
  preserves (filtering_is (T:=T) a) (filters_raiseChanged toStr).
Proof. apply keeps_settings_filtering_is. apply filters_raiseChanged_settings. Qed.

Lemma sorting_raiseChanged_filtering_is :
  preserves (filtering_is (T:=T) a) (sorting_raiseChanged toStr).
Proof. apply keeps_settings_filtering_is. apply sorting_raiseChanged_settings. Qed.

Lemma filter_raiseChanged_filtering_is f :
  preserves (filtering_is (T:=T) a) (filter_raiseChanged toStr f).
Proof. apply keeps_settings_filtering_is. apply filter_raiseChanged_settings. Qed.

Lemma descriptor_raiseChanged_filtering_is d :
  preserves (filtering_is (T:=T) a) (descriptor_raiseChanged toStr d).
Proof. apply keeps_settings_filtering_is. apply descriptor_raiseChanged_settings. Qed.

#[local] Hint Resolve applyPaging_filtering_is applySorting_filtering_is
  applyFilters_filtering_is filters_raiseChanged_filtering_is
  sorting_raiseChanged_filtering_is filter_raiseChanged_filtering_is
  descriptor_raiseChanged_filtering_is : flagged.

Lemma direction_set_filtering_is r value :
  preserves (filtering_is (T:=T) a) (direction_set toStr r value).
Proof. unfold direction_set. flagged. Qed.
#[local] Hint Resolve direction_set_filtering_is : flagged.

Lemma toggle_filtering_is r : preserves (filtering_is (T:=T) a) (toggle toStr r).
Proof. unfold toggle. flagged. Qed.
#[local] Hint Resolve toggle_filtering_is : flagged.

Lemma pageSize_set_filtering_is v : preserves (filtering_is (T:=T) a) (@pageSize_set T v).
Proof. unfold pageSize_set. flagged. Qed.

Lemma pageIndex_set_filtering_is v : preserves (filtering_is (T:=T) a) (@pageIndex_set T v).
Proof. unfold pageIndex_set. flagged. Qed.
#[local] Hint Resolve pageSize_set_filtering_is pageIndex_set_filtering_is : flagged.


End EveryCallAtRest.

Section AtRest.
Variable T : Type.
Variable toStr : T -> string.
Implicit Types s : CollectionView T.



End AtRest.

(** ** What the calls make of the collections *)

Section Outcomes.
Variable T : Type.
Variable toStr : T -> string.
Implicit Types s : CollectionView T.

Lemma reachable_after s op : reachable toStr s -> reachable toStr (after toStr op s).
Proof.
  intros (source & s0 & H0 & H). exists source, s0.
  split; [exact H0 | apply reach_call; exact H].
Qed.

Lemma reachable_ran s ops : reachable toStr s -> reachable toStr (run toStr ops s).
Proof.
  intros (source & s0 & H0 & H). exists source, s0.
  split; [exact H0 | apply reachable_run; exact H].
Qed.



Lemma applySorting_sorted s :
  suppressSorting s = false ->
  _sortedView (state_after (applySorting toStr s))
  = option_map (sort_all (map (comparefn toStr) (sorting_getAll s))) (_sortedView s).
Proof.
  intros H. rewrite applySorting_state, H.
  destruct (_sortedView s) as [l|] eqn:E; simpl; [|exact E].
  rewrite (proj2 (applyPaging_upstream _)). reflexivity.
Qed.

Lemma stages_sortedView s s' : stages s = stages s' -> _sortedView s = _sortedView s'.
Proof. intros E. apply (f_equal (fun t => snd (fst t))) in E. exact E. Qed.

Lemma sole_getAll s (h : list (CollectionViewSortingDescriptor T))
      (d : CollectionViewSortingDescriptor T) :
  sorting_getAll (set_descriptors [length h] (set_heap (h ++ [d]) s)) = [d].
Proof.
  unfold sorting_getAll. simpl. rewrite (nth_error_middle h [] d). reflexivity.
Qed.

Lemma sort_sorted_stage s expression direction :
  well_formed s ->
  buildable expression = true ->
  _sortedView (state_after (sort toStr expression direction s))
  = option_map (sort_all [comparefn toStr (sole_descriptor expression direction)])
               (_sortedView s).
Proof.
  intros W B. destruct (@sort_steps T toStr s expression direction W B)
    as (s3 & h & E & G & F).
  rewrite E, applySorting_sorted by reflexivity.
  assert (G' : settings (set_suppressSorting false s3)
               = settings (set_suppressSorting false
                             (set_descriptors [length h]
                                (set_heap (h ++ [sole_descriptor expression direction])
                                          (set_suppressSorting true s))))).
  { apply settings_set_suppressSorting. exact G. }
  rewrite (settings_getAll G').
  change (sorting_getAll (set_suppressSorting false ?x)) with (sorting_getAll x).
  rewrite sole_getAll. simpl. rewrite (stages_sortedView F). reflexivity.
Qed.




Lemma comparefn_flipped (n : nat) (d : CollectionViewSortingDescriptor T) :
  comparefn toStr (Nat.iter n (@flipped T) d) = comparefn toStr d.
Proof.
  induction n as [|n IH]; [reflexivity|]. simpl. rewrite <- IH.
  destruct (Nat.iter n (@flipped T) d). reflexivity.
Qed.

Lemma comparers_flipped_at (ds refs : list nat) (h : list (CollectionViewSortingDescriptor T)) :
  map (comparefn toStr) (objects_of (flipped_at ds h) refs)
  = map (comparefn toStr) (objects_of h refs).
Proof.
  induction refs as [|r refs IH]; [reflexivity|]. simpl.
  rewrite nth_flipped_at. destruct (nth_error h r) as [d|]; simpl; [|exact IH].
  rewrite comparefn_flipped, IH. reflexivity.
Qed.

(** X20. The direction plays no part in the order. [sort] leaves the same
    sorted stage whatever direction it is called with, and
    [toggleSortOrder] leaves the sorted stage that [applySorting] would
    have left without any direction turned round. *)
Theorem direction_plays_no_part s (expression : SortExpression T)
        (direction direction' : option SortDirection) :
  well_formed s ->
  _sortedView (state_after (sort toStr expression direction s))
  = _sortedView (state_after (sort toStr expression direction' s)) /\
  _sortedView (state_after (toggleSortOrder toStr s))
  = _sortedView (state_after (applySorting toStr (set_suppressSorting false s))).
Proof.
  intros W. split.
  - destruct (buildable expression) eqn:B.
    + rewrite !sort_sorted_stage by assumption. destruct expression; reflexivity.
    + destruct expression; try discriminate B.
      destruct (@sort_other T toStr s direction W) as (s2 & h & E & _ & F).
      destruct (@sort_other T toStr s direction' W) as (s2' & h' & E' & _ & F').
      rewrite E, E'. simpl. rewrite (stages_sortedView F), (stages_sortedView F').
      reflexivity.
  - destruct (toggleSortOrder_steps toStr s) as (s3 & E & G & F).
    rewrite E, !applySorting_sorted by reflexivity.
    assert (G' : settings (set_suppressSorting false s3)
                 = settings (set_suppressSorting false
                               (set_heap (flipped_at (descriptors (sorting s)) (heap s))
                                         (set_suppressSorting true s)))).
    { apply settings_set_suppressSorting. exact G. }
    rewrite (settings_getAll G'). unfold sorting_getAll. simpl.
    rewrite comparers_flipped_at, (stages_sortedView F). reflexivity.
Qed.

Lemma find_split (A : Type) (test : A -> bool) (l : list A) (x : A) :
  find test l = Some x ->
  exists before after,
    l = before ++ x :: after /\ test x = true /\ (forall y, In y before -> test y = false).
Proof.
  induction l as [|y t IH]; simpl; [discriminate|].
  destruct (test y) eqn:E.
  - intros H. inversion H; subst. exists [], t. split; [reflexivity|].
    split; [exact E | intros z []].
  - intros H. destruct (IH H) as (b & a & E1 & E2 & E3).
    exists (y :: b), a. split; [rewrite E1; reflexivity|]. split; [exact E2|].
    intros z [<-|Hz]; [exact E | apply E3; exact Hz].
Qed.

Lemma find_nothing (A : Type) (test : A -> bool) (l : list A) :
  (forall x, In x l -> test x = false) -> find test l = None.
Proof.
  induction l as [|y t IH]; intros H; simpl; [reflexivity|].
  rewrite (H y (or_introl eq_refl)). apply IH. intros x Hx. apply H. right. exact Hx.
Qed.

Lemma filter_all (A : Type) (test : A -> bool) (l : list A) :
  (forall x, In x l -> test x = true) -> filter test l = l.
Proof.
  induction l as [|y t IH]; intros H; simpl; [reflexivity|].
  rewrite (H y (or_introl eq_refl)). rewrite IH; [reflexivity|].
  intros x Hx. apply H. right. exact Hx.
Qed.

(** X21. On a view whose collections are in order, removing a filter by
    a name that is there takes out the filter of that name and no other,
    keeps the others in their order, and leaves no filter of that name;
    this holds whether or not the recomputation then throws. *)
Theorem filters_remove_by_name s (n : string) (f : CollectionViewFilter T) :
  well_formed s ->
  filters_find n (filters s) = Some f ->
  filter_items (filters (state_after (filters_remove toStr (FilterNamed T n) s)))
  = filter (fun g => negb (String.eqb (name g) n)) (filter_items (filters s)) /\
  filters_find n (filters (state_after (filters_remove toStr (FilterNamed T n) s))) = None.
Proof.
  intros (W1 & W2 & _) H. unfold filters_find in H.
  destruct (find_split _ _ H) as (before & after & E & Hf & Hb).
  assert (Ha : forall y, In y after -> String.eqb (name y) n = false).
  { intros y Hy. rewrite E, map_app in W1. simpl in W1.
    apply NoDup_remove_2 in W1.
    destruct (String.eqb_spec (name y) n) as [Y|_]; [|reflexivity].
    exfalso. apply W1. apply in_or_app. right.
    apply String.eqb_eq in Hf. rewrite Hf, <- Y. apply in_map. exact Hy. }
  assert (Hs : In raiseChangedHandler (filter_handlers f)).
  { rewrite Forall_forall in W2. apply W2. rewrite E. apply in_or_app. right. left.
    reflexivity. }
  pose proof Hs as Hr. apply forwarding_removable in Hr. destruct Hr as (rest & Hrest).
  assert (L : locate_filter (FilterNamed T n) (filter_items (filters s))
              = Found (Z.of_nat (length before)) f).
  { unfold locate_filter, locate_first. rewrite E.
    rewrite (find_index_first _ before after f Hb Hf), nth_error_middle. reflexivity. }
  pose proof (settings_filters (filters_remove_found toStr _ s L Hrest)) as R.
  simpl in R. rewrite E, splice1_middle in R.
  assert (K : filter_items (filters (state_after (filters_remove toStr (FilterNamed T n) s)))
              = before ++ after).
  { rewrite R. reflexivity. }
  split.
  - rewrite K, E, filter_app. simpl. rewrite Hf. simpl.
    rewrite !filter_all; [reflexivity | |].
    + intros x Hx. rewrite (Ha x Hx). reflexivity.
    + intros x Hx. rewrite (Hb x Hx). reflexivity.
  - unfold filters_find. rewrite K.
    apply find_nothing. intros x Hx. apply in_app_or in Hx.
    destruct Hx as [Hx|Hx]; [apply Hb | apply Ha]; exact Hx.
Qed.

(** X22. On a view whose collections are in order, every registered
    object carrying the collection's forwarding handler once for each
    place it is held at, [clear] empties the collection it is called on,
    filters or sort descriptors, whether or not the recomputation then
    throws. *)
Theorem clear_empties s :
  well_formed s ->
  filter_items (filters (state_after (filters_clear toStr s))) = [] /\
  descriptors (sorting (state_after (sorting_clear toStr s))) = [].
Proof.
  intros (_ & W2 & W3). split.
  - rewrite (settings_filters (filters_clear_subscribed toStr s W2)). reflexivity.
  - destruct (sorting_clear_settings toStr W3) as (h & E & _).
    rewrite (settings_sorting E). reflexivity.
Qed.

Lemma sorting_add_settings s (expression : SortExpression T)
      (direction : option SortDirection)
      (property_comparer : option (Fun (Comparable -> Comparable -> Z))) :
  buildable expression = true ->
  settings (state_after
              (sorting_add toStr (GivenExpression expression) direction property_comparer s))
  = settings (set_descriptors (descriptors (sorting s) ++ [length (heap s)])
                (set_heap (heap s
                           ++ [forwarding_descriptor
                                 (built expression direction property_comparer)])
                          s)).
Proof.
  intros B.
  assert (G : forall d : CollectionViewSortingDescriptor T,
             settings (state_after (bind (allocate d) (register toStr) s))
             = settings (set_descriptors (descriptors (sorting s) ++ [length (heap s)])
                           (set_heap (heap s ++ [forwarding_descriptor d]) s))).
  { intros d. unfold bind at 1. rewrite allocate_returned.
    rewrite (@register_settings T toStr (set_heap (heap s ++ [d]) s) (length (heap s)) d).
    - exact (settings_registered s d).
    - unfold deref. simpl. apply (nth_error_middle (heap s) [] d). }
  unfold sorting_add. destruct expression as [p|f|c|]; try discriminate B; apply G.
Qed.

(** X23. What [sorting.add] does with its argument. For a property
    name, a key selector or a comparison function of two arguments it
    makes a new descriptor object, puts the forwarding handler on it and
    appends it, whatever is there already, so the same expression can be
    registered twice; a comparison function is registered ascending
    whatever direction is passed with it. For a descriptor object it
    appends that object, also when the array holds it already, and puts
    the forwarding handler on it once more. For anything else it throws
    a [TypeError] and changes nothing. *)
Theorem sorting_add_appends s (direction : option SortDirection)
        (property_comparer : option (Fun (Comparable -> Comparable -> Z))) :
  (forall expression : SortExpression T,
      buildable expression = true ->
      let s' := state_after (sorting_add toStr (GivenExpression expression) direction
                                         property_comparer s) in
      descriptors (sorting s') = descriptors (sorting s) ++ [length (heap s)] /\
      sorting_count (sorting s') = sorting_count (sorting s) + 1 /\
      deref s' (length (heap s))
      = Some (forwarding_descriptor (built expression direction property_comparer)) /\
      (forall r d, deref s r = Some d -> deref s' r = Some d) /\
      _direction (built expression direction property_comparer)
      = match expression, direction with
        | ByComparer _, _ => Ascending
        | _, Some d => d
        | _, None => Ascending
        end) /\
  (forall (r : nat) (d : CollectionViewSortingDescriptor T),
      deref s r = Some d ->
      let s' := state_after (sorting_add toStr (GivenDescriptor r) direction
                                         property_comparer s) in
      descriptors (sorting s') = descriptors (sorting s) ++ [r] /\
      sorting_count (sorting s') = sorting_count (sorting s) + 1 /\
      heap s' = replace_nth r (forwarding_descriptor d) (heap s)) /\
  sorting_add toStr (GivenExpression ByOther) direction property_comparer s
  = Threw TypeError s.
Proof.
  split; [|split; [|reflexivity]].
  - intros expression B s'.
    pose proof (@sorting_add_settings s expression direction property_comparer B) as E.
    fold s' in E.
    split; [rewrite (settings_sorting E); reflexivity|].
    split; [unfold sorting_count; rewrite (settings_sorting E); simpl;
            rewrite length_app; simpl; lia|].
    split; [unfold deref; rewrite (settings_heap E); simpl;
            apply (nth_error_middle (heap s) [] _)|].
    split.
    + intros r d H. unfold deref in *. rewrite (settings_heap E). simpl.
      rewrite nth_error_app1; [exact H|]. apply nth_error_Some. congruence.
    + destruct expression, direction; try discriminate B; reflexivity.
  - intros r d H s'.
    pose proof (@register_settings T toStr s r d H) as E.
    change (register toStr r s)
      with (sorting_add toStr (GivenDescriptor r) direction property_comparer s) in E.
    fold s' in E.
    split; [rewrite (settings_sorting E); reflexivity|].
    split; [unfold sorting_count; rewrite (settings_sorting E); simpl;
            rewrite length_app; simpl; lia|].
    rewrite (settings_heap E). reflexivity.
Qed.

End Outcomes.
(** ** A change to the filters filters again *)

Section Refiltering.
Variable T : Type.
Variable toStr : T -> string.
Implicit Types s : CollectionView T.

Lemma refiltered_applyFilters s0 :
  suppressFiltering s0 = false ->
  preserves (refiltered s0) (applyFilters toStr).
Proof.
  intros H s [E _]. split.
  - rewrite applyFilters_settings. exact E.
  - rewrite applyFilters_filtered.
    + rewrite (settings_filters E), (settings_data E). reflexivity.
    + rewrite (settings_suppressFiltering E). exact H.
Qed.

Lemma refiltered_handler s0 h :
  suppressFiltering s0 = false ->
  preserves (refiltered s0) (run_collection_handler (applyFilters toStr) h).
Proof.
  intros H. destruct h; simpl; [apply refiltered_applyFilters; exact H | apply preserves_ret].
Qed.

Lemma applyFilters_refilters s0 s :
  suppressFiltering s0 = false -> settings s = settings s0 ->
  refiltered s0 (state_after (applyFilters toStr s)).
Proof.
  intros H E. split.
  - rewrite applyFilters_settings. exact E.
  - rewrite applyFilters_filtered.
    + rewrite (settings_filters E), (settings_data E). reflexivity.
    + rewrite (settings_suppressFiltering E). exact H.
Qed.

Lemma handlers_refilter s0 (hs : list CollectionChangedEventHandler) s :
  suppressFiltering s0 = false -> settings s = settings s0 ->
  In viewRecompute hs ->
  refiltered s0 (state_after (forEach hs (run_collection_handler (applyFilters toStr)) s)).
Proof.
  intros H. revert s. induction hs as [|h t IH]; intros s E Hin; [destruct Hin|].
  simpl. unfold bind. destruct h as [|n]; simpl.
  - pose proof (@applyFilters_refilters s0 s H E) as R.
    destruct (applyFilters toStr s) as [[] s'|e s']; simpl in R; [|exact R].
    apply (preserves_forEach (P := refiltered s0)); [|exact R].
    intros h. apply refiltered_handler. exact H.
  - unfold ret. apply IH; [exact E|].
    destruct Hin as [F|Hin]; [discriminate | exact Hin].
Qed.

Lemma filters_raiseChanged_refilters s0 s :
  suppressFiltering s0 = false -> settings s = settings s0 ->
  In viewRecompute (filters_handlers (filters s0)) ->
  refiltered s0 (state_after (filters_raiseChanged toStr s)).
Proof.
  intros H E Hin. unfold filters_raiseChanged. unfold bind at 1. unfold modify.
  unfold bind at 1. unfold get.
  apply handlers_refilter; [exact H | exact E|].
  simpl. rewrite (settings_filters E). exact Hin.
Qed.



(** X25. On a view that recomputes when its filters change, adding a
    filter under a free name narrows the filtered stage to the records of
    the data that pass the filters there were and the new one, whether or
    not the recomputation downstream throws. *)
Theorem filters_add_narrows s (arg : FilterArgument T) :
  suppressFiltering s = false ->
  In viewRecompute (filters_handlers (filters s)) ->
  filters_find (name (resolve_filter (filters s) arg)) (filters s) = None ->
  _filteredView (state_after (filters_add toStr arg s))
  = Some (filter (fun x => passes_all (filter_items (filters s)) x
                           && _predicate (resolve_filter (filters s) arg) x)
                 (_data s)).
Proof.
  intros H Hv N. unfold filters_add. unfold bind at 1. unfold get. cbv beta iota zeta.
  rewrite N. unfold bind at 1. unfold modify.
  match goal with
  | |- _filteredView (state_after (filters_raiseChanged _ ?st)) = _ =>
      destruct (@filters_raiseChanged_refilters st st H eq_refl Hv) as [_ R]
  end.
  rewrite R. simpl. f_equal. apply filter_ext. intros x.
  unfold passes_all. rewrite forallb_app. simpl. rewrite andb_true_r. reflexivity.
Qed.


(** X24. The names that [add] makes up for filters given without one can
    collide. Starting without filters, after two such filters are added
    and the first, ["0"], is removed, the collection holds the one named
    ["1"], and adding a third filter without a name throws, because the
    name made up for it is ["1"] again. This holds whether or not the
    recomputations that the three changes set off throw. *)
Theorem anonymous_names_collide s (p1 p2 p3 : Predicate T) :
  filter_items (filters s) = [] ->
  map (@name T)
      (filter_items
         (filters
            (state_after
               (filters_remove toStr (FilterNamed T "0")
                  (state_after
                     (filters_add toStr (GivenPredicate p2)
                        (state_after (filters_add toStr (GivenPredicate p1) s))))))))
  = ["1"] /\
  thrown (filters_add toStr (GivenPredicate p3)
            (state_after
               (filters_remove toStr (FilterNamed T "0")
                  (state_after
                     (filters_add toStr (GivenPredicate p2)
                        (state_after (filters_add toStr (GivenPredicate p1) s)))))))
  = Some (DuplicateNameError "1").
Proof.
  intros H.
  set (f0 := forwarding (new_CollectionViewFilter "0" p1)).
  set (f1 := forwarding (new_CollectionViewFilter "1" p2)).
  set (s1 := state_after (filters_add toStr (GivenPredicate p1) s)).
  assert (I1 : filter_items (filters s1) = [f0]).
  { assert (N : filters_find (name (resolve_filter (filters s) (GivenPredicate p1)))
                              (filters s) = None).
    { unfold filters_find. rewrite H. reflexivity. }
    unfold s1. rewrite (settings_filters (@filters_add_fresh T toStr _ s N)).
    simpl. rewrite H. reflexivity. }
  set (s2 := state_after (filters_add toStr (GivenPredicate p2) s1)).
  assert (I2 : filter_items (filters s2) = [f0; f1]).
  { assert (N : filters_find (name (resolve_filter (filters s1) (GivenPredicate p2)))
                              (filters s1) = None).
    { unfold filters_find. simpl. rewrite I1. reflexivity. }
    unfold s2. rewrite (settings_filters (@filters_add_fresh T toStr _ s1 N)).
    simpl. rewrite I1. reflexivity. }
  set (s3 := state_after (filters_remove toStr (FilterNamed T "0") s2)).
  assert (I3 : filter_items (filters s3) = [f1]).
  { assert (L : locate_filter (FilterNamed T "0") (filter_items (filters s2)) = Found 0 f0).
    { rewrite I2. reflexivity. }
    assert (U : Event.removeEventListener is_raiseChangedHandler (filter_handlers f0)
                = Some []).
    { reflexivity. }
    unfold s3. rewrite (settings_filters (@filters_remove_found T toStr _ s2 0 f0 [] L U)).
    simpl. rewrite I2. reflexivity. }
  split; [rewrite I3; reflexivity|].
  assert (F : filters_find (name (resolve_filter (filters s3) (GivenPredicate p3)))
                           (filters s3) = Some f1).
  { unfold filters_find. simpl. rewrite I3. reflexivity. }
  rewrite (@filters_add_taken T toStr _ s3 f1 F).
  simpl. rewrite I3. reflexivity.
Qed.

End Refiltering.

Section MoreOutcomes.
Variable T : Type.
Variable toStr : T -> string.
Implicit Types s : CollectionView T.

(** X27. Unless filtering is suppressed, [setData] replaces the data and
    makes the filtered stage the records of the new data that pass every
    filter, whether or not the recomputation downstream throws; the
    filters and everything else in the settings stay as they were. *)
Theorem setData_refilters s (data : list T) :
  suppressFiltering s = false ->
  settings (state_after (setData toStr data s)) = settings (set_data data s) /\
  _filteredView (state_after (setData toStr data s))
  = Some (filter (passes_all (filter_items (filters s))) data).
Proof.
  intros H. unfold setData.
  erewrite bind_returned; [|reflexivity].
  split; [apply applyFilters_settings|].
  rewrite applyFilters_filtered by exact H. reflexivity.
Qed.

Lemma find_first (A : Type) (test : A -> bool) (before after : list A) (x : A) :
  (forall y, In y before -> test y = false) ->
  test x = true ->
  find test (before ++ x :: after) = Some x.
Proof.
  intros Hb Hx. induction before as [|y before IH]; simpl.
  - rewrite Hx. reflexivity.
  - rewrite (Hb y (or_introl eq_refl)). apply IH.
    intros z Hz. apply Hb. right. exact Hz.
Qed.

(** X28. [toggleSortOrderBy] turns round the one descriptor object that
    the first matching place of the array refers to, also when later
    places match too: the array is as it was, and among the objects only
    that one changes, its direction reversed. Every place that holds the
    same object shows the reversed direction. *)
Theorem toggleSortOrderBy_flips_first_match s (expression : SortExpression T)
        (before after : list nat) (r : nat) (d : CollectionViewSortingDescriptor T) :
  descriptors (sorting s) = before ++ r :: after ->
  deref s r = Some d ->
  matches expression d = true ->
  (forall x e, In x before -> deref s x = Some e -> matches expression e = false) ->
  descriptors (sorting (state_after (toggleSortOrderBy toStr expression s)))
  = descriptors (sorting s) /\
  heap (state_after (toggleSortOrderBy toStr expression s))
  = replace_nth r (flipped d) (heap s).
Proof.
  intros E Hd Hm Hb.
  assert (F : sorting_find expression s = Some r).
  { unfold sorting_find. rewrite E. apply find_first.
    - intros y Hy. destruct (deref s y) as [e|] eqn:Ey; [|reflexivity].
      exact (Hb y e Hy Ey).
    - rewrite Hd. exact Hm. }
  assert (S : state_after (toggleSortOrderBy toStr expression s)
              = state_after (direction_set toStr r (opposite (_direction d)) s)).
  { unfold toggleSortOrderBy. unfold bind at 1. unfold get. cbv beta iota.
    rewrite F. unfold toggle. unfold bind at 1. unfold get. cbv beta iota. rewrite Hd.
    reflexivity. }
  rewrite S.
  pose proof (@direction_set_settings T toStr s r d (opposite (_direction d)) Hd) as G.
  split; [rewrite (settings_sorting G) | rewrite (settings_heap G)]; reflexivity.
Qed.

End MoreOutcomes.

(** ** The scenarios again *)

Lemma even_small_view_well_formed : well_formed even_small_view.
Proof.
  split; [|split].
  - apply NoDup_cons; [intros [H|[]]; discriminate|].
    apply NoDup_cons; [intros [] | apply NoDup_nil].
  - apply Forall_cons; [left; reflexivity|].
    apply Forall_cons; [left; reflexivity | apply Forall_nil].
  - intros r [].
Qed.

Lemma ranked_view_well_formed : well_formed ranked_view.
Proof.
  split; [|split].
  - apply NoDup_nil.
  - apply Forall_nil.
  - intros r [<-|[<-|[]]].
    + exists country_descriptor. split; [reflexivity | apply le_n].
    + exists points_descriptor. split; [reflexivity | apply le_n].
Qed.

Lemma loaded_view_reachable (T : Type) (toStr : T -> string) (data : list T) :
  reachable toStr (loaded_view toStr data).
Proof.
  exact (reachable_after (OpSetData data) (subscribed_view_reachable toStr)).
Qed.


Lemma registered_view_reachable : reachable object_toString registered_view.
Proof. apply reachable_ran. apply loaded_view_reachable. Qed.

Lemma doubled_view_reachable : reachable object_toString doubled_view.
Proof. apply reachable_ran. apply registered_view_reachable. Qed.

Lemma filters_add_appends_witness :
  filters_find "1" (filters (subscribed_view number_toString)) = None /\
  filters_count (filters numbered_view) = 1.
Proof.
  split; [reflexivity|].
  destruct (@filters_add_appends Z number_toString (subscribed_view number_toString)
              (GivenName "1" (fun n => 0 <? n)) eq_refl) as (_ & _ & H).
  exact H.
Defined.

Lemma filters_add_then_remove_witness :
  filters (state_after (filters_remove number_toString (FilterNamed Z "1") numbered_view))
  = filters (subscribed_view number_toString).
Proof.
  exact (@filters_add_then_remove Z number_toString (subscribed_view number_toString)
           "1" (fun n => 0 <? n) eq_refl).
Defined.

Lemma removing_what_is_missing_throws_witness :
  filters_remove number_toString (FilterNamed Z "even") numbered_view
  = Threw (JsError "Filter does not exists.") numbered_view /\
  sorting_remove number_toString (SortProperty "age") numbered_view
  = Threw (JsError "Filter does not exists.") numbered_view /\
  toggleSortOrderBy number_toString (ByProperty Z "age") numbered_view
  = Threw (JsError "Could not find sort descriptor.") numbered_view.
Proof.
  exact (@removing_what_is_missing_throws Z number_toString numbered_view
           "even" "age" (ByProperty Z "age") eq_refl eq_refl eq_refl).
Defined.

Lemma filters_remove_outsider_drops_last_witness :
  filters_remove number_toString
    (FilterObject (Detached (new_CollectionViewFilter "odd" (fun n => Z.odd n))))
    even_small_view
  = Threw NotFoundError_handler (set_filter_items [is_even] even_small_view).
Proof.
  apply (@filters_remove_outsider_drops_last Z number_toString even_small_view
           (new_CollectionViewFilter "odd" (fun n => Z.odd n))).
  simpl. intros [].
Defined.

Lemma collections_stay_well_formed_witness :
  well_formed doubled_view /\
  Forall (fun d => In raiseChangedHandler (descriptor_handlers d))
         (sorting_getAll doubled_view).
Proof.
  exact (@collections_stay_well_formed Player object_toString doubled_view
           doubled_view_reachable).
Defined.





Lemma sorting_add_appends_witness :
  descriptors (sorting registered_view) = [0%nat] /\
  descriptors
    (sorting (state_after
                (sorting_add object_toString (GivenExpression (ByProperty Player "country"))
                             None None registered_view)))
  = [0%nat; 1%nat] /\
  descriptors
    (sorting (state_after
                (sorting_add object_toString (GivenDescriptor 0%nat) None None
                             registered_view)))
  = [0%nat; 0%nat] /\
  thrown (sorting_add object_toString (GivenExpression ByOther) None None registered_view)
  = Some TypeError.
Proof.
  destruct (@sorting_add_appends Player object_toString registered_view None None)
    as (H1 & H2 & H3).
  split; [reflexivity|].
  split; [exact (proj1 (H1 (ByProperty Player "country") eq_refl))|].
  split; [|rewrite H3; reflexivity].
  exact (proj1 (H2 0%nat
                   (forwarding_descriptor
                      (new_CollectionViewSortingDescriptor (ByProperty Player "country")
                                                           None None))
                   eq_refl)).
Defined.

Lemma direction_plays_no_part_witness :
  _sortedView (state_after
                 (sort object_toString (ByComparer by_country) (Some Descending)
                       ranked_view))
  = _sortedView (state_after
                   (sort object_toString (ByComparer by_country) (Some Ascending)
                         ranked_view)) /\
  _sortedView (state_after (toggleSortOrder object_toString ranked_view))
  = _sortedView (state_after
                   (applySorting object_toString (set_suppressSorting false ranked_view))).
Proof.
  exact (@direction_plays_no_part Player object_toString ranked_view
           (ByComparer by_country) (Some Descending) (Some Ascending)
           ranked_view_well_formed).
Defined.

Lemma filters_remove_by_name_witness :
  filter_items
    (filters (state_after
                (filters_remove number_toString (FilterNamed Z "even") even_small_view)))
  = [is_small] /\
  filters_find "even"
    (filters (state_after
                (filters_remove number_toString (FilterNamed Z "even") even_small_view)))
  = None.
Proof.
  exact (@filters_remove_by_name Z number_toString even_small_view "even" is_even
           even_small_view_well_formed eq_refl).
Defined.

Lemma clear_empties_witness :
  filter_items (filters (state_after (filters_clear number_toString even_small_view))) = [] /\
  descriptors (sorting (state_after (sorting_clear object_toString ranked_view))) = [].
Proof.
  split.
  - exact (proj1 (@clear_empties Z number_toString even_small_view
                    even_small_view_well_formed)).
  - exact (proj2 (@clear_empties Player object_toString ranked_view
                    ranked_view_well_formed)).
Defined.

Lemma anonymous_names_collide_witness :
  thrown (filters_add number_toString (GivenPredicate (fun n => 3 <? n))
            (state_after
               (filters_remove number_toString (FilterNamed Z "0")
                  (state_after
                     (filters_add number_toString (GivenPredicate (fun n => Z.even n))
                        (state_after
                           (filters_add number_toString (GivenPredicate (fun n => 0 <? n))
                              (subscribed_view number_toString)))))))) 
  = Some (DuplicateNameError "1").
Proof.
  exact (proj2 (@anonymous_names_collide Z number_toString
                  (subscribed_view number_toString)
                  (fun n => 0 <? n) (fun n => Z.even n) (fun n => 3 <? n) eq_refl)).
Defined.

Lemma filters_add_narrows_witness :
  _filteredView (state_after
                   (filters_add number_toString (GivenName "big" (fun n => 3 <? n))
                                even_small_view))
  = Some [4].
Proof.
  apply (@filters_add_narrows Z number_toString even_small_view
           (GivenName "big" (fun n => 3 <? n))).
  - reflexivity.
  - left. reflexivity.
  - reflexivity.
Defined.


Lemma setData_refilters_witness :
  _filteredView (state_after (setData number_toString (one_to 10) even_small_view))
  = Some [2; 4].
Proof.
  exact (proj2 (@setData_refilters Z number_toString even_small_view (one_to 10) eq_refl)).
Defined.

Lemma toggleSortOrderBy_flips_first_match_witness :
  descriptors (sorting doubled_view) = [0%nat; 1%nat; 0%nat] /\
  map (@_direction Player) (sorting_getAll doubled_view)
  = [Ascending; Descending; Ascending] /\
  map (@_direction Player)
      (sorting_getAll
         (state_after (toggleSortOrderBy object_toString (ByProperty Player "country")
                                         doubled_view)))
  = [Descending; Descending; Descending].
Proof.
  destruct (@toggleSortOrderBy_flips_first_match Player object_toString doubled_view
              (ByProperty Player "country") [] [1%nat; 0%nat] 0%nat
              (forwarding_descriptor
                 (forwarding_descriptor
                    (new_CollectionViewSortingDescriptor (ByProperty Player "country")
                                                         None None)))
              eq_refl eq_refl eq_refl (fun x e H => match H with end))
    as [H1 H2].
  split; [reflexivity|]. split; [reflexivity|].
  unfold sorting_getAll. rewrite H1, H2. reflexivity.
Defined.
